(** * NanoClaw orchestration kernel: a shallow embedding and its properties

    The development follows the TypeScript sources of the host process:
    - [src/index.ts]: trigger filter, [processMessage], [runAgent],
      the message loop, the IPC watcher and [processTaskIpc]; and
      [translateJid], [detectUrls], [isSearchQuery];
    - the ingestion pipeline, [ingestUrlInternal], [ingestContentInternal],
      [finishIngestion], [deleteSource], which follows the video extractor
      in [src/kb/extractors/video.ts] (lines 231-560), and
      [extractVideoTranscript] and [extractVideoId] of that extractor;
    - the semantic search, [search], [formatSearchResults] and
      [findSimilar], which follows the configuration in [src/config.ts]
      (lines 116-335);
    and, of the agent's side, [writeIpcFile] and the [send_message] tool of
    [container/agent-runner/src/ipc-mcp.ts].

    Conventions.  A JavaScript string is a [string] with one character
    per UTF-16 code unit: the strings whose code units are all below 256
    (ISO 8859-1), so that length, slicing, white space and case folding
    are the ones of JavaScript on them; a character above 127 is written
    by its code, never as a literal.  A JavaScript value that may be
    [undefined]/[null] is an [option]; truthiness of a string is
    non-emptiness.  An object used as a map is the list of its own
    entries; a key taken from the host's own data (a registered JID, a
    group folder, the name of a registered project) is taken not to be
    the name of a member of [Object.prototype], while a key taken from an
    IPC payload may be one, and the lookup then finds that member.  The
    fields of an IPC payload have the types [processTaskIpc] declares.
    Collaborators that live outside the sources at hand (the container
    runner, the chat socket, the embeddings provider, the external CLIs,
    the clock) are fields of a [World] record: every theorem quantifies
    over all of them.  Calls into the file system and the data base are
    taken to succeed where the outcome depends on the machine; where it
    depends on the arguments (a path with a null byte, a time beyond the
    range of [Date]) the failure is part of the model.  A command given
    to a shell does to the Sugar project registry, a file that is read
    again at every request, what the [World] says it does; the
    registered groups and the running processes are kept in memory, out
    of a command's reach, and the data base and the IPC directories are
    taken to be left alone by the commands. *)

From Stdlib Require Import ZArith QArith Lia List Bool Ascii String Sorted Permutation.
From stdpp Require Import base option list sorting gmap strings pretty.
Import ListNotations.

Local Open Scope string_scope.
Local Open Scope list_scope.

(** ** JavaScript string helpers *)

Module Js.

(** [Boolean(s)] for a string. *)
Definition truthy (s : string) : bool := negb (String.eqb s "").

(** [Boolean(v)] for [v : string | undefined]. *)
Definition otruthy (o : option string) : bool :=
  match o with Some s => truthy s | None => false end.

(** [a || b] on optional strings. *)
Definition or_else (o : option string) (d : string) : string :=
  match o with Some s => if truthy s then s else d | None => d end.

(** [s.startsWith(p)] *)
Definition startsWith (p s : string) : bool := String.prefix p s.

(** [s.slice(1)] *)
Definition slice1 (s : string) : string :=
  match s with String _ r => r | EmptyString => EmptyString end.

(** [s.slice(0, n)] for a natural [n]. *)
Definition take (n : nat) (s : string) : string := String.substring 0 n s.

(** White space and line terminators, which [trim] strips and the class
    [\s] holds: TAB, LF, VT, FF, CR, SP and the no-break space U+00A0.
    (The others, U+1680, U+2000 to U+200A, U+2028, U+2029, U+202F, U+205F,
    U+3000 and U+FEFF, are above 255.) *)
Definition isWhiteSpace (c : ascii) : bool :=
  match c with
  | "009"%char | "010"%char | "011"%char | "012"%char | "013"%char
  | " "%char | "160"%char => true
  | _ => false
  end.

Fixpoint trimStart (s : string) : string :=
  match s with
  | String c r => if isWhiteSpace c then trimStart r else s
  | EmptyString => EmptyString
  end.

(** [s.trim()] *)
Definition trim (s : string) : string :=
  String.rev (trimStart (String.rev (trimStart s))).

(** [s.replace(/c/g, r)]: every occurrence of the character [c]. *)
Fixpoint replaceChar (c : ascii) (r : string) (s : string) : string :=
  match s with
  | String d t =>
      if Ascii.eqb c d then r ++ replaceChar c r t
      else String d (replaceChar c r t)
  | EmptyString => EmptyString
  end.

(** [haystack.includes(needle)] *)
Fixpoint includes (needle hay : string) : bool :=
  String.prefix needle hay ||
  match hay with String _ r => includes needle r | EmptyString => false end.

End Js.

(** ** The trigger pattern ([buildTriggerPattern], index.ts 202-208) *)

Module Trigger.

(** The characters of the class [[.*+?^${}()|[\]\\]]. *)
Definition is_special (c : ascii) : bool :=
  match c with
  | "."%char | "*"%char | "+"%char | "?"%char | "^"%char | "$"%char
  | "{"%char | "}"%char | "("%char | ")"%char | "|"%char | "["%char
  | "]"%char | "\"%char => true
  | _ => false
  end.

(** [name.replace(/[.*+?^${}()|[\]\\]/g, '\\$&')] *)
Fixpoint escapeRegex (s : string) : string :=
  match s with
  | String c r =>
      if is_special c then String "\"%char (String c (escapeRegex r))
      else String c (escapeRegex r)
  | EmptyString => EmptyString
  end.

(** [getAssistantNameFromTrigger]: the trigger without one leading [@]. *)
Definition getAssistantNameFromTrigger (trigger : string) : string :=
  if Js.startsWith "@" trigger then Js.slice1 trigger else trigger.

(** The source text handed to [new RegExp(..., 'i')]. *)
Definition buildTriggerPattern (trigger : string) : string :=
  let name := if Js.startsWith "@" trigger then Js.slice1 trigger else trigger in
  let escaped := escapeRegex name in
  "^@" ++ escaped ++ "\b".

(** *** The fragment of RegExp syntax those patterns live in *)

Inductive atom : Type :=
| AStart                 (* ^  *)
| AWordB                 (* \b *)
| ALit (c : ascii).      (* a literal character, escaped or not *)

(** Reading a pattern: [None] when it leaves the fragment. *)
Fixpoint parse (p : string) : option (list atom) :=
  match p with
  | EmptyString => Some []
  | String c r =>
      if Ascii.eqb c "\"%char then
        match r with
        | String d r' =>
            if Ascii.eqb d "b"%char then cons AWordB <$> parse r'
            else if is_special d then cons (ALit d) <$> parse r'
            else None
        | EmptyString => None
        end
      else if Ascii.eqb c "^"%char then cons AStart <$> parse r
      else if is_special c then None
      else cons (ALit c) <$> parse r
  end.

(** Canonicalize under the [i] flag (no [u] flag): a character goes to
    its upper-case form when that is one code unit, and a character above
    127 never goes to one below 128.  Below 256 the letters with another
    upper-case form are a-z and U+00E0 to U+00FE without the division
    sign U+00F7, each 32 above its upper-case form; the upper-case forms
    of U+00B5 (U+039C), U+00DF (two letters) and U+00FF (U+0178) are not
    in the range, and each of these three matches itself only. *)
Definition upcase (c : ascii) : ascii :=
  let n := nat_of_ascii c in
  if ((97 <=? n)%nat && (n <=? 122)%nat)
     || ((224 <=? n)%nat && (n <=? 254)%nat && negb (n =? 247)%nat)
  then ascii_of_nat (n - 32) else c.

Definition ci_eqb (a b : ascii) : bool := Ascii.eqb (upcase a) (upcase b).

(** [IsWordChar]: [[A-Za-z0-9_]]; outside the string it is false. *)
Definition is_word_char (c : ascii) : bool :=
  let n := nat_of_ascii c in
  ((48 <=? n)%nat && (n <=? 57)%nat) || ((65 <=? n)%nat && (n <=? 90)%nat)
  || ((97 <=? n)%nat && (n <=? 122)%nat) || (n =? 95)%nat.

Definition is_word (o : option ascii) : bool :=
  match o with Some c => is_word_char c | None => false end.

Definition head (s : string) : option ascii :=
  match s with String c _ => Some c | EmptyString => None end.

(** Matching the atoms at the current position: [prev] is the character
    just before it, [at0] tells whether the position is index 0. *)
Fixpoint match_here (atoms : list atom) (prev : option ascii) (at0 : bool)
         (s : string) : bool :=
  match atoms with
  | [] => true
  | AStart :: r => at0 && match_here r prev at0 s
  | AWordB :: r => xorb (is_word prev) (is_word (head s)) && match_here r prev at0 s
  | ALit c :: r =>
      match s with
      | String d s' => ci_eqb c d && match_here r (Some d) false s'
      | EmptyString => false
      end
  end.

(** [regex.test(s)]: a match starting at some index. *)
Fixpoint search (atoms : list atom) (prev : option ascii) (at0 : bool)
         (s : string) : bool :=
  match_here atoms prev at0 s ||
  match s with
  | String d s' => search atoms (Some d) false s'
  | EmptyString => false
  end.

(** [new RegExp(pattern, 'i').test(s)] *)
Definition regex_test_i (pattern s : string) : option bool :=
  atoms ← parse pattern; Some (search atoms None true s).

(** [buildTriggerPattern(trigger).test(content)].  The pattern never
    leaves the fragment (lemma [parse_buildTriggerPattern]). *)
Definition triggerTest (trigger content : string) : bool :=
  default false (regex_test_i (buildTriggerPattern trigger) content).

(** The pattern as the specification spells it: [^<trigger>\b],
    case-insensitive, on the message content. *)
Definition spec_trigger_match (trigger content : string) : bool :=
  search (AStart :: map ALit (list_ascii_of_string trigger) ++ [AWordB])
         None true content.

(** *** The vocabulary of the filter's specification *)

(** A lower-case letter whose upper-case form is a character of the
    strings here: [a] to [z], and U+00E0 to U+00FE without the division
    sign U+00F7. *)
Definition lowerLetter (c : ascii) : bool :=
  let n := nat_of_ascii c in
  ((97 <=? n)%nat && (n <=? 122)%nat)
  || ((224 <=? n)%nat && (n <=? 254)%nat && negb (n =? 247)%nat).

(** [up] is the upper-case form of the lower-case letter [lo]: it is 32
    below it. *)
Definition upperOf (lo up : ascii) : bool :=
  lowerLetter lo && (nat_of_ascii lo =? nat_of_ascii up + 32)%nat.

(** The same character, or one letter in its two cases. *)
Definition sameLetter (a b : ascii) : bool :=
  Ascii.eqb a b || upperOf a b || upperOf b a.

(** Two strings of the same length, equal up to the case of letters. *)
Fixpoint ci_equal (p u : string) : bool :=
  match p, u with
  | EmptyString, EmptyString => true
  | String a p', String b u' => sameLetter a b && ci_equal p' u'
  | _, _ => false
  end.

(** The last character of [u], or [prev] when [u] is empty. *)
Fixpoint lastChar (prev : option ascii) (u : string) : option ascii :=
  match u with
  | EmptyString => prev
  | String c u' => lastChar (Some c) u'
  end.

(** [c] begins with [p], up to case, and a word boundary follows: of the
    last character of that beginning and the character after it, exactly
    one is a word character. *)
Definition StartsWithWord (p c : string) : Prop :=
  exists u v : string,
    c = u +:+ v /\ ci_equal p u = true /\
    is_word (lastChar None u) <> is_word (head v).

End Trigger.

(** ** Knowledge base: storage, ingestion and search *)

Module Kb.

Inductive SourceType : Type := article | video | pdf | text | tweet | other.

(** An embedding vector.  The packing into a little-endian float32 buffer
    ([serializeFloat32]/[deserializeFloat32]) is left out: a stored
    embedding is the vector itself. *)
Definition Embedding : Type := list Q.

Record KBSource : Type := mkSource {
  id : string;
  group_folder : string;
  url : option string;
  title : option string;
  source_type : SourceType;
  raw_content : string;
  content_hash : string;
  tags : option (list string);
  created_at : string;
  updated_at : string
}.

Record KBChunk : Type := mkChunk {
  chunk_id : nat;
  source_id : string;
  chunk_index : nat;
  content : string;
  embedding : option Embedding;
  embedding_dim : option nat;
  embedding_provider : option string;
  embedding_model : option string
}.

Record ExtractedContent : Type := mkExtracted {
  ex_title : string;
  ex_content : string
}.

(** A program run with [execFile]: the file, the argument vector and
    the time limit in milliseconds. *)
Record Spawn : Type := mkSpawn {
  sp_file : string;
  sp_args : list string;
  sp_timeout : Z
}.

Record ValidationResult : Type := mkValidation {
  valid : bool;
  reason : option string;
  truncated : bool
}.

Record IngestOptions : Type := mkIngestOptions {
  groupFolder : string;
  opt_url : option string;
  opt_title : option string;
  sourceType : option SourceType;
  opt_tags : option (list string)
}.

Record IngestResult : Type := mkIngestResult {
  success : bool;
  res_source_id : option string;
  chunks_count : option nat;
  error : option string;
  existingSourceId : option string;
  updated : option bool
}.

Definition failure (msg : string) (existing : option string) : IngestResult :=
  {| success := false; res_source_id := None; chunks_count := None;
     error := Some msg; existingSourceId := existing; updated := None |}.

Record SearchResult : Type := mkSearchResult {
  sr_chunk_id : nat;
  sr_source_id : string;
  source_url : option string;
  source_title : option string;
  sr_source_type : SourceType;
  sr_content : string;
  similarity : Q
}.

Record SearchOptions : Type := mkSearchOptions {
  so_groupFolder : option string;
  limit : option Z;
  minSimilarity : option Q;
  dedupeBySource : option bool
}.

(** The tables [kb_sources] and [kb_chunks], the row counter of
    [kb_chunks], a counter standing for the clock and random source of
    [createSource], and the availability flag of the embeddings module
    ([setAvailable]/[isAvailable]). *)
Record KbState : Type := mkKbState {
  sources : list KBSource;
  chunks : list KBChunk;
  next_chunk_id : nat;
  clock : nat;
  available : bool
}.

Definition set_sources (f : list KBSource -> list KBSource) (st : KbState) : KbState :=
  {| sources := f (sources st); chunks := chunks st;
     next_chunk_id := next_chunk_id st; clock := clock st;
     available := available st |}.

Definition set_chunks (f : list KBChunk -> list KBChunk) (st : KbState) : KbState :=
  {| sources := sources st; chunks := f (chunks st);
     next_chunk_id := next_chunk_id st; clock := clock st;
     available := available st |}.

(** [setAvailable(b)] *)
Definition setAvailable (b : bool) (st : KbState) : KbState :=
  {| sources := sources st; chunks := chunks st;
     next_chunk_id := next_chunk_id st; clock := clock st;
     available := b |}.

(** The collaborators of the pipeline whose modules are not among the
    sources at hand ([dedupe.js], [quality.js], [chunking.js],
    [embeddings.js], the extractors other than the one for videos),
    [detectSourceType], a regular-expression classifier of the URL whose
    value only selects the extractor and the stored [source_type], and
    what [yt-dlp] answers. *)
Record World : Type := mkWorld {
  normalizeUrl : string -> string;
  detectSourceType : string -> SourceType;
  (** the extractors for what is no video: what they return, and the
      programs they run, if any *)
  extractOther : string -> SourceType -> option ExtractedContent * list Spawn;
  (** [YTDLP_PATH], and the template [path.join(os.tmpdir(),
      `yt-sub-${Date.now()}.%(ext)s`)] *)
  YTDLP_PATH : string;
  subPath : string;
  (** the output of [yt-dlp --print %(title)s], nothing when the call
      fails or runs out of time *)
  ytTitle : string -> option string;
  (** the text [parseVTT] makes of the last subtitle file that could be
      read after the download; empty when the download failed or left
      none *)
  ytTranscript : string -> string;
  (** the output of [yt-dlp --print %(description)s], or nothing *)
  ytDescription : string -> option string;
  cleanContent : string -> string;
  validateContent : string -> SourceType -> ValidationResult;
  MAX_CONTENT_LENGTH : nat;
  generateContentHash : string -> string;
  chunkText : string -> list string;
  (** the vectors, one per chunk (or none), and the availability flag the
      embeddings module is left with *)
  generateEmbeddingsBatch : list string -> list (option Embedding) * bool;
  generateEmbedding : string -> option Embedding;
  cosineSimilarity : Embedding -> Embedding -> Q;
  (** [kb-<ts>-<rand>] *)
  newSourceId : nat -> string;
  timestamp : nat -> string
}.

(** *** Storage *)

Definition opt_eqb (o : option string) (s : string) : bool :=
  match o with Some x => String.eqb x s | None => false end.

(** Modelled from the spec: [getSourceByUrl] of [storage.js] is missing.
    "if a source with this URL exists": the call site passes the
    normalized URL and nothing else, so the lookup ranges over the whole
    table. *)
Definition getSourceByUrl (u : string) (st : KbState) : option KBSource :=
  find (fun s => opt_eqb (url s) u) (sources st).

(** Modelled from the spec: [getSourceByHash] of [storage.js] is missing.
    "if another source has this hash": the call site passes the hash
    only. *)
Definition getSourceByHash (h : string) (st : KbState) : option KBSource :=
  find (fun s => String.eqb (content_hash s) h) (sources st).

(** Modelled from the spec: [getSourceById] of [storage.js] is missing.
    The source with this id inside the given group. *)
Definition getSourceById (i g : string) (st : KbState) : option KBSource :=
  find (fun s => String.eqb (id s) i && String.eqb (group_folder s) g) (sources st).

(** Modelled from the spec: [createSource] of [storage.js] is missing.
    A fresh row with id [kb-<ts>-<rand>] and both time stamps set. *)
Definition createSource (w : World) (g : string) (u : option string)
           (t : string) (ty : SourceType) (raw h : string)
           (tg : option (list string)) (st : KbState) : KBSource * KbState :=
  let s := {| id := newSourceId w (clock st); group_folder := g; url := u;
              title := Some t; source_type := ty; raw_content := raw;
              content_hash := h; tags := tg;
              created_at := timestamp w (clock st);
              updated_at := timestamp w (clock st) |} in
  (s, {| sources := sources st ++ [s]; chunks := chunks st;
         next_chunk_id := next_chunk_id st; clock := S (clock st);
         available := available st |}).

(** Modelled from the spec: [updateSource] of [storage.js] is missing.
    The row keeps its id, group, type and [created_at]. *)
Definition updateSource (w : World) (i : string) (u t : option string)
           (raw h : string) (tg : option (list string)) (st : KbState) : KbState :=
  {| sources :=
       map (fun s =>
              if String.eqb (id s) i then
                {| id := id s; group_folder := group_folder s; url := u;
                   title := t; source_type := source_type s;
                   raw_content := raw; content_hash := h; tags := tg;
                   created_at := created_at s;
                   updated_at := timestamp w (clock st) |}
              else s) (sources st);
     chunks := chunks st; next_chunk_id := next_chunk_id st;
     clock := S (clock st); available := available st |}.

(** Modelled from the spec: [createChunk] of [storage.js] is missing.
    Appends one row to [kb_chunks]. *)
Definition createChunk (sid : string) (i : nat) (c : string)
           (e : option Embedding) (st : KbState) : KbState :=
  {| sources := sources st;
     chunks := chunks st ++
       [{| chunk_id := next_chunk_id st; source_id := sid; chunk_index := i;
           content := c; embedding := e;
           embedding_dim := length <$> e;
           embedding_provider := match e with Some _ => Some "ollama" | None => None end;
           embedding_model :=
             match e with Some _ => Some "nomic-embed-text" | None => None end |}];
     next_chunk_id := S (next_chunk_id st); clock := clock st;
     available := available st |}.

(** Modelled from the spec: [deleteChunksBySourceId] of [storage.js] is
    missing. *)
Definition deleteChunksBySourceId (sid : string) (st : KbState) : KbState :=
  set_chunks (filter (fun c => source_id c ≠ sid)) st.

(** Modelled from the spec: [deleteSource] of [storage.js] is missing.
    "Removes source and cascades chunks": the call site passes the source
    id and nothing else. *)
Definition storage_deleteSource (sid : string) (st : KbState) : KbState :=
  set_sources (filter (fun s => id s ≠ sid)) (deleteChunksBySourceId sid st).

(** Modelled from the spec: [listSources] of [storage.js] is missing. *)
Definition listSources (g : string) (n : nat) (st : KbState) : list KBSource :=
  take n (filter (fun s => group_folder s = g) (sources st)).

(** *** Extraction ([extractVideoTranscript], kb/extractors/video.ts
    22-170) *)

(** The three calls of [execSafe]: the title, the subtitles, the
    description. *)
Definition titleCall (w : World) (url : string) : Spawn :=
  {| sp_file := YTDLP_PATH w;
     sp_args := ["--no-warnings"; "--skip-download"; "--print"; "%(title)s"; url];
     sp_timeout := 30000 |}.

Definition subtitlesCall (w : World) (url : string) : Spawn :=
  {| sp_file := YTDLP_PATH w;
     sp_args := ["--no-warnings"; "--skip-download"; "--write-subs";
                 "--write-auto-subs"; "--sub-langs"; "en,en-US"; "--sub-format";
                 "vtt"; "--output"; subPath w; url];
     sp_timeout := 60000 |}.

Definition descriptionCall (w : World) (url : string) : Spawn :=
  {| sp_file := YTDLP_PATH w;
     sp_args := ["--no-warnings"; "--skip-download"; "--print"; "%(description)s"; url];
     sp_timeout := 30000 |}.

(** [extractVideoTranscript]: what it returns, and the programs it has
    run when it returns.  A failed title call ends it ([catch]); a failed
    subtitle or description call is passed over. *)
Definition extractVideoTranscript (w : World) (url : string)
  : option ExtractedContent * list Spawn :=
  match ytTitle w url with
  | None => (None, [titleCall w url])
  | Some stdout =>
      let title := Js.trim stdout in
      if negb (Js.truthy title) then (None, [titleCall w url])
      else
        let transcript := ytTranscript w url in
        let short := (String.length transcript <? 200)%nat in
        let content :=
          if short then
            match ytDescription w url with
            | Some out =>
                let description := Js.trim out in
                if (String.length transcript <? String.length description)%nat
                then description else transcript
            | None => transcript
            end
          else transcript in
        let calls :=
          [titleCall w url; subtitlesCall w url]
          ++ (if short then [descriptionCall w url] else []) in
        if (50 <? String.length content)%nat
        then (Some {| ex_title := title; ex_content := content |}, calls)
        else (Some {| ex_title := title;
                      ex_content := "[Video: " +:+ title +:+ "]"
                                    +:+ String "010"%char (String "010"%char "")
                                    +:+ "No transcript available. URL: " +:+ url |},
              calls)
  end.

(** Modelled from the spec: [extractContent] of [extractors/index.js] is
    missing.  "dispatch to extractor (article via HTTP fetch; video via
    external transcript CLI with safe argv; pdf via PDF text extractor;
    text passthrough)": a video goes to [extractVideoTranscript]. *)
Definition extraction (w : World) (u : string) (ty : SourceType)
  : option ExtractedContent * list Spawn :=
  match ty with
  | video => extractVideoTranscript w u
  | _ => extractOther w u ty
  end.

Definition extractContent (w : World) (u : string) (ty : SourceType)
  : option ExtractedContent :=
  (extraction w u ty).1.

(** *** Ingestion (the pipeline in [kb/extractors/video.ts], 259-524) *)

(** The loop that stores the chunks (finishIngestion, "Store chunks"):
    chunk [i] is written only when [embeddings[i]] is there; the count of
    written chunks is returned with the state. *)
Fixpoint storeChunks (sid : string) (i : nat) (cs : list string)
         (embeddings : list (option Embedding)) (st : KbState) : nat * KbState :=
  match cs with
  | [] => (0, st)
  | c :: cs' =>
      match mjoin (embeddings !! i) with
      | Some emb =>
          let '(n, st') := storeChunks sid (S i) cs' embeddings
                             (createChunk sid i c (Some emb) st) in
          (S n, st')
      | None => storeChunks sid (S i) cs' embeddings st
      end
  end.

Definition finishIngestion (w : World) (u : option string) (t : option string)
           (content : string) (ty : SourceType) (g : string)
           (tg : option (list string)) (existingSource : option KBSource)
           (st : KbState) : IngestResult * KbState :=
  let cleanedContent := cleanContent w content in
  let validation := validateContent w cleanedContent ty in
  if negb (valid validation) then
    ({| success := false; res_source_id := None; chunks_count := None;
        error := reason validation; existingSourceId := None;
        updated := None |}, st)
  else
    let finalContent :=
      if truncated validation
      then Js.take (MAX_CONTENT_LENGTH w) cleanedContent
      else cleanedContent in
    let contentHash := generateContentHash w finalContent in
    match (match existingSource with
           | None => getSourceByHash contentHash st
           | Some _ => None
           end) with
    | Some existingByHash =>
        (failure "Duplicate content (same hash)" (Some (id existingByHash)), st)
    | None =>
        let '(sid, st1) :=
          match existingSource with
          | Some ex =>
              (id ex, updateSource w (id ex) u t finalContent contentHash tg st)
          | None =>
              let '(s, st') :=
                createSource w g u (Js.or_else t "Untitled") ty finalContent
                             contentHash tg st in
              (id s, st')
          end in
        let cs := chunkText w finalContent in
        let st2 := setAvailable true st1 in
        let '(embeddings, avail) := generateEmbeddingsBatch w cs in
        let st3 := setAvailable avail st2 in
        let '(chunksStored, st4) := storeChunks sid 0 cs embeddings st3 in
        ({| success := true; res_source_id := Some sid;
            chunks_count := Some chunksStored; error := None;
            existingSourceId := None;
            updated := Some (bool_decide (is_Some existingSource)) |}, st4)
    end.

(** [ingestUrlInternal].  The ingest lock serialises calls on one group;
    calls are sequential here, so acquiring and releasing it leaves no
    trace. *)
Definition ingestUrlInternal (w : World) (u : string) (options : IngestOptions)
           (forceUpdate : bool) (st : KbState) : IngestResult * KbState :=
  let normalizedUrl := normalizeUrl w u in
  let existingByUrl := getSourceByUrl normalizedUrl st in
  let proceed (st' : KbState) :=
    let ty := default (detectSourceType w u) (sourceType options) in
    match extractContent w u ty with
    | None => (failure "Content extraction failed" None, st')
    | Some extracted =>
        finishIngestion w (Some normalizedUrl) (Some (ex_title extracted))
                        (ex_content extracted) ty (groupFolder options)
                        (opt_tags options) existingByUrl st'
    end in
  match existingByUrl with
  | Some ex =>
      if forceUpdate then proceed (deleteChunksBySourceId (id ex) st)
      else (failure "URL already ingested" (Some (id ex)), st)
  | None => proceed st
  end.

(** The programs [ingestUrlInternal] has run when it returns: those of
    the extraction, when it gets that far. *)
Definition ingestUrlSpawns (w : World) (u : string) (options : IngestOptions)
           (forceUpdate : bool) (st : KbState) : list Spawn :=
  match getSourceByUrl (normalizeUrl w u) st with
  | Some _ =>
      if forceUpdate
      then (extraction w u (default (detectSourceType w u) (sourceType options))).2
      else []
  | None => (extraction w u (default (detectSourceType w u) (sourceType options))).2
  end.

Definition ingestUrl (w : World) (u : string) (options : IngestOptions) :=
  ingestUrlInternal w u options false.

Definition updateUrl (w : World) (u : string) (options : IngestOptions) :=
  ingestUrlInternal w u options true.

Definition ingestContentInternal (w : World) (content : string)
           (options : IngestOptions) (forceUpdate : bool) (st : KbState)
  : IngestResult * KbState :=
  let ty := default text (sourceType options) in
  let finish (existingSource : option KBSource) (st' : KbState) :=
    finishIngestion w
      (if Js.otruthy (opt_url options) then normalizeUrl w <$> opt_url options
       else None)
      (opt_title options) content ty (groupFolder options)
      (opt_tags options) existingSource st' in
  match opt_url options with
  | Some u =>
      if Js.truthy u then
        match getSourceByUrl (normalizeUrl w u) st with
        | Some ex =>
            if forceUpdate
            then finish (Some ex) (deleteChunksBySourceId (id ex) st)
            else (failure "URL already ingested" (Some (id ex)), st)
        | None => finish None st
        end
      else finish None st
  | None => finish None st
  end.

Definition ingestContent (w : World) (content : string) (options : IngestOptions) :=
  ingestContentInternal w content options false.

Definition updateContent (w : World) (content : string) (options : IngestOptions) :=
  ingestContentInternal w content options true.

(** [deleteSource] of the pipeline (507-517), imported by [index.ts] as
    [deleteKBSource]: the storage call is all it does. *)
Definition deleteSource (sid : string) (st : KbState) : bool * KbState :=
  (true, storage_deleteSource sid st).

(** [listKBSources] *)
Definition listKBSources (g : string) (n : nat) (st : KbState) : list KBSource :=
  listSources g n st.

(** *** Search ([search] in [config.ts], 138-224) *)

(** One row of the query: a chunk that has an embedding, joined with its
    source. *)
Record SearchRow : Type := mkRow {
  row_id : nat;
  row_source_id : string;
  row_content : string;
  row_embedding : Embedding;
  row_source_url : option string;
  row_source_title : option string;
  row_source_type : SourceType;
  row_group : string
}.

(** [SELECT ... FROM kb_chunks c JOIN kb_sources s ON c.source_id = s.id
    WHERE c.embedding IS NOT NULL] *)
Definition joinRows (st : KbState) : list SearchRow :=
  omap (fun c =>
          emb ← embedding c;
          s ← find (fun s => String.eqb (id s) (source_id c)) (sources st);
          Some {| row_id := chunk_id c; row_source_id := source_id c;
                  row_content := content c; row_embedding := emb;
                  row_source_url := url s; row_source_title := title s;
                  row_source_type := source_type s;
                  row_group := group_folder s |})
       (chunks st).

(** [... AND s.group_folder = ?], added when [groupFolder] is truthy. *)
Definition selectRows (g : option string) (st : KbState) : list SearchRow :=
  match g with
  | Some gf =>
      if Js.truthy gf
      then filter (fun r => row_group r = gf) (joinRows st)
      else joinRows st
  | None => joinRows st
  end.

Definition resultOfRow (w : World) (q : Embedding) (r : SearchRow) : SearchResult :=
  {| sr_chunk_id := row_id r; sr_source_id := row_source_id r;
     source_url := row_source_url r; source_title := row_source_title r;
     sr_source_type := row_source_type r; sr_content := row_content r;
     similarity := cosineSimilarity w q (row_embedding r) |}.

(** "Calculate similarities": the rows at or above the threshold. *)
Definition scoreRows (w : World) (q : Embedding) (minSim : Q)
           (rows : list SearchRow) : list SearchResult :=
  filter (fun r => Qle_bool minSim (similarity r) = true)
         (map (resultOfRow w q) rows).

(** [results.sort((a, b) => b.similarity - a.similarity)]:
    [Array.prototype.sort] is stable, so a result goes in front of the
    first one that is not strictly more similar. *)
Fixpoint insertDesc (x : SearchResult) (l : list SearchResult) : list SearchResult :=
  match l with
  | [] => [x]
  | y :: l' =>
      if Qlt_le_dec (similarity x) (similarity y)
      then y :: insertDesc x l'
      else x :: l
  end.

Definition sortDesc (l : list SearchResult) : list SearchResult :=
  foldr insertDesc [] l.

(** [Map.prototype.set]: an existing key keeps its place. *)
Fixpoint mapSet (k : string) (v : SearchResult)
         (m : list (string * SearchResult)) : list (string * SearchResult) :=
  match m with
  | [] => [(k, v)]
  | (k', v') :: m' =>
      if String.eqb k' k then (k, v) :: m' else (k', v') :: mapSet k v m'
  end.

Definition mapGet (k : string) (m : list (string * SearchResult)) : option SearchResult :=
  snd <$> find (fun kv => String.eqb (fst kv) k) m.

(** The loop of "Dedupe by source". *)
Definition bestBySource (results : list SearchResult) : list (string * SearchResult) :=
  foldl (fun m r =>
           match mapGet (sr_source_id r) m with
           | Some existing =>
               if Qlt_le_dec (similarity existing) (similarity r)
               then mapSet (sr_source_id r) r m
               else m
           | None => mapSet (sr_source_id r) r m
           end) [] results.

(** [xs.slice(0, n)]: a negative [n] counts from the end. *)
Definition slice0 {A} (l : list A) (n : Z) : list A :=
  if (n <? 0)%Z then take (Z.to_nat (Z.of_nat (length l) + n)) l
  else take (Z.to_nat n) l.

Definition default_limit : Z := 10.

(** The value of the literal [0.7]: the double nearest to 7/10, which is
    what a similarity, a double itself, is compared with. *)
Definition default_minSimilarity : Q := 3152519739159347 # 4503599627370496.

Definition search (w : World) (query : string) (options : SearchOptions)
           (st : KbState) : list SearchResult :=
  let lim := default default_limit (limit options) in
  let minSim := default default_minSimilarity (minSimilarity options) in
  let dedupe := default true (dedupeBySource options) in
  if negb (available st) then []
  else
    match generateEmbedding w query with
    | None => []
    | Some queryEmbedding =>
        let rows := selectRows (so_groupFolder options) st in
        let results := sortDesc (scoreRows w queryEmbedding minSim rows) in
        let finalResults :=
          if dedupe then sortDesc (snd <$> bestBySource results)
          else results in
        slice0 finalResults lim
    end.

End Kb.

(** ** Formatting of search results ([formatSearchResults], config.ts 229-257) *)

Module Format.

Definition nl : string := String "010"%char EmptyString.
Definition dq : string := String "034"%char EmptyString.

(** [xs.join(sep)] *)
Definition join (sep : string) (xs : list string) : string := String.concat sep xs.

Definition sourceTypeName (t : Kb.SourceType) : string :=
  match t with
  | Kb.article => "article" | Kb.video => "video" | Kb.pdf => "pdf"
  | Kb.text => "text" | Kb.tweet => "tweet" | Kb.other => "other"
  end.

(** The loop of [formatSearchResults]: entries are appended until one
    would pass [maxChars]. *)
Fixpoint formatEntries (rs : list Kb.SearchResult) (maxChars currentChars : nat)
         (output : string) : string :=
  match rs with
  | [] => output
  | r :: rs' =>
      let source :=
        Js.or_else (Kb.source_title r) (Js.or_else (Kb.source_url r) "Unknown") in
      let snippet := Js.take 500 (Kb.sr_content r) in
      let entry := "[" +:+ sourceTypeName (Kb.sr_source_type r) +:+ "] " +:+ source
                   +:+ nl +:+ snippet +:+ "..." +:+ nl in
      if (maxChars <? currentChars + String.length entry)%nat
      then output +:+ nl +:+ "...(truncated)"
      else formatEntries rs' maxChars (currentChars + String.length entry)
                         (output +:+ entry)
  end.

Definition formatSearchResults (results : list Kb.SearchResult) (maxChars : nat) : string :=
  match results with
  | [] => ""
  | _ =>
      let output :=
        "Found " +:+ pretty (length results) +:+ " relevant source"
        +:+ (if (1 <? length results)%nat then "s" else "") +:+ ":" +:+ nl +:+ nl in
      formatEntries results maxChars (String.length output) output
  end.

End Format.

(** ** The router: trigger filter, agent runs and the message loop *)

Module Router.

Definition MAIN_GROUP_FOLDER : string := "main".

Record RegisteredGroup : Type := mkGroup {
  name : string;
  folder : string;
  trigger : string;
  added_at : string
}.

Record NewMessage : Type := mkMessage {
  msg_id : string;
  chat_jid : string;
  sender_name : string;
  content : string;
  timestamp : string
}.

Inductive Status : Type := ok | error.

(** What the container writes back:
    [{status, result, newSessionId?, error?}]. *)
Record ContainerOutput : Type := mkOutput {
  status : Status;
  result : option string;
  newSessionId : option string;
  output_error : option string
}.

Record ContainerInput : Type := mkInput {
  prompt : string;
  sessionId : option string;
  in_groupFolder : string;
  in_chatJid : string;
  isMain : bool
}.

(** A promise settles: it resolves with a value or rejects with an
    error message. *)
Inductive Outcome (A : Type) : Type :=
| Resolved (a : A)
| Rejected (err : string).
Arguments Resolved {A} a.
Arguments Rejected {A} err.

(** The module-level variables of [index.ts], the files [saveState] and
    [runAgent] write, the message table, the knowledge base, and two
    traces: the texts the socket delivered and the container runs. *)
Record State : Type := mkState {
  lastTimestamp : string;
  sessions : gmap string string;
  registeredGroups : list (string * RegisteredGroup);
  lastAgentTimestamp : gmap string string;
  sessions_file : gmap string string;
  router_state_file : string * gmap string string;
  db : list NewMessage;
  kb : Kb.KbState;
  outbox : list (string * string);
  runs : list ContainerInput
}.

Record World : Type := mkWorld {
  ASSISTANT_NAME : string;
  kbWorld : Kb.World;
  (** [runContainerAgent] of [container-runner.js] *)
  runContainerAgent : RegisteredGroup -> ContainerInput -> Outcome ContainerOutput;
  (** [sock.sendMessage]: does the transport accept the text? *)
  sockSend : string -> string -> bool;
  (** does reading the context window of this chat raise? *)
  readFails : string -> bool;
  (** does the query for new messages raise? *)
  pollFails : string -> bool
}.

(** [registeredGroups[jid]] *)
Definition lookupGroup (jid : string) (gs : list (string * RegisteredGroup))
  : option RegisteredGroup :=
  snd <$> find (fun kv => String.eqb (fst kv) jid) gs.

(** *** Queries on the message table *)

Fixpoint insertByTime (m : NewMessage) (l : list NewMessage) : list NewMessage :=
  match l with
  | [] => [m]
  | y :: l' =>
      if String.ltb (timestamp y) (timestamp m) then y :: insertByTime m l'
      else m :: l
  end.

Definition orderByTimestamp (l : list NewMessage) : list NewMessage :=
  foldr insertByTime [] l.

Definition inb (x : string) (l : list string) : bool :=
  existsb (String.eqb x) l.

(** Modelled from the spec: [getNewMessages] of [db.js] is missing.
    "returns messages strictly newer than since_ts, for any registered
    jid, excluding messages whose sender_name equals any bot prefix", in
    ascending time stamp. *)
Definition getNewMessages (jids : list string) (since : string)
           (botPrefixes : list string) (table : list NewMessage) : list NewMessage :=
  orderByTimestamp
    (List.filter (fun m => inb (chat_jid m) jids
                           && String.ltb since (timestamp m)
                           && negb (inb (sender_name m) botPrefixes)) table).

(** Modelled from the spec: [getMessagesSince] of [db.js] is missing.
    "load all messages from last_agent_ts[jid] (excluding assistant's
    own)" of one chat, in ascending time stamp. *)
Definition getMessagesSince (jid since botName : string)
           (table : list NewMessage) : list NewMessage :=
  orderByTimestamp
    (List.filter (fun m => String.eqb (chat_jid m) jid
                           && String.ltb since (timestamp m)
                           && negb (String.eqb (sender_name m) botName)) table).

(** *** [isSearchQuery] *)

Fixpoint ci_prefix (p s : string) : bool :=
  match p, s with
  | EmptyString, _ => true
  | String a p', String b s' => Trigger.ci_eqb a b && ci_prefix p' s'
  | String _ _, EmptyString => false
  end.

Definition interrogatives : list string :=
  ["what"; "how"; "why"; "when"; "where"; "who"; "which"; "can"; "could";
   "would"; "should"; "is"; "are"; "do"; "does"].

Definition isSearchQuery (c : string) : bool :=
  let t := Js.trim c in
  existsb (fun p => ci_prefix p t) interrogatives
  || match String.rev t with String "?"%char _ => true | _ => false end.

(** *** [sendMessage]: a failed send is logged and swallowed *)
Definition sendMessage (w : World) (jid text : string) (s : State) : State :=
  if sockSend w jid text then
    {| lastTimestamp := lastTimestamp s; sessions := sessions s;
       registeredGroups := registeredGroups s;
       lastAgentTimestamp := lastAgentTimestamp s;
       sessions_file := sessions_file s;
       router_state_file := router_state_file s; db := db s; kb := kb s;
       outbox := outbox s ++ [(jid, text)]; runs := runs s |}
  else s.

Definition recordRun (i : ContainerInput) (s : State) : State :=
  {| lastTimestamp := lastTimestamp s; sessions := sessions s;
     registeredGroups := registeredGroups s;
     lastAgentTimestamp := lastAgentTimestamp s;
     sessions_file := sessions_file s;
     router_state_file := router_state_file s; db := db s; kb := kb s;
     outbox := outbox s; runs := runs s ++ [i] |}.

(** [sessions[folder] = sid; saveJson('sessions.json', sessions)] *)
Definition storeSession (f sid : string) (s : State) : State :=
  {| lastTimestamp := lastTimestamp s; sessions := <[f := sid]> (sessions s);
     registeredGroups := registeredGroups s;
     lastAgentTimestamp := lastAgentTimestamp s;
     sessions_file := <[f := sid]> (sessions s);
     router_state_file := router_state_file s; db := db s; kb := kb s;
     outbox := outbox s; runs := runs s |}.

(** [lastAgentTimestamp[jid] = ts] *)
Definition setLastAgentTimestamp (jid ts : string) (s : State) : State :=
  {| lastTimestamp := lastTimestamp s; sessions := sessions s;
     registeredGroups := registeredGroups s;
     lastAgentTimestamp := <[jid := ts]> (lastAgentTimestamp s);
     sessions_file := sessions_file s;
     router_state_file := router_state_file s; db := db s; kb := kb s;
     outbox := outbox s; runs := runs s |}.

(** [lastTimestamp = ts; saveState()] *)
Definition advance (ts : string) (s : State) : State :=
  {| lastTimestamp := ts; sessions := sessions s;
     registeredGroups := registeredGroups s;
     lastAgentTimestamp := lastAgentTimestamp s;
     sessions_file := sessions s;
     router_state_file := (ts, lastAgentTimestamp s); db := db s; kb := kb s;
     outbox := outbox s; runs := runs s |}.

(** *** [runAgent] (index.ts 317-400)

    The two snapshot files written for the container are not part of the
    state kept here. *)
Definition kbContextFor (w : World) (group : RegisteredGroup)
           (lastMessageContent : option string) (s : State) : string :=
  match lastMessageContent with
  | Some c =>
      if Js.truthy c && isSearchQuery c then
        let results :=
          Kb.search (kbWorld w) c
            {| Kb.so_groupFolder := Some (folder group); Kb.limit := Some 3%Z;
               Kb.minSimilarity := None; Kb.dedupeBySource := None |} (kb s) in
        match results with
        | [] => ""
        | _ => Format.formatSearchResults results 2000
        end
      else ""
  | None => ""
  end.

(** The request written to the container. *)
Definition agentInput (w : World) (group : RegisteredGroup) (prompt0 chatJid : string)
           (lastMessageContent : option string) (s : State) : ContainerInput :=
  let kbContext := kbContextFor w group lastMessageContent s in
  let enhancedPrompt :=
    if Js.truthy kbContext
    then "<knowledge_base>" +:+ Format.nl +:+ kbContext +:+ Format.nl
         +:+ "</knowledge_base>" +:+ Format.nl +:+ Format.nl +:+ prompt0
    else prompt0 in
  {| prompt := enhancedPrompt; sessionId := sessions s !! folder group;
     in_groupFolder := folder group; in_chatJid := chatJid;
     isMain := String.eqb (folder group) MAIN_GROUP_FOLDER |}.

Definition runAgent (w : World) (group : RegisteredGroup) (prompt0 chatJid : string)
           (lastMessageContent : option string) (s : State) : option string * State :=
  let input := agentInput w group prompt0 chatJid lastMessageContent s in
  let s1 := recordRun input s in
  match runContainerAgent w group input with
  | Resolved output =>
      let s2 :=
        match newSessionId output with
        | Some sid => if Js.truthy sid then storeSession (folder group) sid s1 else s1
        | None => s1
        end in
      match status output with
      | error => (Some ("Error: " +:+ default "undefined" (output_error output)), s2)
      | ok => (result output, s2)
      end
  | Rejected errMsg => (Some ("Error: " +:+ errMsg), s1)
  end.

(** *** [processMessage] (index.ts 249-315) *)

Definition escapeXml (s : string) : string :=
  Js.replaceChar "034"%char "&quot;"
    (Js.replaceChar ">"%char "&gt;"
       (Js.replaceChar "<"%char "&lt;"
          (Js.replaceChar "&"%char "&amp;" s))).

Definition messageLine (m : NewMessage) : string :=
  "<message sender=" +:+ Format.dq +:+ escapeXml (sender_name m) +:+ Format.dq
  +:+ " time=" +:+ Format.dq +:+ timestamp m +:+ Format.dq +:+ ">"
  +:+ escapeXml (content m) +:+ "</message>".

Definition buildPrompt (missed : list NewMessage) : string :=
  "<messages>" +:+ Format.nl +:+ Format.join Format.nl (map messageLine missed)
  +:+ Format.nl +:+ "</messages>".

(** The guard at the head of [processMessage]: the main group answers
    every message, another group only its trigger. *)
Definition passesTrigger (group : RegisteredGroup) (rawContent : string) : bool :=
  let c := Js.trim rawContent in
  let isMainGroup := String.eqb (folder group) MAIN_GROUP_FOLDER in
  if negb isMainGroup then Trigger.triggerTest (trigger group) c else true.

(** The URLs found in the message are handed to [ingestUrl] without
    waiting for it: the promise is not awaited and its outcome reaches
    nothing the router keeps, so it has no place in this function; nor has
    [setTyping], which swallows its errors and changes nothing kept here. *)
Definition processMessage (w : World) (msg : NewMessage) (s : State)
  : Outcome unit * State :=
  match lookupGroup (chat_jid msg) (registeredGroups s) with
  | None => (Resolved (), s)
  | Some group =>
      let isMainGroup := String.eqb (folder group) MAIN_GROUP_FOLDER in
      if negb (passesTrigger group (content msg)) then (Resolved (), s)
      else
        let sinceTimestamp :=
          Js.or_else (lastAgentTimestamp s !! chat_jid msg) "" in
        let groupAssistantName :=
          Trigger.getAssistantNameFromTrigger (trigger group) in
        if readFails w (chat_jid msg) then (Rejected "store read failed", s)
        else
          let missedMessages :=
            getMessagesSince (chat_jid msg) sinceTimestamp groupAssistantName (db s) in
          let prompt := buildPrompt missedMessages in
          if negb (Js.truthy prompt) then (Resolved (), s)
          else
            let '(response, s1) :=
              runAgent w group prompt (chat_jid msg)
                       (content <$> last missedMessages) s in
            match response with
            | Some r =>
                if Js.truthy r then
                  let s2 := setLastAgentTimestamp (chat_jid msg) (timestamp msg) s1 in
                  let responsePrefix :=
                    if isMainGroup then ASSISTANT_NAME w else groupAssistantName in
                  (Resolved (), sendMessage w (chat_jid msg)
                                            (responsePrefix +:+ ": " +:+ r) s2)
                else (Resolved (), s1)
            | None => (Resolved (), s1)
            end
  end.

(** The context window [processMessage] loads for a message, and the
    request it has [runAgent] write to the container. *)
Definition contextWindow (group : RegisteredGroup) (msg : NewMessage) (s : State)
  : list NewMessage :=
  getMessagesSince (chat_jid msg)
                   (Js.or_else (lastAgentTimestamp s !! chat_jid msg) "")
                   (Trigger.getAssistantNameFromTrigger (trigger group)) (db s).

Definition messageInput (w : World) (group : RegisteredGroup) (msg : NewMessage)
           (s : State) : ContainerInput :=
  agentInput w group (buildPrompt (contextWindow group msg s)) (chat_jid msg)
             (content <$> last (contextWindow group msg s)) s.

(** The name a reply is prefixed with. *)
Definition responsePrefixOf (w : World) (group : RegisteredGroup) : string :=
  if String.eqb (folder group) MAIN_GROUP_FOLDER then ASSISTANT_NAME w
  else Trigger.getAssistantNameFromTrigger (trigger group).

(** *** The message loop (index.ts 1696-1726) *)

(** [for (const msg of messages) { try { ... } catch { break } }] *)
Fixpoint processBatch (w : World) (msgs : list NewMessage) (s : State) : State :=
  match msgs with
  | [] => s
  | msg :: rest =>
      match processMessage w msg s with
      | (Resolved _, s') => processBatch w rest (advance (timestamp msg) s')
      | (Rejected _, s') => s'
      end
  end.

Definition botPrefixes (s : State) : list string :=
  map (fun kv => Trigger.getAssistantNameFromTrigger (trigger (snd kv)))
      (registeredGroups s).

(** The batch one iteration of the loop works on. *)
Definition newMessages (s : State) : list NewMessage :=
  getNewMessages (map fst (registeredGroups s)) (lastTimestamp s)
                 (botPrefixes s) (db s).

(** One iteration of [while (true)]. *)
Definition pollOnce (w : World) (s : State) : State :=
  if pollFails w (lastTimestamp s) then s
  else processBatch w (newMessages s) s.

End Router.

(** ** The IPC broker and its handlers *)

Module Ipc.

Import Router.

(** *** Data *)

Record Task : Type := mkTask {
  task_id : string;
  task_group_folder : string;
  task_chat_jid : string;
  task_prompt : string;
  task_schedule_type : string;
  task_schedule_value : string;
  task_context_mode : string;
  next_run : option string;
  task_status : string;
  task_created_at : string
}.

Record SugarProject : Type := mkProject {
  project_name : string;
  project_path : string;
  project_repo : option string;
  project_default : bool
}.

(** The fields [processTaskIpc] and the watcher read from a payload. *)
Record Payload : Type := mkPayload {
  type : option string;
  taskId : option string;
  p_prompt : option string;
  schedule_type : option string;
  schedule_value : option string;
  context_mode : option string;
  groupFolder : option string;
  chatJid : option string;
  text : option string;
  jid : option string;
  p_name : option string;
  p_folder : option string;
  p_trigger : option string;
  task : option string;
  taskType : option string;
  priority : option Z;
  project : option string;
  projectName : option string;
  p_status : option string;
  p_limit : option Z;
  dryRun : bool;
  continuous : bool;
  projectPath : option string;
  repo : option string;
  state : option string;
  issueNumber : option Z;
  branch : option string;
  title : option string;
  body : option string;
  p_default : bool;
  url : option string;
  query : option string;
  p_content : option string;
  tags : option (list string);
  sourceId : option string
}.

Definition emptyPayload : Payload :=
  {| type := None; taskId := None; p_prompt := None; schedule_type := None;
     schedule_value := None; context_mode := None; groupFolder := None;
     chatJid := None; text := None; jid := None; p_name := None;
     p_folder := None; p_trigger := None; task := None; taskType := None;
     priority := None; project := None; projectName := None;
     p_status := None; p_limit := None; dryRun := false; continuous := false;
     projectPath := None; repo := None; state := None; issueNumber := None;
     branch := None; title := None; body := None; p_default := false;
     url := None; query := None; p_content := None; tags := None;
     sourceId := None |}.

(** What [JSON.parse(fs.readFileSync(...))] makes of a file: it throws,
    or yields [null] (reading a field of it throws), or yields a value
    whose fields are read (a value that is not an object has none). *)
Inductive Parsed : Type :=
| ParseError
| JsonNull
| JsonObject (p : Payload).

Record IpcFile : Type := mkFile {
  file_name : string;
  parsed : Parsed
}.

(** [ipc/<group>/messages] and [ipc/<group>/tasks] *)
Record GroupDir : Type := mkGroupDir {
  messagesDir : list IpcFile;
  tasksDir : list IpcFile
}.

(** Process spawning and logging, in the order they happen.
    [execSync] and [exec] hand the command string to a shell;
    [execFile] runs a file with an argument vector and no shell. *)
Inductive Event : Type :=
| ExecSync (command : string) (timeout : Z)
| Exec (command : string) (timeout : option Z)
| ExecFile (file : string) (args : list string) (timeout : option Z)
| Kill (pid : Z)
| Warn (msg : string)
| SyncGroupMetadata
| GroupsSnapshot (group : string).

Record State : Type := mkState {
  host : Router.State;
  tasks : list Task;
  sugarProjects : list (string * SugarProject);
  runningSugarProcesses : list (string * Z);
  ipcDirs : list (string * GroupDir);
  errorsDir : list IpcFile;
  trace : list Event
}.

Record Issue : Type := mkIssue {
  issue_number : Z;
  issue_title : string;
  issue_is_bug : bool;
  issue_is_urgent : bool
}.

Record World : Type := mkWorld {
  router : Router.World;
  SUGAR_PROJECTS_FILE : string;
  (** [execSync(cmd, {timeout})]: the output, or nothing when the command
      fails or runs out of time *)
  execSync : string -> Z -> option string;
  (** what a command run by [execSync] leaves of
      [data/sugar-projects.json], the file [getSugarProjects] reads again
      at every request *)
  shellWrites : string -> list (string * SugarProject) -> list (string * SugarProject);
  (** the pid [exec] reports *)
  execPid : string -> Z;
  (** [process.kill(pid, 'SIGTERM')] succeeds? *)
  killOk : Z -> bool;
  existsSync : string -> bool;
  (** [/tmp/sugar-cmd-${Date.now()}.log] *)
  tmpFile : string;
  (** [task-${Date.now()}-${random}] *)
  newTaskId : string;
  nowIso : string;
  (** [Date.now()], in milliseconds *)
  now : Z;
  (** [CronExpressionParser.parse(v, {tz}).next().toISOString()] *)
  cronNext : string -> option string;
  (** [parseInt(v, 10)], nothing for NaN; a value beyond the finite
      doubles is any integer beyond [maxTime] *)
  parseInt : string -> option Z;
  (** [new Date(Date.now() + ms).toISOString()] for a time within the
      range of [Date] *)
  isoAfter : Z -> string;
  (** [new Date(v).toISOString()], nothing for an invalid date *)
  parseDate : string -> option string;
  (** [JSON.parse(stdout)] and the line printed for each element,
      for the three listings *)
  sugarTaskLines : string -> option (list string);
  issueLines : string -> option (list string);
  prLines : string -> option (list string);
  (** [JSON.parse(stdout)] of [gh issue view] *)
  parseIssue : string -> option Issue
}.

(** *** State passing with exceptions *)

Definition M (A : Type) : Type := State -> Outcome A * State.

Definition ret {A} (a : A) : M A := fun s => (Resolved a, s).

Definition bind {A B} (m : M A) (k : A -> M B) : M B :=
  fun s =>
    match m s with
    | (Resolved a, s') => k a s'
    | (Rejected e, s') => (Rejected e, s')
    end.

Definition throw {A} (e : string) : M A := fun s => (Rejected e, s).

Definition tryCatch {A} (m : M A) (handler : string -> M A) : M A :=
  fun s =>
    match m s with
    | (Resolved a, s') => (Resolved a, s')
    | (Rejected e, s') => handler e s'
    end.

Definition gets {A} (f : State -> A) : M A := fun s => (Resolved (f s), s).

Definition modify (f : State -> State) : M unit := fun s => (Resolved (), f s).

Global Instance M_ret : MRet M := @ret.
Global Instance M_bind : MBind M := fun A B k m => bind m k.

Definition skip : M unit := ret ().

Definition when (b : bool) (m : M unit) : M unit := if b then m else skip.

(** [for (const x of xs) { body }] *)
Fixpoint forEach {A} (xs : list A) (body : A -> M unit) : M unit :=
  match xs with
  | [] => skip
  | x :: xs' => body x;; forEach xs' body
  end.

(** *** State updates *)

Definition set_host (f : Router.State -> Router.State) (s : State) : State :=
  {| host := f (host s); tasks := tasks s; sugarProjects := sugarProjects s;
     runningSugarProcesses := runningSugarProcesses s; ipcDirs := ipcDirs s;
     errorsDir := errorsDir s; trace := trace s |}.

Definition set_tasks (f : list Task -> list Task) (s : State) : State :=
  {| host := host s; tasks := f (tasks s); sugarProjects := sugarProjects s;
     runningSugarProcesses := runningSugarProcesses s; ipcDirs := ipcDirs s;
     errorsDir := errorsDir s; trace := trace s |}.

Definition set_sugarProjects
           (f : list (string * SugarProject) -> list (string * SugarProject))
           (s : State) : State :=
  {| host := host s; tasks := tasks s; sugarProjects := f (sugarProjects s);
     runningSugarProcesses := runningSugarProcesses s; ipcDirs := ipcDirs s;
     errorsDir := errorsDir s; trace := trace s |}.

Definition set_running (f : list (string * Z) -> list (string * Z))
           (s : State) : State :=
  {| host := host s; tasks := tasks s; sugarProjects := sugarProjects s;
     runningSugarProcesses := f (runningSugarProcesses s);
     ipcDirs := ipcDirs s; errorsDir := errorsDir s; trace := trace s |}.

Definition set_ipcDirs (f : list (string * GroupDir) -> list (string * GroupDir))
           (s : State) : State :=
  {| host := host s; tasks := tasks s; sugarProjects := sugarProjects s;
     runningSugarProcesses := runningSugarProcesses s;
     ipcDirs := f (ipcDirs s); errorsDir := errorsDir s; trace := trace s |}.

Definition set_errorsDir (f : list IpcFile -> list IpcFile) (s : State) : State :=
  {| host := host s; tasks := tasks s; sugarProjects := sugarProjects s;
     runningSugarProcesses := runningSugarProcesses s; ipcDirs := ipcDirs s;
     errorsDir := f (errorsDir s); trace := trace s |}.

Definition emit (e : Event) : M unit :=
  modify (fun s =>
    {| host := host s; tasks := tasks s; sugarProjects := sugarProjects s;
       runningSugarProcesses := runningSugarProcesses s; ipcDirs := ipcDirs s;
       errorsDir := errorsDir s; trace := trace s ++ [e] |}).

Definition set_kb (f : Kb.KbState -> Kb.KbState) (h : Router.State) : Router.State :=
  {| lastTimestamp := lastTimestamp h; sessions := sessions h;
     registeredGroups := registeredGroups h;
     lastAgentTimestamp := lastAgentTimestamp h;
     sessions_file := sessions_file h;
     router_state_file := router_state_file h; db := db h; kb := f (kb h);
     outbox := outbox h; runs := runs h |}.

Definition set_registeredGroups
           (f : list (string * RegisteredGroup) -> list (string * RegisteredGroup))
           (h : Router.State) : Router.State :=
  {| lastTimestamp := lastTimestamp h; sessions := sessions h;
     registeredGroups := f (registeredGroups h);
     lastAgentTimestamp := lastAgentTimestamp h;
     sessions_file := sessions_file h;
     router_state_file := router_state_file h; db := db h; kb := kb h;
     outbox := outbox h; runs := runs h |}.

(** [obj[k] = v] on an object kept as a list of entries: an existing key
    keeps its place, a new one goes last. *)
Fixpoint assocSet {V} (k : string) (v : V) (m : list (string * V)) : list (string * V) :=
  match m with
  | [] => [(k, v)]
  | (k', v') :: m' =>
      if String.eqb k' k then (k, v) :: m' else (k', v') :: assocSet k v m'
  end.

Definition assocGet {V} (k : string) (m : list (string * V)) : option V :=
  snd <$> find (fun kv => String.eqb (fst kv) k) m.

(** [delete obj[k]] *)
Definition assocDel {V} (k : string) (m : list (string * V)) : list (string * V) :=
  List.filter (fun kv => negb (String.eqb (fst kv) k)) m.

(** [sendMessage] of [index.ts]: never throws. *)
Definition sendMessage (w : World) (to txt : string) : M unit :=
  modify (set_host (Router.sendMessage (router w) to txt)).

(** [if (data.chatJid) await sendMessage(data.chatJid, text)] *)
Definition reply (w : World) (data : Payload) (txt : string) : M unit :=
  match chatJid data with
  | Some c => when (Js.truthy c) (sendMessage w c txt)
  | None => skip
  end.

Definition assistant (w : World) : string := ASSISTANT_NAME (router w).

(** A value that passes [if (v)]. *)
Definition tv (o : option string) : option string :=
  match o with Some s => if Js.truthy s then Some s else None | None => None end.

Definition tvZ (o : option Z) : option Z :=
  match o with Some z => if (z =? 0)%Z then None else Some z | None => None end.

(** [${v}] for an optional string. *)
Definition show (o : option string) : string := default "undefined" o.

Definition warn (msg : string) : M unit := emit (Warn msg).

(** *** External commands *)

Definition SUGAR_PATH : string := "/Users/neetidhingra/Github/bhavidhingraa/sugar".

(** [sugarCmd] *)
Definition sugarCmd (args : string) : string :=
  "PYTHONPATH=" +:+ SUGAR_PATH +:+ ":$PYTHONPATH python -m sugar.main " +:+ args.

(** [execSyncCmd] (index.ts 1535-1565): the command string, with a
    redirection appended, goes to [execSync], that is to a shell, which
    does with the project registry what the command says; a failure is
    turned into an empty output. *)
Definition execSyncCmd (w : World) (command : string) (timeout : option Z) : M string :=
  let cmdWithStderr := command +:+ " 2>" +:+ tmpFile w in
  let t := default 30000%Z (tvZ timeout) in
  emit (ExecSync cmdWithStderr t);;
  modify (set_sugarProjects (shellWrites w cmdWithStderr));;
  mret (match execSync w cmdWithStderr t with
        | Some stdout => Js.trim stdout
        | None => ""
        end).

(** *** Sugar projects ([config.ts]) *)

(** The names of the members every object inherits from
    [Object.prototype]. *)
Definition protoKeys : list string :=
  ["constructor"; "__defineGetter__"; "__defineSetter__"; "hasOwnProperty";
   "__lookupGetter__"; "__lookupSetter__"; "isPrototypeOf";
   "propertyIsEnumerable"; "toString"; "valueOf"; "__proto__"; "toLocaleString"].

(** What [projects[name]] finds: a project of the registry, or the
    member of [Object.prototype] of that name, which is no project: it
    is truthy and has no [path]. *)
Inductive Member : Type :=
| Project (p : SugarProject)
| Inherited (key : string).

(** [project.name] of an inherited member: the name of the function,
    which for [constructor] is [Object]; [Object.prototype] itself, found
    under [__proto__], has none. *)
Definition memberName (key : string) : option string :=
  if String.eqb key "constructor" then Some "Object"
  else if String.eqb key "__proto__" then None
  else Some key.

(** [getSugarProject(name)]: [projects[name]], the name being the one a
    payload gives. *)
Definition getSugarProject (n : string) (s : State) : option Member :=
  match assocGet n (sugarProjects s) with
  | Some p => Some (Project p)
  | None => if inb n protoKeys then Some (Inherited n) else None
  end.

Definition getDefaultSugarProject (s : State) : option SugarProject :=
  match find (fun p => project_default p) (map snd (sugarProjects s)) with
  | Some p => Some p
  | None => head (map snd (sugarProjects s))
  end.

Definition resolveProject (projectName : option string) : M (option Member) :=
  match tv projectName with
  | Some n => gets (getSugarProject n)
  | None => gets (fun s => Project <$> getDefaultSugarProject s)
  end.

(** [path.join(project.path, '.sugar')] on a member that has no [path]
    throws a [TypeError]. *)
Definition noPath {A} : M A :=
  throw "The path argument must be of type string. Received undefined".

Definition notFoundMsg (w : World) : string :=
  "Sugar project not found. Configure projects in " +:+ SUGAR_PROJECTS_FILE w.

Definition sugarDir (p : SugarProject) : string := project_path p +:+ "/.sugar".

(** The head shared by [sugar_add], [sugar_list], [sugar_status] and
    [sugar_run]: the project is looked up and must be initialised. *)
Definition withInitialisedProject (w : World) (data : Payload)
           (k : SugarProject -> M unit) : M unit :=
  p ← resolveProject (match tv (project data) with
                      | Some n => Some n
                      | None => projectName data
                      end);
  match p with
  | None =>
      warn (notFoundMsg w);;
      reply w data (assistant w +:+ ": " +:+ notFoundMsg w)
  | Some (Inherited _) => noPath
  | Some (Project pr) =>
      if negb (existsSync w (sugarDir pr)) then
        let errorMsg := "Sugar not initialized in " +:+ project_name pr
                        +:+ ". Run: cd " +:+ project_path pr +:+ " && sugar init" in
        warn errorMsg;;
        reply w data (assistant w +:+ ": " +:+ errorMsg)
      else k pr
  end.

Definition validTypes : list string :=
  ["bug_fix"; "feature"; "test"; "refactor"; "documentation"].

Definition typeMapping : list (string * string) :=
  [("chore", "feature"); ("bug", "bug_fix"); ("fix", "bug_fix");
   ("enhancement", "feature"); ("docs", "documentation"); ("doc", "documentation")].

(** The "escape for shell" of [sugar_add]: double quote, newline, dollar
    and backquote each get a backslash (a newline becomes backslash-n). *)
Definition safeTaskOf (t : string) : string :=
  Js.replaceChar "`"%char "\`"
    (Js.replaceChar "$"%char "\$"
       (Js.replaceChar "010"%char "\n"
          (Js.replaceChar "034"%char ("\" +:+ Format.dq) t))).

Definition sugarAddCommand (pr : SugarProject) (data : Payload) (t : string) : string :=
  let safeTask := safeTaskOf t in
  let safeType :=
    match tv (taskType data) with
    | Some ty => Some (Js.or_else (assocGet ty typeMapping) ty)
    | None => None
    end in
  let cmd0 := "cd " +:+ Format.dq +:+ project_path pr +:+ Format.dq +:+ " && "
              +:+ sugarCmd ("add " +:+ Format.dq +:+ safeTask +:+ Format.dq) in
  let cmd1 :=
    match tv safeType with
    | Some ty => if inb ty validTypes then cmd0 +:+ " --type " +:+ ty else cmd0
    | None => cmd0
    end in
  match tvZ (priority data) with
  | Some p => cmd1 +:+ " --priority " +:+ pretty p
  | None => cmd1
  end.

Definition sugar_add (w : World) (data : Payload) : M unit :=
  match tv (task data) with
  | None => warn "Invalid sugar_add request - missing task"
  | Some t =>
      withInitialisedProject w data (fun pr =>
        stdout ← execSyncCmd w (sugarAddCommand pr data t) (Some 30000%Z);
        let response :=
          if Js.truthy (Js.trim stdout) then Js.trim stdout
          else "Task added to " +:+ project_name pr +:+ ": " +:+ Format.dq
               +:+ Js.take 50 t +:+ "..." +:+ Format.dq in
        reply w data (assistant w +:+ ": " +:+ response))
  end.

Definition listing (w : World) (data : Payload) (what : string)
           (lines : Outcome (list string)) (none : string)
           (some : nat -> string) : M unit :=
  match lines with
  | Rejected e => reply w data (assistant w +:+ ": Failed to " +:+ what +:+ " - " +:+ e)
  | Resolved [] => reply w data (assistant w +:+ ": " +:+ none)
  | Resolved ls =>
      reply w data (assistant w +:+ ": " +:+ some (length ls) +:+ Format.nl
                    +:+ Format.join Format.nl ls)
  end.

Definition parsedLines (f : string -> option (list string)) (stdout : string)
  : Outcome (list string) :=
  match f stdout with
  | Some ls => Resolved ls
  | None => Rejected "Unexpected end of JSON input"
  end.

Definition sugar_list (w : World) (data : Payload) : M unit :=
  withInitialisedProject w data (fun pr =>
    let st := Js.or_else (p_status data) "pending" in
    let cmd0 := "cd " +:+ Format.dq +:+ project_path pr +:+ Format.dq +:+ " && "
                +:+ sugarCmd ("list --status " +:+ st +:+ " --json") in
    let cmd := match tvZ (p_limit data) with
               | Some l => cmd0 +:+ " --limit " +:+ pretty l
               | None => cmd0
               end in
    stdout ← execSyncCmd w cmd (Some 30000%Z);
    listing w data "list tasks" (parsedLines (sugarTaskLines w) stdout)
            ("No " +:+ st +:+ " tasks found in " +:+ project_name pr +:+ ".")
            (fun n => project_name pr +:+ " tasks (" +:+ pretty n +:+ "):")).

Definition sugar_status (w : World) (data : Payload) : M unit :=
  withInitialisedProject w data (fun pr =>
    stdout ← execSyncCmd w ("cd " +:+ Format.dq +:+ project_path pr +:+ Format.dq
                            +:+ " && " +:+ sugarCmd "status") (Some 30000%Z);
    reply w data (assistant w +:+ " (" +:+ project_name pr +:+ "):" +:+ Format.nl
                  +:+ stdout)).

(** [sugar_run] starts the command with [exec]: no time limit.  The
    callback that clears the pid when the process exits runs later and is
    not part of this step. *)
Definition sugar_run (w : World) (data : Payload) : M unit :=
  withInitialisedProject w data (fun pr =>
    running ← gets (fun s => assocGet (project_name pr) (runningSugarProcesses s));
    match tvZ running with
    | Some _ =>
        reply w data (assistant w +:+ ": Sugar is already running for "
                      +:+ project_name pr +:+ ". Use sugar_stop() first.")
    | None =>
        let dry := if dryRun data then "--dry-run " else "" in
        let cont := if continuous data then "" else "--once " in
        let cmd := "cd " +:+ Format.dq +:+ project_path pr +:+ Format.dq
                   +:+ " && PYTHONPATH=" +:+ SUGAR_PATH
                   +:+ ":$PYTHONPATH python -m sugar.main run " +:+ dry +:+ cont in
        emit (Exec cmd None);;
        when (continuous data)
             (modify (set_running (assocSet (project_name pr) (execPid w cmd))));;
        reply w data
          (assistant w +:+ ": Sugar started for " +:+ project_name pr +:+ " ("
           +:+ (if continuous data then "continuous mode" else "once") +:+ ")"
           +:+ (if dryRun data then " (dry-run)" else "") +:+ "."
           +:+ (if continuous data then " Use sugar_stop() to stop it." else ""))
    end).

(** The three ends of [sugar_stop], for the name [n] that
    [`${project.name}`] gives. *)
Definition noneRunning (w : World) (data : Payload) (n : string) : M unit :=
  reply w data (assistant w +:+ ": No running Sugar process found for " +:+ n +:+ ".").

Definition notRunning (w : World) (data : Payload) (n : string) : M unit :=
  modify (set_running (assocDel n));;
  reply w data (assistant w +:+ ": Sugar process for " +:+ n
                +:+ " was not running (may have already exited).").

Definition stopProcess (w : World) (data : Payload) (n : string) (pid : Z) : M unit :=
  emit (Kill pid);;
  if killOk w pid then
    modify (set_running (assocDel n));;
    reply w data (assistant w +:+ ": Sugar stopped for " +:+ n +:+ ".")
  else notRunning w data n.

(** [sugar_stop].  For a member inherited under the name the payload
    gave, [runningSugarProcesses[project.name]] is looked up under the
    member's own name: an entry of the record, or again an inherited
    function, which [process.kill] refuses with a [TypeError] that the
    handler's [catch] takes for a process that has exited. *)
Definition sugar_stop (w : World) (data : Payload) : M unit :=
  p ← resolveProject (project data);
  match p with
  | None =>
      warn (notFoundMsg w);;
      reply w data (assistant w +:+ ": " +:+ notFoundMsg w)
  | Some (Inherited k) =>
      let n := show (memberName k) in
      running ← gets (fun s => assocGet n (runningSugarProcesses s));
      match running with
      | Some pid =>
          if (pid =? 0)%Z then noneRunning w data n else stopProcess w data n pid
      | None =>
          if inb n protoKeys then notRunning w data n else noneRunning w data n
      end
  | Some (Project pr) =>
      running ← gets (fun s => assocGet (project_name pr) (runningSugarProcesses s));
      match tvZ running with
      | None => noneRunning w data (project_name pr)
      | Some pid => stopProcess w data (project_name pr) pid
      end
  end.

Definition projectLine (p : SugarProject) : string :=
  "- " +:+ project_name p +:+ (if project_default p then " (default)" else "")
  +:+ ": " +:+ project_path p
  +:+ match tv (project_repo p) with
      | Some r => " [" +:+ r +:+ "]"
      | None => ""
      end.

Definition sugar_list_projects (w : World) (data : Payload) : M unit :=
  projects ← gets sugarProjects;
  match projects with
  | [] => reply w data (assistant w +:+ ": No Sugar projects configured. Add projects to "
                        +:+ SUGAR_PROJECTS_FILE w)
  | _ => reply w data (assistant w +:+ ": Configured projects:" +:+ Format.nl
                       +:+ Format.join Format.nl (map (fun kv => projectLine (snd kv)) projects))
  end.

Definition sugar_add_project (w : World) (data : Payload) (sourceGroup : string)
           (isMain : bool) : M unit :=
  if negb isMain then warn "Unauthorized sugar_add_project attempt blocked"
  else
    match tv (p_name data), tv (projectPath data) with
    | Some n, Some pth =>
        projects ← gets sugarProjects;
        modify (set_sugarProjects
                  (assocSet n {| project_name := n; project_path := pth;
                                 project_repo := repo data;
                                 project_default :=
                                   p_default data
                                   || bool_decide (projects = []) |}));;
        reply w data (assistant w +:+ ": Added project " +:+ Format.dq +:+ n
                      +:+ Format.dq +:+ " at " +:+ pth)
    | _, _ => warn "Invalid sugar_add_project request - missing name or path"
    end.

Definition sugar_init (w : World) (data : Payload) : M unit :=
  p ← resolveProject (project data);
  match p with
  | None =>
      warn (notFoundMsg w);;
      reply w data (assistant w +:+ ": " +:+ notFoundMsg w)
  | Some (Inherited _) => noPath
  | Some (Project pr) =>
      if existsSync w (sugarDir pr) then
        reply w data (assistant w +:+ ": Sugar already initialized in " +:+ project_name pr)
      else
        execSyncCmd w ("cd " +:+ Format.dq +:+ project_path pr +:+ Format.dq
                       +:+ " && " +:+ sugarCmd "init") (Some 30000%Z);;
        reply w data (assistant w +:+ ": Sugar initialized in " +:+ project_name pr +:+ "!")
  end.

(** *** GitHub handlers *)

Definition github_list_issues (w : World) (data : Payload) : M unit :=
  match tv (repo data) with
  | None => warn "Invalid github_list_issues request - missing repo"
  | Some r =>
      let cmd0 := "gh issue list --repo " +:+ r +:+ " --json number,title,state,labels" in
      let cmd1 := match tv (state data) with
                  | Some st => cmd0 +:+ " --state " +:+ st
                  | None => cmd0
                  end in
      let cmd := match tvZ (p_limit data) with
                 | Some l => cmd1 +:+ " -L " +:+ pretty l
                 | None => cmd1
                 end in
      stdout ← execSyncCmd w cmd (Some 30000%Z);
      listing w data "list issues" (parsedLines (issueLines w) stdout)
              ("No issues found in " +:+ r +:+ ".")
              (fun _ => "Issues in " +:+ r +:+ ":")
  end.

Definition github_create_task_from_issue (w : World) (data : Payload) : M unit :=
  match tv (repo data), tvZ (issueNumber data) with
  | Some r, Some n =>
      let issueCmd := "gh issue view " +:+ pretty n +:+ " --repo " +:+ r
                      +:+ " --json title,body,labels,number" in
      stdout ← execSyncCmd w issueCmd (Some 30000%Z);
      match parseIssue w stdout with
      | None =>
          reply w data (assistant w
                        +:+ ": Failed to create task - Unexpected end of JSON input")
      | Some issue =>
          let taskTitle :=
            "GitHub #" +:+ pretty (issue_number issue) +:+ ": "
            +:+ Js.replaceChar "010"%char "\n"
                  (Js.replaceChar "034"%char ("\" +:+ Format.dq) (issue_title issue)) in
          let taskType := if issue_is_bug issue then "bug_fix" else "feature" in
          let priorityFlag := if issue_is_urgent issue then " --priority 1" else "" in
          execSyncCmd w (sugarCmd ("add " +:+ Format.dq +:+ taskTitle +:+ Format.dq
                                   +:+ " --type " +:+ taskType +:+ priorityFlag))
                      (Some 30000%Z);;
          reply w data (assistant w +:+ ": Created task from issue #" +:+ pretty n
                        +:+ ": " +:+ Format.dq +:+ issue_title issue +:+ Format.dq)
      end
  | _, _ => warn "Invalid github_create_task_from_issue request - missing repo or issueNumber"
  end.

Definition createPrCommand (r b : string) (data : Payload) : string :=
  let cmd0 := "gh pr create --repo " +:+ r +:+ " --base main --head " +:+ b in
  let cmd1 :=
    match tv (title data) with
    | Some t => cmd0 +:+ " --title " +:+ Format.dq
                +:+ Js.replaceChar "034"%char ("\" +:+ Format.dq) t +:+ Format.dq
    | None => cmd0
    end in
  match tv (body data) with
  | Some bd => cmd1 +:+ " --body " +:+ Format.dq
               +:+ Js.replaceChar "034"%char ("\" +:+ Format.dq) bd +:+ Format.dq
  | None => cmd1 +:+ " --fill"
  end.

Definition github_create_pr (w : World) (data : Payload) : M unit :=
  match tv (repo data), tv (branch data) with
  | Some r, Some b =>
      stdout ← execSyncCmd w (createPrCommand r b data) (Some 30000%Z);
      reply w data (assistant w +:+ ": PR created:" +:+ Format.nl +:+ stdout)
  | _, _ => warn "Invalid github_create_pr request - missing repo or branch"
  end.

Definition github_pr_status (w : World) (data : Payload) : M unit :=
  match tv (repo data) with
  | None => warn "Invalid github_pr_status request - missing repo"
  | Some r =>
      let cmd := "gh pr list --repo " +:+ r
                 +:+ " --json number,title,state,headRefName,url --limit 10" in
      stdout ← execSyncCmd w cmd (Some 30000%Z);
      listing w data "get PR status" (parsedLines (prLines w) stdout)
              ("No PRs found in " +:+ r +:+ ".")
              (fun _ => "PRs in " +:+ r +:+ ":")
  end.

(** *** Knowledge-base handlers *)

(** [data.groupFolder ? data.groupFolder : sourceGroup] *)
Definition targetGroupOf (data : Payload) (sourceGroup : string) : string :=
  Js.or_else (groupFolder data) sourceGroup.

Definition kbState : M Kb.KbState := gets (fun s => kb (host s)).

(** Running a step of the knowledge base on the host's copy of it. *)
Definition onKb {A} (f : Kb.KbState -> A * Kb.KbState) : M A :=
  fun s =>
    let '(a, k) := f (kb (host s)) in
    (Resolved a, set_host (set_kb (fun _ => k)) s).

Definition sourceLine (s : Kb.KBSource) : string :=
  "- [" +:+ Js.take 8 (Kb.id s) +:+ "] " +:+ Js.or_else (Kb.title s) "Untitled"
  +:+ " (" +:+ Format.sourceTypeName (Kb.source_type s) +:+ ")"
  +:+ match tv (Kb.url s) with
      | Some u => " - " +:+ u
      | None => ""
      end.

Definition kb_list (w : World) (data : Payload) (sourceGroup : string)
           (isMain : bool) : M unit :=
  let targetGroup := targetGroupOf data sourceGroup in
  if negb isMain && negb (String.eqb targetGroup sourceGroup) then
    warn "Unauthorized kb_list attempt blocked"
  else
    k ← kbState;
    match Kb.listKBSources targetGroup 100 k with
    | [] => reply w data (assistant w +:+ ": Knowledge base is empty.")
    | srcs =>
        reply w data (assistant w +:+ ": KB entries (" +:+ pretty (length srcs) +:+ "):"
                      +:+ Format.nl +:+ Format.join Format.nl (map sourceLine srcs))
    end.

Definition kb_search (w : World) (data : Payload) (sourceGroup : string)
           (isMain : bool) : M unit :=
  match tv (query data) with
  | None => warn "Invalid kb_search request - missing query"
  | Some q =>
      let targetGroup := targetGroupOf data sourceGroup in
      if negb isMain && negb (String.eqb targetGroup sourceGroup) then
        warn "Unauthorized kb_search attempt blocked"
      else
        k ← kbState;
        let results :=
          Kb.search (kbWorld (router w)) q
            {| Kb.so_groupFolder := Some targetGroup;
               Kb.limit := Some (default 5%Z (tvZ (p_limit data)));
               Kb.minSimilarity := None; Kb.dedupeBySource := None |} k in
        match results with
        | [] => reply w data (assistant w +:+ ": No results found for " +:+ Format.dq
                              +:+ Js.take 50 q +:+ Format.dq)
        | _ => reply w data (assistant w +:+ ": Found " +:+ pretty (length results)
                             +:+ " result(s):" +:+ Format.nl
                             +:+ Format.formatSearchResults results 2000)
        end
  end.

Definition ingestOptions (g : string) (data : Payload) (ty : option Kb.SourceType)
  : Kb.IngestOptions :=
  {| Kb.groupFolder := g; Kb.opt_url := url data; Kb.opt_title := title data;
     Kb.sourceType := ty; Kb.opt_tags := tags data |}.

(** [execFile], as the log records it. *)
Definition spawned (sp : Kb.Spawn) : Event :=
  ExecFile (Kb.sp_file sp) (Kb.sp_args sp) (Some (Kb.sp_timeout sp)).

(** [updateUrl] on the host's knowledge base; the programs its extraction
    runs go to the log. *)
Definition updateKbUrl (w : World) (u : string) (o : Kb.IngestOptions)
  : M Kb.IngestResult :=
  k ← kbState;
  forEach (Kb.ingestUrlSpawns (kbWorld (router w)) u o true k)
          (fun sp => emit (spawned sp));;
  onKb (Kb.updateUrl (kbWorld (router w)) u o).

Definition updateReply (w : World) (data : Payload) (r : Kb.IngestResult) : M unit :=
  if Kb.success r then
    reply w data (assistant w +:+ ": KB entry updated"
                  +:+ (if default false (Kb.updated r) then " (re-indexed)" else "")
                  +:+ ": " +:+ show (Js.take 8 <$> Kb.res_source_id r))
  else
    reply w data (assistant w +:+ ": Update failed - " +:+ show (Kb.error r)).

(** [kb_update] (index.ts 1370-1448).  Where the source finds no entry
    for a source id it throws inside its own [try], and the [catch] two
    lines below answers with the message. *)
Definition kb_update (w : World) (data : Payload) (sourceGroup : string)
           (isMain : bool) : M unit :=
  let targetGroup := targetGroupOf data sourceGroup in
  if negb isMain && negb (String.eqb targetGroup sourceGroup) then
    warn "Unauthorized kb_update attempt blocked"
  else
    match tv (url data), tv (p_content data), tv (sourceId data) with
    | None, None, None =>
        warn "Invalid kb_update request - missing url, source_id, or content";;
        reply w data (assistant w
          +:+ ": To update a KB entry, provide either a URL, source_id, or content.")
    | Some u, _, _ =>
        r ← updateKbUrl w u (ingestOptions targetGroup data None);
        updateReply w data r
    | None, Some c, _ =>
        r ← onKb (Kb.updateContent (kbWorld (router w)) c
                                   (ingestOptions targetGroup data None));
        updateReply w data r
    | None, None, Some sid =>
        k ← kbState;
        match Kb.getSourceById sid targetGroup k with
        | None =>
            reply w data (assistant w +:+ ": Update failed - Source not found: " +:+ sid)
        | Some src =>
            match tv (Kb.url src) with
            | Some u =>
                r ← updateKbUrl w u (ingestOptions targetGroup data None);
                updateReply w data r
            | None =>
                if Js.otruthy (title data) || bool_decide (is_Some (tags data)) then
                  updateReply w data
                    {| Kb.success := true; Kb.res_source_id := Some (Kb.id src);
                       Kb.chunks_count := None; Kb.error := None;
                       Kb.existingSourceId := None; Kb.updated := Some false |}
                else
                  updateReply w data
                    (Kb.failure "Text-only sources need title or tags to update" None)
            end
        end
    end.

Definition kb_add (w : World) (data : Payload) (sourceGroup : string) : M unit :=
  match tv (p_content data) with
  | None => warn "Invalid kb_add request - missing content"
  | Some c =>
      r ← onKb (Kb.ingestContent (kbWorld (router w)) c
                  {| Kb.groupFolder := sourceGroup; Kb.opt_url := None;
                     Kb.opt_title := title data; Kb.sourceType := Some Kb.text;
                     Kb.opt_tags := tags data |});
      if Kb.success r then
        reply w data (assistant w +:+ ": Added to KB: "
                      +:+ show (Js.take 8 <$> Kb.res_source_id r) +:+ " ("
                      +:+ default "undefined" (pretty <$> Kb.chunks_count r)
                      +:+ " chunks)")
      else
        reply w data (assistant w +:+ ": Failed - " +:+ show (Kb.error r))
  end.

(** [kb_delete] (index.ts 1489-1524) *)
Definition kb_delete (w : World) (data : Payload) (sourceGroup : string)
           (isMain : bool) : M unit :=
  let targetGroup := targetGroupOf data sourceGroup in
  if negb isMain && negb (String.eqb targetGroup sourceGroup) then
    warn "Unauthorized kb_delete attempt blocked"
  else
    match tv (sourceId data) with
    | None => warn "Invalid kb_delete request - missing sourceId"
    | Some sid =>
        success ← onKb (Kb.deleteSource sid);
        if success : bool then
          reply w data (assistant w +:+ ": KB entry deleted: " +:+ sid)
        else
          reply w data (assistant w +:+ ": Delete failed - undefined")
    end.

(** *** Scheduled tasks *)

(** [getTaskById], [updateTask(id, {status})], [deleteTask], [createTask] *)
Definition getTask (i : string) (s : State) : option Task :=
  find (fun t => String.eqb (task_id t) i) (tasks s).

Definition setStatus (i st : string) (ts : list Task) : list Task :=
  map (fun t =>
         if String.eqb (task_id t) i then
           {| task_id := task_id t; task_group_folder := task_group_folder t;
              task_chat_jid := task_chat_jid t; task_prompt := task_prompt t;
              task_schedule_type := task_schedule_type t;
              task_schedule_value := task_schedule_value t;
              task_context_mode := task_context_mode t; next_run := next_run t;
              task_status := st; task_created_at := task_created_at t |}
         else t) ts.

Definition deleteTask (i : string) (ts : list Task) : list Task :=
  List.filter (fun t => negb (String.eqb (task_id t) i)) ts.

(** The three handlers that change an existing task share their shape:
    the task must exist and belong to the source group, unless the source
    is the main group. *)
Definition onOwnTask (data : Payload) (sourceGroup : string) (isMain : bool)
           (change : string -> list Task -> list Task) (refusal : string) : M unit :=
  match tv (taskId data) with
  | None => skip
  | Some i =>
      t ← gets (getTask i);
      match t with
      | Some tk =>
          if isMain || String.eqb (task_group_folder tk) sourceGroup
          then modify (set_tasks (change i))
          else warn refusal
      | None => warn refusal
      end
  end.

Definition pause_task (data : Payload) (sourceGroup : string) (isMain : bool) : M unit :=
  onOwnTask data sourceGroup isMain (fun i => setStatus i "paused")
            "Unauthorized task pause attempt".

Definition resume_task (data : Payload) (sourceGroup : string) (isMain : bool) : M unit :=
  onOwnTask data sourceGroup isMain (fun i => setStatus i "active")
            "Unauthorized task resume attempt".

Definition cancel_task (data : Payload) (sourceGroup : string) (isMain : bool) : M unit :=
  onOwnTask data sourceGroup isMain deleteTask
            "Unauthorized task cancel attempt".

(** The last millisecond a [Date] holds. *)
Definition maxTime : Z := 8640000000000000.

(** The next run for a schedule: [inl] a warning, [inr] the value.  For
    an interval that leads past the last [Date], [toISOString] throws a
    [RangeError], outside any [try] of the handler. *)
Definition nextRunOf (w : World) (scheduleType scheduleValue : string)
  : Outcome (string + option string) :=
  if String.eqb scheduleType "cron" then
    match cronNext w scheduleValue with
    | Some t => Resolved (inr (Some t))
    | None => Resolved (inl "Invalid cron expression")
    end
  else if String.eqb scheduleType "interval" then
    match parseInt w scheduleValue with
    | Some ms => if (ms <=? 0)%Z then Resolved (inl "Invalid interval")
                 else if (maxTime <? now w + ms)%Z then Rejected "Invalid time value"
                 else Resolved (inr (Some (isoAfter w ms)))
    | None => Resolved (inl "Invalid interval")
    end
  else if String.eqb scheduleType "once" then
    match parseDate w scheduleValue with
    | Some t => Resolved (inr (Some t))
    | None => Resolved (inl "Invalid timestamp")
    end
  else Resolved (inr None).

Definition schedule_task (w : World) (data : Payload) (sourceGroup : string)
           (isMain : bool) : M unit :=
  match tv (p_prompt data), tv (schedule_type data), tv (schedule_value data),
        tv (groupFolder data) with
  | Some pr, Some scheduleType, Some scheduleValue, Some targetGroup =>
      if negb isMain && negb (String.eqb targetGroup sourceGroup) then
        warn "Unauthorized schedule_task attempt blocked"
      else
        groups ← gets (fun s => registeredGroups (host s));
        match tv (fst <$> find (fun kv => String.eqb (folder (snd kv)) targetGroup)
                               groups) with
        | None => warn "Cannot schedule task: target group not registered"
        | Some targetJid =>
            match nextRunOf w scheduleType scheduleValue with
            | Rejected e => throw e
            | Resolved (inl msg) => warn msg
            | Resolved (inr nextRun) =>
                let contextMode :=
                  match context_mode data with
                  | Some m => if String.eqb m "group" || String.eqb m "isolated"
                              then m else "isolated"
                  | None => "isolated"
                  end in
                modify (set_tasks (fun ts => ts ++
                  [{| task_id := newTaskId w; task_group_folder := targetGroup;
                      task_chat_jid := targetJid; task_prompt := pr;
                      task_schedule_type := scheduleType;
                      task_schedule_value := scheduleValue;
                      task_context_mode := contextMode; next_run := nextRun;
                      task_status := "active"; task_created_at := nowIso w |}]))
            end
        end
  | _, _, _, _ => skip
  end.

(** *** Groups *)

Definition refresh_groups (sourceGroup : string) (isMain : bool) : M unit :=
  if isMain then emit SyncGroupMetadata;; emit (GroupsSnapshot sourceGroup)
  else warn "Unauthorized refresh_groups attempt blocked".

(** Does the string hold a null byte?  [fs.mkdirSync] refuses such a
    path with a [TypeError]. *)
Definition hasNul (s : string) : bool :=
  existsb (Ascii.eqb "000"%char) (list_ascii_of_string s).

(** [registerGroup]: the registration is stored, then the folder of the
    group is made. *)
Definition registerGroup (j : string) (g : RegisteredGroup) : M unit :=
  modify (set_host (set_registeredGroups (assocSet j g)));;
  when (hasNul (folder g))
       (throw "The argument 'path' must be a string without null bytes").

Definition register_group (w : World) (data : Payload) (isMain : bool) : M unit :=
  if negb isMain then warn "Unauthorized register_group attempt blocked"
  else
    match tv (jid data), tv (p_name data), tv (p_folder data), tv (p_trigger data) with
    | Some j, Some n, Some f, Some t =>
        registerGroup j {| name := n; folder := f; trigger := t; added_at := nowIso w |}
    | _, _, _, _ => warn "Invalid register_group request - missing required fields"
    end.

(** *** [processTaskIpc]: the [switch] on [data.type] *)

Inductive Kind : Type :=
| K_schedule_task | K_pause_task | K_resume_task | K_cancel_task
| K_refresh_groups | K_register_group
| K_sugar_add | K_sugar_list | K_sugar_status | K_sugar_run | K_sugar_stop
| K_sugar_list_projects | K_sugar_add_project | K_sugar_init
| K_github_list_issues | K_github_create_task_from_issue
| K_github_create_pr | K_github_pr_status
| K_kb_list | K_kb_search | K_kb_update | K_kb_add | K_kb_delete.

Definition kinds : list (string * Kind) :=
  [("schedule_task", K_schedule_task); ("pause_task", K_pause_task);
   ("resume_task", K_resume_task); ("cancel_task", K_cancel_task);
   ("refresh_groups", K_refresh_groups); ("register_group", K_register_group);
   ("sugar_add", K_sugar_add); ("sugar_list", K_sugar_list);
   ("sugar_status", K_sugar_status); ("sugar_run", K_sugar_run);
   ("sugar_stop", K_sugar_stop); ("sugar_list_projects", K_sugar_list_projects);
   ("sugar_add_project", K_sugar_add_project); ("sugar_init", K_sugar_init);
   ("github_list_issues", K_github_list_issues);
   ("github_create_task_from_issue", K_github_create_task_from_issue);
   ("github_create_pr", K_github_create_pr);
   ("github_pr_status", K_github_pr_status);
   ("kb_list", K_kb_list); ("kb_search", K_kb_search);
   ("kb_update", K_kb_update); ("kb_add", K_kb_add); ("kb_delete", K_kb_delete)].

(** The [case] label a type selects, if any. *)
Definition kindOf (ty : option string) : option Kind :=
  t ← ty; assocGet t kinds.

Definition processTaskIpc (w : World) (data : Payload) (sourceGroup : string)
           (isMain : bool) : M unit :=
  match kindOf (type data) with
  | Some K_schedule_task => schedule_task w data sourceGroup isMain
  | Some K_pause_task => pause_task data sourceGroup isMain
  | Some K_resume_task => resume_task data sourceGroup isMain
  | Some K_cancel_task => cancel_task data sourceGroup isMain
  | Some K_refresh_groups => refresh_groups sourceGroup isMain
  | Some K_register_group => register_group w data isMain
  | Some K_sugar_add => sugar_add w data
  | Some K_sugar_list => sugar_list w data
  | Some K_sugar_status => sugar_status w data
  | Some K_sugar_run => sugar_run w data
  | Some K_sugar_stop => sugar_stop w data
  | Some K_sugar_list_projects => sugar_list_projects w data
  | Some K_sugar_add_project => sugar_add_project w data sourceGroup isMain
  | Some K_sugar_init => sugar_init w data
  | Some K_github_list_issues => github_list_issues w data
  | Some K_github_create_task_from_issue => github_create_task_from_issue w data
  | Some K_github_create_pr => github_create_pr w data
  | Some K_github_pr_status => github_pr_status w data
  | Some K_kb_list => kb_list w data sourceGroup isMain
  | Some K_kb_search => kb_search w data sourceGroup isMain
  | Some K_kb_update => kb_update w data sourceGroup isMain
  | Some K_kb_add => kb_add w data sourceGroup
  | Some K_kb_delete => kb_delete w data sourceGroup isMain
  | None => warn "Unknown IPC task type"
  end.

(** *** The watcher ([startIpcWatcher], index.ts 421-527) *)

(** Reading [data.<field>] of what was parsed. *)
Definition fieldsOf (p : Parsed) : M Payload :=
  match p with
  | ParseError => throw "Unexpected token in JSON"
  | JsonNull => throw "Cannot read properties of null"
  | JsonObject d => mret d
  end.

(** What the watcher does with the payload of a file of [messages/]
    (index.ts 450-471). *)
Definition handleMessage (w : World) (sourceGroup : string) (isMain : bool)
           (data : Payload) : M unit :=
  match type data, tv (chatJid data), tv (text data) with
  | Some ty, Some c, Some t =>
      if String.eqb ty "message" then
        targetGroup ← gets (fun s => lookupGroup c (registeredGroups (host s)));
        if isMain || match targetGroup with
                     | Some g => String.eqb (folder g) sourceGroup
                     | None => false
                     end
        then sendMessage w c (assistant w +:+ ": " +:+ t)
        else warn "Unauthorized IPC message attempt blocked"
      else skip
  | _, _, _ => skip
  end.

(** The body of the [try] for a file of [messages/]. *)
Definition handleMessageFile (w : World) (sourceGroup : string) (isMain : bool)
           (f : IpcFile) : M unit :=
  data ← fieldsOf (parsed f);
  handleMessage w sourceGroup isMain data.

(** The body of the [try] for a file of [tasks/]. *)
Definition handleTaskFile (w : World) (sourceGroup : string) (isMain : bool)
           (f : IpcFile) : M unit :=
  data ← fieldsOf (parsed f);
  processTaskIpc w data sourceGroup isMain.

Inductive Queue : Type := Messages | Tasks.

Definition removeFile (q : Queue) (g : string) (n : string) (s : State) : State :=
  set_ipcDirs
    (map (fun kv : string * GroupDir =>
            if String.eqb (fst kv) g then
              (fst kv,
               match q with
               | Messages =>
                   {| messagesDir :=
                        List.filter (fun f => negb (String.eqb (file_name f) n))
                                    (messagesDir (snd kv));
                      tasksDir := tasksDir (snd kv) |}
               | Tasks =>
                   {| messagesDir := messagesDir (snd kv);
                      tasksDir :=
                        List.filter (fun f => negb (String.eqb (file_name f) n))
                                    (tasksDir (snd kv)) |}
               end)
            else kv)) s.

(** [fs.unlinkSync(filePath)] *)
Definition unlink (q : Queue) (g : string) (f : IpcFile) : M unit :=
  modify (removeFile q g (file_name f)).

(** [fs.renameSync(filePath, path.join(errorDir, `${sourceGroup}-${file}`))] *)
Definition moveToErrors (q : Queue) (g : string) (f : IpcFile) : M unit :=
  modify (fun s =>
    set_errorsDir
      (fun es => List.filter (fun e => negb (String.eqb (file_name e)
                                                        (g +:+ "-" +:+ file_name f))) es
                 ++ [{| file_name := g +:+ "-" +:+ file_name f; parsed := parsed f |}])
      (removeFile q g (file_name f) s)).

(** [try { handle; unlink } catch { move to errors }] for one file. *)
Definition processFile (w : World) (q : Queue) (sourceGroup : string)
           (isMain : bool) (f : IpcFile) : M unit :=
  tryCatch
    ((match q with
      | Messages => handleMessageFile w sourceGroup isMain f
      | Tasks => handleTaskFile w sourceGroup isMain f
      end);;
     unlink q sourceGroup f)
    (fun _ => moveToErrors q sourceGroup f).

Definition isJson (n : string) : bool :=
  String.prefix (String.rev ".json") (String.rev n).

(** The work on one group directory: its messages, then its tasks. *)
Definition processGroupDir (w : World) (sourceGroup : string) (d : GroupDir) : M unit :=
  let isMain := String.eqb sourceGroup MAIN_GROUP_FOLDER in
  forEach (List.filter (fun f => isJson (file_name f)) (messagesDir d))
          (processFile w Messages sourceGroup isMain);;
  forEach (List.filter (fun f => isJson (file_name f)) (tasksDir d))
          (processFile w Tasks sourceGroup isMain).

(** One round of [processIpcFiles]. *)
Definition processIpcFiles (w : World) : M unit :=
  dirs ← gets ipcDirs;
  forEach (List.filter (fun kv => negb (String.eqb (fst kv) "errors")) dirs)
          (fun kv => processGroupDir w (fst kv) (snd kv)).

End Ipc.

(** ** How a POSIX shell cuts a command line

  [execSync] and [exec] pass their string to [/bin/sh -c].  The shell
  ends a command at a semicolon that is not quoted.  Quoting: a backslash
  quotes the next character; single quotes quote up to the next single
  quote; double quotes quote up to the next double quote that has no
  backslash before it. *)

Module Sh.

Inductive mode : Type := Plain | Single | Double.

Fixpoint split (m : mode) (cur : string) (s : string) : list string :=
  match s with
  | EmptyString => [String.rev cur]
  | String c r =>
      match m with
      | Plain =>
          if Ascii.eqb c ";"%char then String.rev cur :: split Plain "" r
          else if Ascii.eqb c "\"%char then
            match r with
            | String d r' => split Plain (String d (String c cur)) r'
            | EmptyString => [String.rev (String c cur)]
            end
          else if Ascii.eqb c "'"%char then split Single (String c cur) r
          else if Ascii.eqb c "034"%char then split Double (String c cur) r
          else split Plain (String c cur) r
      | Single =>
          if Ascii.eqb c "'"%char then split Plain (String c cur) r
          else split Single (String c cur) r
      | Double =>
          if Ascii.eqb c "\"%char then
            match r with
            | String d r' => split Double (String d (String c cur)) r'
            | EmptyString => [String.rev (String c cur)]
            end
          else if Ascii.eqb c "034"%char then split Plain (String c cur) r
          else split Double (String c cur) r
      end
  end.

(** The commands of a command line. *)
Definition commands (line : string) : list string := split Plain "" line.

End Sh.

(** ** Vocabulary for the properties of search *)

Module SearchSpec.

Import Kb.

(** "at least as similar as", the order of a result list *)
Definition Desc (a b : SearchResult) : Prop := (similarity b <= similarity a)%Q.

(** [m] holds, for every source met in [seen], one entry: a result of
    that source from [seen] that no other result of the source in [seen]
    beats. *)
Record Best (seen : list SearchResult) (m : list (string * SearchResult)) : Prop :=
  mkBest {
    best_nodup : NoDup m.*1;
    best_entry : forall k v,
        (k, v) ∈ m ->
        sr_source_id v = k /\ v ∈ seen
        /\ forall r, r ∈ seen -> sr_source_id r = k ->
                     (similarity r <= similarity v)%Q;
    best_cover : forall r, r ∈ seen -> sr_source_id r ∈ m.*1
  }.

(** The candidates of a query: the rows in scope, scored, at or above the
    threshold. *)
Definition candidates (w : World) (q : string) (o : SearchOptions) (st : KbState)
  : list SearchResult :=
  match generateEmbedding w q with
  | Some qe =>
      scoreRows w qe (default default_minSimilarity (minSimilarity o))
                (selectRows (so_groupFolder o) st)
  | None => []
  end.

(** The list a search ranks before it cuts it to the limit. *)
Definition ranked (w : World) (q : string) (o : SearchOptions) (st : KbState)
  : list SearchResult :=
  if default true (dedupeBySource o)
  then sortDesc (snd <$> bestBySource (sortDesc (candidates w q o st)))
  else sortDesc (candidates w q o st).

End SearchSpec.

(** ** Vocabulary for the properties of ingestion *)

Module IngestSpec.

Import Kb.

(** No two sources of one group share a URL. *)
Definition UniqueUrl (st : KbState) : Prop :=
  forall (i j : nat) (s1 s2 : KBSource) (u : string),
    sources st !! i = Some s1 -> sources st !! j = Some s2 ->
    group_folder s1 = group_folder s2 ->
    url s1 = Some u -> url s2 = Some u -> i = j.

(** No two sources of one group share a content hash. *)
Definition UniqueHash (st : KbState) : Prop :=
  forall (i j : nat) (s1 s2 : KBSource),
    sources st !! i = Some s1 -> sources st !! j = Some s2 ->
    group_folder s1 = group_folder s2 ->
    content_hash s1 = content_hash s2 -> i = j.

(** The content [finishIngestion] chunks: cleaned, and cut when the
    validation says so. *)
Definition finalContentOf (w : World) (content : string) (ty : SourceType) : string :=
  let cleaned := cleanContent w content in
  if truncated (validateContent w cleaned ty)
  then Js.take (MAX_CONTENT_LENGTH w) cleaned
  else cleaned.

(** The chunks of a content and what the provider returns for them. *)
Definition chunksOf (w : World) (content : string) (ty : SourceType) : list string :=
  chunkText w (finalContentOf w content ty).

Definition embeddingsOf (w : World) (content : string) (ty : SourceType)
  : list (option Embedding) :=
  (generateEmbeddingsBatch w (chunksOf w content ty)).1.

End IngestSpec.

(** ** Vocabulary for the properties of the IPC broker *)

Module IpcSpec.

Import Router Ipc.

(** Every run of [m] takes a state to one that [R] relates to it,
    whether [m] returns or throws. *)
Definition Steps {A} (R : State -> State -> Prop) (m : M A) : Prop :=
  forall s, R s (m s).2.

(** The IPC directories are as they were. *)
Definition SameDirs (s s' : State) : Prop :=
  ipcDirs s' = ipcDirs s /\ errorsDir s' = errorsDir s.

(** A step that returns, whatever the state, and leaves the IPC
    directories as they were. *)
Definition Quiet {A} (m : M A) : Prop :=
  forall s, exists a s',
    m s = (Resolved a, s')
    /\ ipcDirs s' = ipcDirs s /\ errorsDir s' = errorsDir s.

Definition queueOf (q : Queue) (d : GroupDir) : list IpcFile :=
  match q with Messages => messagesDir d | Tasks => tasksDir d end.

(** The file a rejected payload is kept as:
    [errors/<sourceGroup>-<name>]. *)
Definition archived (g : string) (f : IpcFile) : IpcFile :=
  {| file_name := g +:+ "-" +:+ file_name f; parsed := parsed f |}.


(** The handler of a queue, on a payload. *)
Definition handlerOf (w : World) (q : Queue) (g : string) (isMain : bool)
           (d : Payload) : M unit :=
  match q with
  | Messages => handleMessage w g isMain d
  | Tasks => processTaskIpc w d g isMain
  end.

(** What the watcher's [try] does with a file before it unlinks it: the
    payload is read and handled. *)
Definition handling (w : World) (q : Queue) (g : string) (isMain : bool)
           (f : IpcFile) : M unit :=
  match q with
  | Messages => handleMessageFile w g isMain f
  | Tasks => handleTaskFile w g isMain f
  end.

(** The project a Sugar request names: [data.project ||
    data.projectName], looked up, or the default one. *)
Definition requestedProject (data : Payload) (s : State) : option Member :=
  match tv (match tv (project data) with
            | Some n => Some n
            | None => projectName data
            end) with
  | Some n => getSugarProject n s
  | None => Project <$> getDefaultSugarProject s
  end.


(** The command of an event that hands a string to a shell. *)
Definition shellCommand (e : Event) : option string :=
  match e with
  | ExecSync c _ => Some c
  | Exec c _ => Some c
  | _ => None
  end.

(** An event that runs a program argv-style with a time limit. *)
Definition argvStyle (e : Event) : bool :=
  match e with
  | ExecFile _ _ (Some _) => true
  | ExecSync _ _ | Exec _ _ | ExecFile _ _ None => false
  | _ => true
  end.

End IpcSpec.

(** ** Concrete worlds and states *)

Module Examples.

Import Router.

(** A knowledge-base world whose provider answers: every chunk gets the
    vector [provider c]. *)
Definition kbWorldWith (provider : string -> option Kb.Embedding) (up : bool) : Kb.World :=
  {| Kb.normalizeUrl := fun u => u;
     Kb.detectSourceType := fun _ => Kb.article;
     Kb.extractOther := fun u _ =>
       (Some {| Kb.ex_title := "Page"; Kb.ex_content := "Text of " +:+ u |}, []);
     Kb.YTDLP_PATH := "yt-dlp";
     Kb.subPath := "/tmp/yt-sub-1770000000000.%(ext)s";
     Kb.ytTitle := fun _ => Some "A talk";
     Kb.ytTranscript := fun _ => "";
     Kb.ytDescription := fun _ => None;
     Kb.cleanContent := fun c => c;
     Kb.validateContent := fun _ _ =>
       {| Kb.valid := true; Kb.reason := None; Kb.truncated := false |};
     Kb.MAX_CONTENT_LENGTH := 4096;
     Kb.generateContentHash := fun c => "sha:" +:+ c;
     Kb.chunkText := fun c => [c; "tail of " +:+ c];
     Kb.generateEmbeddingsBatch := fun cs => (map provider cs, up);
     Kb.generateEmbedding := fun _ => if up then Some [1%Q] else None;
     Kb.cosineSimilarity := fun _ e => default 0%Q (e !! 0%nat);
     Kb.newSourceId := fun n => "kb-" +:+ pretty n;
     Kb.timestamp := fun n => "t" +:+ pretty n |}.

Definition kbWorldUp : Kb.World := kbWorldWith (fun _ => Some [1%Q]) true.

(** The provider is down: no vector for any chunk. *)
Definition kbWorldDown : Kb.World := kbWorldWith (fun _ => None) false.

Definition emptyKb : Kb.KbState :=
  {| Kb.sources := []; Kb.chunks := []; Kb.next_chunk_id := 1; Kb.clock := 0;
     Kb.available := true |}.

(** Two sources of the group [family], three chunks with vectors, one
    chunk without, and a chunk of another group. *)
Definition src (i g : string) : Kb.KBSource :=
  {| Kb.id := i; Kb.group_folder := g; Kb.url := Some ("https://example.org/" +:+ i);
     Kb.title := Some i; Kb.source_type := Kb.article; Kb.raw_content := i;
     Kb.content_hash := "sha:" +:+ i; Kb.tags := None;
     Kb.created_at := "t0"; Kb.updated_at := "t0" |}.

Definition chunk (n : nat) (sid : string) (e : option Kb.Embedding) : Kb.KBChunk :=
  {| Kb.chunk_id := n; Kb.source_id := sid; Kb.chunk_index := 0;
     Kb.content := "chunk of " +:+ sid; Kb.embedding := e;
     Kb.embedding_dim := length <$> e; Kb.embedding_provider := None;
     Kb.embedding_model := None |}.

Definition kbFilled : Kb.KbState :=
  {| Kb.sources := [src "kb-a" "family"; src "kb-b" "family"; src "kb-c" "work"];
     Kb.chunks := [chunk 1 "kb-a" (Some [(8 # 10)%Q]); chunk 2 "kb-b" (Some [(9 # 10)%Q]);
                   chunk 3 "kb-a" (Some [(95 # 100)%Q]); chunk 4 "kb-b" None;
                   chunk 5 "kb-a" (Some [(5 # 10)%Q]); chunk 6 "kb-c" (Some [1%Q])];
     Kb.next_chunk_id := 7; Kb.clock := 3; Kb.available := true |}.

Definition intoFamily : Kb.IngestOptions :=
  {| Kb.groupFolder := "family"; Kb.opt_url := None; Kb.opt_title := None;
     Kb.sourceType := None; Kb.opt_tags := None |}.

Definition familySearch (n : Z) : Kb.SearchOptions :=
  {| Kb.so_groupFolder := Some "family"; Kb.limit := Some n;
     Kb.minSimilarity := None; Kb.dedupeBySource := None |}.

Definition family : RegisteredGroup :=
  {| name := "Family"; folder := "family"; trigger := "@Alfred";
     added_at := "2026-02-01T09:00:00Z" |}.

Definition plain : RegisteredGroup :=
  {| name := "Plain"; folder := "plain"; trigger := "Alfred";
     added_at := "2026-02-01T09:00:00Z" |}.

Definition mainGroup : RegisteredGroup :=
  {| name := "Main"; folder := "main"; trigger := "@Alfred";
     added_at := "2026-02-01T09:00:00Z" |}.

Definition m1 : NewMessage :=
  {| msg_id := "m1"; chat_jid := "family@g.us"; sender_name := "Bhavi";
     content := "@Alfred status please"; timestamp := "2026-02-01T10:00:01Z" |}.

(** The content is the trigger word of [plain] as the group wrote it. *)
Definition mPlain : NewMessage :=
  {| msg_id := "m2"; chat_jid := "plain@g.us"; sender_name := "Bhavi";
     content := "Alfred status please"; timestamp := "2026-02-01T10:00:02Z" |}.

(** A blank in front of the trigger. *)
Definition mBlank : NewMessage :=
  {| msg_id := "m3"; chat_jid := "family@g.us"; sender_name := "Bhavi";
     content := " @Alfred status please"; timestamp := "2026-02-01T10:00:03Z" |}.

Definition s0 : State :=
  {| lastTimestamp := "2026-02-01T10:00:00Z";
     sessions := {[ "family" := "s1" ]};
     registeredGroups :=
       [("family@g.us", family); ("plain@g.us", plain); ("main@g.us", mainGroup)];
     lastAgentTimestamp := ∅;
     sessions_file := {[ "family" := "s1" ]};
     router_state_file := ("2026-02-01T10:00:00Z", ∅);
     db := [m1]; kb := emptyKb; outbox := []; runs := [] |}.

Definition worldWith (run : RegisteredGroup -> ContainerInput -> Outcome ContainerOutput)
           (send readFail : bool) : World :=
  {| ASSISTANT_NAME := "Alfred"; kbWorld := kbWorldUp;
     runContainerAgent := run;
     sockSend := fun _ _ => send;
     readFails := fun _ => readFail;
     pollFails := fun _ => false |}.

(** The container answers. *)
Definition worldOk : World :=
  worldWith (fun _ _ => Resolved {| status := ok; result := Some "All good.";
                                    newSessionId := Some "s2";
                                    output_error := None |}) true false.

(** The container run times out. *)
Definition worldTimeout : World :=
  worldWith (fun _ _ => Rejected "Container timed out after 300000ms") true false.

(** The container reports an error, and a session id with it. *)
Definition worldError : World :=
  worldWith (fun _ _ => Resolved {| status := error; result := None;
                                    newSessionId := Some "s2";
                                    output_error := Some "agent crashed" |}) true false.

(** The container answers but the transport refuses the reply. *)
Definition worldNoSend : World :=
  worldWith (fun _ _ => Resolved {| status := ok; result := Some "All good.";
                                    newSessionId := None;
                                    output_error := None |}) false false.


(** *** The IPC broker *)

(** [{type: register_group, jid, name, folder, trigger}] *)
Definition registerRequest : Ipc.Payload :=
  {| Ipc.type := Some "register_group"; Ipc.taskId := None; Ipc.p_prompt := None;
     Ipc.schedule_type := None; Ipc.schedule_value := None; Ipc.context_mode := None;
     Ipc.groupFolder := None; Ipc.chatJid := None; Ipc.text := None;
     Ipc.jid := Some "new@g.us"; Ipc.p_name := Some "New";
     Ipc.p_folder := Some "new"; Ipc.p_trigger := Some "@New"; Ipc.task := None;
     Ipc.taskType := None; Ipc.priority := None; Ipc.project := None;
     Ipc.projectName := None; Ipc.p_status := None; Ipc.p_limit := None;
     Ipc.dryRun := false; Ipc.continuous := false; Ipc.projectPath := None;
     Ipc.repo := None; Ipc.state := None; Ipc.issueNumber := None;
     Ipc.branch := None; Ipc.title := None; Ipc.body := None; Ipc.p_default := false;
     Ipc.url := None; Ipc.query := None; Ipc.p_content := None; Ipc.tags := None;
     Ipc.sourceId := None |}.

(** [{type: kb_delete, sourceId: kb-c}]: the source [kb-c] is one of the group [work] *)
Definition deleteRequest : Ipc.Payload :=
  {| Ipc.type := Some "kb_delete"; Ipc.taskId := None; Ipc.p_prompt := None;
     Ipc.schedule_type := None; Ipc.schedule_value := None; Ipc.context_mode := None;
     Ipc.groupFolder := Some "family"; Ipc.chatJid := None; Ipc.text := None;
     Ipc.jid := None; Ipc.p_name := None; Ipc.p_folder := None;
     Ipc.p_trigger := None; Ipc.task := None; Ipc.taskType := None;
     Ipc.priority := None; Ipc.project := None; Ipc.projectName := None;
     Ipc.p_status := None; Ipc.p_limit := None; Ipc.dryRun := false;
     Ipc.continuous := false; Ipc.projectPath := None; Ipc.repo := None;
     Ipc.state := None; Ipc.issueNumber := None; Ipc.branch := None;
     Ipc.title := None; Ipc.body := None; Ipc.p_default := false; Ipc.url := None;
     Ipc.query := None; Ipc.p_content := None; Ipc.tags := None;
     Ipc.sourceId := Some "kb-c" |}.

(** A task text that closes the quotes the handler puts around it. *)
Definition craftedTask : string :=
  "x\" +:+ Format.dq +:+ "; touch /tmp/pwned; echo \" +:+ Format.dq.

(** [{type: sugar_add, task: craftedTask}] *)
Definition sugarAddRequest : Ipc.Payload :=
  {| Ipc.type := Some "sugar_add"; Ipc.taskId := None; Ipc.p_prompt := None;
     Ipc.schedule_type := None; Ipc.schedule_value := None; Ipc.context_mode := None;
     Ipc.groupFolder := None; Ipc.chatJid := None; Ipc.text := None; Ipc.jid := None;
     Ipc.p_name := None; Ipc.p_folder := None; Ipc.p_trigger := None;
     Ipc.task := Some craftedTask; Ipc.taskType := None; Ipc.priority := None;
     Ipc.project := None; Ipc.projectName := None; Ipc.p_status := None;
     Ipc.p_limit := None; Ipc.dryRun := false; Ipc.continuous := false;
     Ipc.projectPath := None; Ipc.repo := None; Ipc.state := None;
     Ipc.issueNumber := None; Ipc.branch := None; Ipc.title := None;
     Ipc.body := None; Ipc.p_default := false; Ipc.url := None; Ipc.query := None;
     Ipc.p_content := None; Ipc.tags := None; Ipc.sourceId := None |}.

(** [{type: github_list_issues, repo}] with a repository name that goes on after a semicolon *)
Definition issuesRequest : Ipc.Payload :=
  {| Ipc.type := Some "github_list_issues"; Ipc.taskId := None; Ipc.p_prompt := None;
     Ipc.schedule_type := None; Ipc.schedule_value := None; Ipc.context_mode := None;
     Ipc.groupFolder := None; Ipc.chatJid := None; Ipc.text := None; Ipc.jid := None;
     Ipc.p_name := None; Ipc.p_folder := None; Ipc.p_trigger := None;
     Ipc.task := None; Ipc.taskType := None; Ipc.priority := None;
     Ipc.project := None; Ipc.projectName := None; Ipc.p_status := None;
     Ipc.p_limit := None; Ipc.dryRun := false; Ipc.continuous := false;
     Ipc.projectPath := None; Ipc.repo := Some "o/r; touch /tmp/pwned #";
     Ipc.state := None; Ipc.issueNumber := None; Ipc.branch := None;
     Ipc.title := None; Ipc.body := None; Ipc.p_default := false; Ipc.url := None;
     Ipc.query := None; Ipc.p_content := None; Ipc.tags := None;
     Ipc.sourceId := None |}.

(** [{type: sugar_run}] *)
Definition sugarRunRequest : Ipc.Payload :=
  {| Ipc.type := Some "sugar_run"; Ipc.taskId := None; Ipc.p_prompt := None;
     Ipc.schedule_type := None; Ipc.schedule_value := None; Ipc.context_mode := None;
     Ipc.groupFolder := None; Ipc.chatJid := None; Ipc.text := None; Ipc.jid := None;
     Ipc.p_name := None; Ipc.p_folder := None; Ipc.p_trigger := None;
     Ipc.task := None; Ipc.taskType := None; Ipc.priority := None;
     Ipc.project := None; Ipc.projectName := None; Ipc.p_status := None;
     Ipc.p_limit := None; Ipc.dryRun := false; Ipc.continuous := false;
     Ipc.projectPath := None; Ipc.repo := None; Ipc.state := None;
     Ipc.issueNumber := None; Ipc.branch := None; Ipc.title := None;
     Ipc.body := None; Ipc.p_default := false; Ipc.url := None; Ipc.query := None;
     Ipc.p_content := None; Ipc.tags := None; Ipc.sourceId := None |}.


(** [{type: frobnicate}] *)
Definition unknownRequest : Ipc.Payload :=
  {| Ipc.type := Some "frobnicate"; Ipc.taskId := None; Ipc.p_prompt := None;
     Ipc.schedule_type := None; Ipc.schedule_value := None; Ipc.context_mode := None;
     Ipc.groupFolder := None; Ipc.chatJid := None; Ipc.text := None; Ipc.jid := None;
     Ipc.p_name := None; Ipc.p_folder := None; Ipc.p_trigger := None;
     Ipc.task := None; Ipc.taskType := None; Ipc.priority := None;
     Ipc.project := None; Ipc.projectName := None; Ipc.p_status := None;
     Ipc.p_limit := None; Ipc.dryRun := false; Ipc.continuous := false;
     Ipc.projectPath := None; Ipc.repo := None; Ipc.state := None;
     Ipc.issueNumber := None; Ipc.branch := None; Ipc.title := None;
     Ipc.body := None; Ipc.p_default := false; Ipc.url := None; Ipc.query := None;
     Ipc.p_content := None; Ipc.tags := None; Ipc.sourceId := None |}.

(** A broker's world, given what [parseInt] reads and what the shell
    does to the project registry. *)
Definition ipcWorldWith (readInt : string -> option Z)
           (writes : string -> list (string * Ipc.SugarProject)
                     -> list (string * Ipc.SugarProject)) : Ipc.World :=
  {| Ipc.router := worldOk;
     Ipc.SUGAR_PROJECTS_FILE := "/srv/nanoclaw/data/sugar-projects.json";
     Ipc.execSync := fun _ _ => Some "";
     Ipc.shellWrites := writes;
     Ipc.execPid := fun _ => 4242%Z;
     Ipc.killOk := fun _ => true;
     Ipc.existsSync := fun _ => true;
     Ipc.tmpFile := "/tmp/sugar-cmd-1770000000000.log";
     Ipc.newTaskId := "task-1770000000000-abc123";
     Ipc.nowIso := "2026-02-01T10:00:00.000Z";
     Ipc.now := 1769940000000%Z;
     Ipc.cronNext := fun _ => None;
     Ipc.parseInt := readInt;
     Ipc.isoAfter := fun _ => "";
     Ipc.parseDate := fun _ => None;
     Ipc.sugarTaskLines := fun _ => Some [];
     Ipc.issueLines := fun _ => Some [];
     Ipc.prLines := fun _ => Some [];
     Ipc.parseIssue := fun _ => None |}.

(** No schedule value is a number, and no command touches the
    registry. *)
Definition ipcWorld : Ipc.World := ipcWorldWith (fun _ => None) (fun _ r => r).

(** [parseInt] reads the digits of [99999999999999999999]. *)
Definition worldFarAhead : Ipc.World :=
  ipcWorldWith (fun v => if String.eqb v "99999999999999999999"
                         then Some 100000000000000000000%Z else None)
               (fun _ r => r).

(** A shell in which [rm] of the registry file works. *)
Definition worldWithRm : Ipc.World :=
  ipcWorldWith (fun _ => None)
               (fun c r => if Js.includes "rm data/sugar-projects.json" c then [] else r).

Definition hostFilled : State :=
  {| lastTimestamp := lastTimestamp s0; sessions := sessions s0;
     registeredGroups := registeredGroups s0;
     lastAgentTimestamp := lastAgentTimestamp s0;
     sessions_file := sessions_file s0;
     router_state_file := router_state_file s0; db := db s0; kb := kbFilled;
     outbox := []; runs := [] |}.

(** The broker's state with the given files in [ipc/family/]. *)
Definition ipcState (messages tasks : list Ipc.IpcFile) : Ipc.State :=
  {| Ipc.host := hostFilled; Ipc.tasks := [];
     Ipc.sugarProjects :=
       [("app", {| Ipc.project_name := "app"; Ipc.project_path := "/srv/app";
                   Ipc.project_repo := None; Ipc.project_default := true |})];
     Ipc.runningSugarProcesses := [];
     Ipc.ipcDirs := [("family", {| Ipc.messagesDir := messages;
                                   Ipc.tasksDir := tasks |})];
     Ipc.errorsDir := []; Ipc.trace := [] |}.

Definition file (n : string) (p : Ipc.Payload) : Ipc.IpcFile :=
  {| Ipc.file_name := n; Ipc.parsed := Ipc.JsonObject p |}.

End Examples.

(** ** Vocabulary for the properties of the message loop *)

Module LoopSpec.

Import Router.

(** The two files [saveState] writes hold what the variables hold. *)
Definition Persisted (s : State) : Prop :=
  router_state_file s = (lastTimestamp s, lastAgentTimestamp s)
  /\ sessions_file s = sessions s.

End LoopSpec.

(** ** Chat identifiers ([translateJid], index.ts 81-90, and the mapping
    the connection handler sets, index.ts 1609-1617) *)

Module Jid.

(** [s.endsWith(suffix)] *)
Definition endsWith (suffix s : string) : bool :=
  String.prefix (String.rev suffix) (String.rev s).

(** [s.split(c)[0]]: what stands before the first [c]. *)
Fixpoint before (c : ascii) (s : string) : string :=
  match s with
  | String d r => if Ascii.eqb d c then "" else String d (before c r)
  | EmptyString => ""
  end.

(** [translateJid].  [lidToPhoneMap] is the object the module keeps; its
    keys are the ones that were set. *)
Definition translateJid (lidToPhoneMap : gmap string string) (jid : string) : string :=
  if negb (endsWith "@lid" jid) then jid
  else
    let lidUser := before ":"%char (before "@"%char jid) in
    match lidToPhoneMap !! lidUser with
    | Some phoneJid => if Js.truthy phoneJid then phoneJid else jid
    | None => jid
    end.

(** What the handler of [connection === 'open'] does to the mapping when
    [sock.user] is there, for [sock.user.id] and [sock.user.lid] (which
    may be absent). *)
Definition onConnectionOpen (userId : string) (userLid : option string)
           (lidToPhoneMap : gmap string string) : gmap string string :=
  let phoneUser := before ":"%char userId in
  match before ":"%char <$> userLid with
  | Some lidUser =>
      if Js.truthy lidUser && Js.truthy phoneUser
      then <[lidUser := phoneUser +:+ "@s.whatsapp.net"]> lidToPhoneMap
      else lidToPhoneMap
  | None => lidToPhoneMap
  end.

End Jid.

(** ** URLs in a message ([detectUrls], index.ts 222-236, with the
    pattern [KB_URL_PATTERNS.url] of config.ts 114) *)

Module Urls.

(** The text after [p] when [s] begins with [p], up to the case of
    letters. *)
Fixpoint stripCi (p s : string) : option string :=
  match p, s with
  | EmptyString, _ => Some s
  | String a p', String b s' => if Trigger.ci_eqb a b then stripCi p' s' else None
  | String _ _, EmptyString => None
  end.

(** [[^\s]+], greedy, with nothing after it: the longest run of
    characters that are not white space. *)
Fixpoint nonSpaceRun (s : string) : string :=
  match s with
  | String c r => if Js.isWhiteSpace c then "" else String c (nonSpaceRun r)
  | EmptyString => ""
  end.

(** [:\/\/[^\s]+] after a scheme of [n] characters: the text matched
    from the start of [s]. *)
Definition afterScheme (s : string) (n : nat) (r : string) : option string :=
  r1 ← stripCi "://" r;
  let run := nonSpaceRun r1 in
  if Js.truthy run then Some (Js.take (n + 3 + String.length run) s) else None.

(** A match of [https?:\/\/[^\s]+] (flag [i]) that starts at the head of
    [s]: with the optional [s] first, without it next. *)
Definition matchHere (s : string) : option string :=
  r ← stripCi "http" s;
  match stripCi "s" r ≫= afterScheme s 5 with
  | Some u => Some u
  | None => afterScheme s 4 r
  end.

(** [content.matchAll(pattern)]: the matches from left to right, each
    search starting where the last match ended.  [skip] counts the
    characters of the last match still to pass. *)
Fixpoint matchAll (skip : nat) (s : string) : list string :=
  match s with
  | EmptyString => []
  | String _ r =>
      match skip with
      | S k => matchAll k r
      | O =>
          match matchHere s with
          | Some u => u :: matchAll (String.length u - 1) r
          | None => matchAll 0 r
          end
      end
  end.

(** [detectUrls] *)
Definition detectUrls (content : string) : list string :=
  List.filter Js.truthy (matchAll 0 content).

End Urls.

(** ** Vocabulary for the properties of URL detection *)

Module TextSpec.

(** White space, character by character: TAB, LF, VT, FF, CR, SP and
    the no-break space U+00A0. *)
Definition whiteSpace : list ascii :=
  ["009"; "010"; "011"; "012"; "013"; " "; "160"]%char.

End TextSpec.

Module UrlSpec.

(** The shape of a URL the pattern matches at the head of a text. *)
Definition UrlAt (s u : string) : Prop :=
  exists scheme run rest,
    s = u +:+ rest /\ u = scheme +:+ run
    /\ (Trigger.ci_equal "http://" scheme = true
        \/ Trigger.ci_equal "https://" scheme = true)
    /\ run <> ""
    /\ Forall (fun c => Js.isWhiteSpace c = false) (list_ascii_of_string u)
    /\ match rest with String c _ => Js.isWhiteSpace c = true | EmptyString => True end.

End UrlSpec.

(** ** Video identifiers ([extractVideoId], kb/extractors/video.ts
    215-230) *)

Module Video.

(** [[a-zA-Z0-9_-]] *)
Definition isIdChar (c : ascii) : bool :=
  Trigger.is_word_char c || Ascii.eqb c "-"%char.

(** [([a-zA-Z0-9_-]{n})] at the head of [s]: the characters captured. *)
Fixpoint takeId (n : nat) (s : string) : option string :=
  match n with
  | O => Some ""
  | S k =>
      match s with
      | String c r => if isIdChar c then String c <$> takeId k r else None
      | EmptyString => None
      end
  end.

(** The text after [p] when [s] begins with [p]. *)
Fixpoint strip (p s : string) : option string :=
  match p, s with
  | EmptyString, _ => Some s
  | String a p', String b s' => if Ascii.eqb a b then strip p' s' else None
  | String _ _, EmptyString => None
  end.

(** A match of [(?:alt1|alt2|...)([a-zA-Z0-9_-]{11})] that starts at the
    head of [s]: the alternatives in order; the capture. *)
Fixpoint captureHere (alts : list string) (s : string) : option string :=
  match alts with
  | [] => None
  | alt :: alts' =>
      match strip alt s ≫= takeId 11 with
      | Some v => Some v
      | None => captureHere alts' s
      end
  end.

(** [url.match(pattern)[1]]: the leftmost match. *)
Fixpoint matchFirst (alts : list string) (s : string) : option string :=
  match captureHere alts s with
  | Some v => Some v
  | None =>
      match s with
      | String _ r => matchFirst alts r
      | EmptyString => None
      end
  end.

(** [extractVideoId]: the three patterns in order. *)
Definition extractVideoId (url : string) : option string :=
  match matchFirst ["youtube.com/watch?v="; "youtu.be/"] url with
  | Some v => Some v
  | None =>
      match matchFirst ["youtube.com/embed/"] url with
      | Some v => Some v
      | None => matchFirst ["youtube.com/v/"] url
      end
  end.

End Video.

(** ** Similar sources ([findSimilar], config.ts 262-325) *)

Module Similar.

Import Kb.

(** [SELECT embedding FROM kb_chunks WHERE source_id = ? AND embedding IS
    NOT NULL LIMIT 1], the rows taken in the order of the table. *)
Definition referenceRows (sourceId : string) (st : KbState) : list Embedding :=
  take 1 (omap (fun c => if String.eqb (source_id c) sourceId then embedding c else None)
               (chunks st)).

(** The rows of the second query: [... WHERE c.source_id != ? AND
    c.embedding IS NOT NULL]. *)
Definition otherRows (sourceId : string) (st : KbState) : list SearchRow :=
  filter (fun r => row_source_id r ≠ sourceId) (joinRows st).

(** The value of the literal [0.6]: the double nearest to 6/10. *)
Definition similarThreshold : Q := 5404319552844595 # 9007199254740992.

Definition findSimilar (w : World) (sourceId : string) (limit : option Z)
           (st : KbState) : list SearchResult :=
  let lim := default 5%Z limit in
  match referenceRows sourceId st with
  | [] => []
  | referenceEmbedding :: _ =>
      let results :=
        sortDesc (scoreRows w referenceEmbedding similarThreshold
                            (otherRows sourceId st)) in
      slice0 (sortDesc (snd <$> bestBySource results)) lim
  end.

End Similar.

(** ** Vocabulary for the properties of formatting *)

Module FormatSpec.

Import Format.

(** The first line [formatSearchResults] writes, with the blank line
    after it. *)
Definition headerOf (results : list Kb.SearchResult) : string :=
  "Found " +:+ pretty (length results) +:+ " relevant source"
  +:+ (if (1 <? length results)%nat then "s" else "") +:+ ":" +:+ nl +:+ nl.

End FormatSpec.

(** ** The agent's side of the IPC ([writeIpcFile] and the
    [send_message] tool, container/agent-runner/src/ipc-mcp.ts 22-67) *)

Module Mcp.

Import Ipc.

Record IpcMcpContext : Type := mkContext {
  ctx_chatJid : string;
  ctx_groupFolder : string;
  ctx_isMain : bool
}.

(** [`${Date.now()}-${Math.random().toString(36).slice(2, 8)}.json`] *)
Definition fileName (now rand : string) : string := now +:+ "-" +:+ rand +:+ ".json".

(** [`${filepath}.tmp`], the name the data is written under before the
    file is renamed. *)
Definition tempPath (filepath : string) : string := filepath +:+ ".tmp".

(** The data the [send_message] tool writes. *)
Definition send_message (ctx : IpcMcpContext) (txt : string) : Payload :=
  {| type := Some "message"; taskId := None; p_prompt := None; schedule_type := None;
     schedule_value := None; context_mode := None;
     groupFolder := Some (ctx_groupFolder ctx); chatJid := Some (ctx_chatJid ctx);
     text := Some txt; jid := None; p_name := None; p_folder := None;
     p_trigger := None; task := None; taskType := None; priority := None;
     project := None; projectName := None; p_status := None; p_limit := None;
     dryRun := false; continuous := false; projectPath := None; repo := None;
     state := None; issueNumber := None; branch := None; title := None;
     body := None; p_default := false; url := None; query := None;
     p_content := None; tags := None; sourceId := None |}.

End Mcp.

(** ** Vocabulary for the properties of the handlers *)

Module BrokerSpec.

Import Router Ipc.

(** The commands that went to [execSync], in order. *)
Definition syncCommands (evs : list Event) : list string :=
  omap (fun e => match e with ExecSync c _ => Some c | _ => None end) evs.

(** The project registry after the shell has run these commands. *)
Definition afterCommands (w : World) (cs : list string)
           (r : list (string * SugarProject)) : list (string * SugarProject) :=
  fold_left (fun r c => shellWrites w c r) cs r.

(** The registrations are as they were, and the project registry is
    what the commands that were run made of it. *)
Definition SamePrivileged (w : World) (s s' : State) : Prop :=
  registeredGroups (host s') = registeredGroups (host s)
  /\ exists evs,
      trace s' = trace s ++ evs
      /\ sugarProjects s' = afterCommands w (syncCommands evs) (sugarProjects s).

(** The log went on by events that all satisfy [P]. *)
Definition Emitted (P : Event -> Prop) (s s' : State) : Prop :=
  exists evs, trace s' = trace s ++ evs /\ Forall P evs.

(** A spawn under the limits the handlers set: [execSync] with 30 s;
    [exec], with no limit, for a request of the kind [sugar_run] only;
    [execFile] for a request of the kind [kb_update] only, and then for
    a program that the extraction of some URL runs, with its limit. *)
Definition Bounded (w : World) (kind : option Kind) (e : Event) : Prop :=
  match e with
  | ExecSync _ t => t = 30000%Z
  | Exec _ t => kind = Some K_sugar_run /\ t = None
  | ExecFile file args t =>
      kind = Some K_kb_update
      /\ exists u ty sp,
          sp ∈ (Kb.extraction (kbWorld (router w)) u ty).2
          /\ file = Kb.sp_file sp /\ args = Kb.sp_args sp
          /\ t = Some (Kb.sp_timeout sp)
  | _ => True
  end.

(** What one round of the watcher leaves of a queue: the files whose
    name does not end in [.json]. *)
Definition unread (d : GroupDir) : GroupDir :=
  {| messagesDir := List.filter (fun f => negb (isJson (file_name f))) (messagesDir d);
     tasksDir := List.filter (fun f => negb (isJson (file_name f))) (tasksDir d) |}.

Definition queue_eqb (a b : Queue) : bool :=
  match a, b with
  | Messages, Messages | Tasks, Tasks => true
  | _, _ => false
  end.

(** Is the file [n] of the queue [q] of the group [g] among the files
    [L] that were handled? *)
Definition handled (L : list (string * Queue * string)) (g : string) (q : Queue)
           (n : string) : bool :=
  existsb (fun x => String.eqb x.1.1 g && queue_eqb x.1.2 q && String.eqb x.2 n) L.

(** The directories without the files that were handled. *)
Definition without (L : list (string * Queue * string))
           (dirs : list (string * GroupDir)) : list (string * GroupDir) :=
  map (fun kv : string * GroupDir =>
         (fst kv,
          {| messagesDir :=
               List.filter (fun f => negb (handled L (fst kv) Messages (file_name f)))
                           (messagesDir (snd kv));
             tasksDir :=
               List.filter (fun f => negb (handled L (fst kv) Tasks (file_name f)))
                           (tasksDir (snd kv)) |})) dirs.

End BrokerSpec.

(** ** More concrete requests and states *)

Module Cases.

(** [{type: sugar_add_project, name: app, projectPath: /srv/app}] *)
Definition addProjectRequest : Ipc.Payload :=
  {| Ipc.type := Some "sugar_add_project"; Ipc.taskId := None; Ipc.p_prompt := None;
     Ipc.schedule_type := None; Ipc.schedule_value := None; Ipc.context_mode := None;
     Ipc.groupFolder := None; Ipc.chatJid := None; Ipc.text := None; Ipc.jid := None;
     Ipc.p_name := Some "app"; Ipc.p_folder := None; Ipc.p_trigger := None;
     Ipc.task := None; Ipc.taskType := None; Ipc.priority := None;
     Ipc.project := None; Ipc.projectName := None; Ipc.p_status := None;
     Ipc.p_limit := None; Ipc.dryRun := false; Ipc.continuous := false;
     Ipc.projectPath := Some "/srv/app"; Ipc.repo := None; Ipc.state := None;
     Ipc.issueNumber := None; Ipc.branch := None; Ipc.title := None;
     Ipc.body := None; Ipc.p_default := false; Ipc.url := None; Ipc.query := None;
     Ipc.p_content := None; Ipc.tags := None; Ipc.sourceId := None |}.


(** [{type: schedule_task, prompt, schedule_type: interval,
    schedule_value: 99999999999999999999, groupFolder: family}] *)
Definition intervalRequest : Ipc.Payload :=
  {| Ipc.type := Some "schedule_task"; Ipc.taskId := None;
     Ipc.p_prompt := Some "Water the plants"; Ipc.schedule_type := Some "interval";
     Ipc.schedule_value := Some "99999999999999999999"; Ipc.context_mode := None;
     Ipc.groupFolder := Some "family"; Ipc.chatJid := None; Ipc.text := None;
     Ipc.jid := None; Ipc.p_name := None; Ipc.p_folder := None; Ipc.p_trigger := None;
     Ipc.task := None; Ipc.taskType := None; Ipc.priority := None; Ipc.project := None;
     Ipc.projectName := None; Ipc.p_status := None; Ipc.p_limit := None;
     Ipc.dryRun := false; Ipc.continuous := false; Ipc.projectPath := None;
     Ipc.repo := None; Ipc.state := None; Ipc.issueNumber := None; Ipc.branch := None;
     Ipc.title := None; Ipc.body := None; Ipc.p_default := false; Ipc.url := None;
     Ipc.query := None; Ipc.p_content := None; Ipc.tags := None;
     Ipc.sourceId := None |}.

(** [{type: sugar_status, project: constructor}] *)
Definition inheritedProjectRequest : Ipc.Payload :=
  {| Ipc.type := Some "sugar_status"; Ipc.taskId := None; Ipc.p_prompt := None;
     Ipc.schedule_type := None; Ipc.schedule_value := None; Ipc.context_mode := None;
     Ipc.groupFolder := None; Ipc.chatJid := None; Ipc.text := None; Ipc.jid := None;
     Ipc.p_name := None; Ipc.p_folder := None; Ipc.p_trigger := None; Ipc.task := None;
     Ipc.taskType := None; Ipc.priority := None; Ipc.project := Some "constructor";
     Ipc.projectName := None; Ipc.p_status := None; Ipc.p_limit := None;
     Ipc.dryRun := false; Ipc.continuous := false; Ipc.projectPath := None;
     Ipc.repo := None; Ipc.state := None; Ipc.issueNumber := None; Ipc.branch := None;
     Ipc.title := None; Ipc.body := None; Ipc.p_default := false; Ipc.url := None;
     Ipc.query := None; Ipc.p_content := None; Ipc.tags := None;
     Ipc.sourceId := None |}.

(** [{type: register_group, jid, name, folder, trigger}] with a null byte in
    the folder *)
Definition nulFolderRequest : Ipc.Payload :=
  {| Ipc.type := Some "register_group"; Ipc.taskId := None; Ipc.p_prompt := None;
     Ipc.schedule_type := None; Ipc.schedule_value := None; Ipc.context_mode := None;
     Ipc.groupFolder := None; Ipc.chatJid := None; Ipc.text := None;
     Ipc.jid := Some "new@g.us"; Ipc.p_name := Some "New";
     Ipc.p_folder := Some (String "000" "new"); Ipc.p_trigger := Some "@New";
     Ipc.task := None; Ipc.taskType := None; Ipc.priority := None; Ipc.project := None;
     Ipc.projectName := None; Ipc.p_status := None; Ipc.p_limit := None;
     Ipc.dryRun := false; Ipc.continuous := false; Ipc.projectPath := None;
     Ipc.repo := None; Ipc.state := None; Ipc.issueNumber := None; Ipc.branch := None;
     Ipc.title := None; Ipc.body := None; Ipc.p_default := false; Ipc.url := None;
     Ipc.query := None; Ipc.p_content := None; Ipc.tags := None;
     Ipc.sourceId := None |}.

(** [{type: github_pr_status, repo}] with a repository name that goes on
    after a semicolon *)
Definition rmRequest : Ipc.Payload :=
  {| Ipc.type := Some "github_pr_status"; Ipc.taskId := None; Ipc.p_prompt := None;
     Ipc.schedule_type := None; Ipc.schedule_value := None; Ipc.context_mode := None;
     Ipc.groupFolder := None; Ipc.chatJid := None; Ipc.text := None; Ipc.jid := None;
     Ipc.p_name := None; Ipc.p_folder := None; Ipc.p_trigger := None; Ipc.task := None;
     Ipc.taskType := None; Ipc.priority := None; Ipc.project := None;
     Ipc.projectName := None; Ipc.p_status := None; Ipc.p_limit := None;
     Ipc.dryRun := false; Ipc.continuous := false; Ipc.projectPath := None;
     Ipc.repo := Some "o/r; rm data/sugar-projects.json #"; Ipc.state := None;
     Ipc.issueNumber := None; Ipc.branch := None; Ipc.title := None; Ipc.body := None;
     Ipc.p_default := false; Ipc.url := None; Ipc.query := None; Ipc.p_content := None;
     Ipc.tags := None; Ipc.sourceId := None |}.

(** [{type: kb_update, url}] *)
Definition videoUpdateRequest : Ipc.Payload :=
  {| Ipc.type := Some "kb_update"; Ipc.taskId := None; Ipc.p_prompt := None;
     Ipc.schedule_type := None; Ipc.schedule_value := None; Ipc.context_mode := None;
     Ipc.groupFolder := None; Ipc.chatJid := None; Ipc.text := None; Ipc.jid := None;
     Ipc.p_name := None; Ipc.p_folder := None; Ipc.p_trigger := None; Ipc.task := None;
     Ipc.taskType := None; Ipc.priority := None; Ipc.project := None;
     Ipc.projectName := None; Ipc.p_status := None; Ipc.p_limit := None;
     Ipc.dryRun := false; Ipc.continuous := false; Ipc.projectPath := None;
     Ipc.repo := None; Ipc.state := None; Ipc.issueNumber := None; Ipc.branch := None;
     Ipc.title := None; Ipc.body := None; Ipc.p_default := false;
     Ipc.url := Some "https://youtu.be/dQw4w9WgXcQ"; Ipc.query := None;
     Ipc.p_content := None; Ipc.tags := None; Ipc.sourceId := None |}.

(** A world in which every URL is a video. *)
Definition videoKb : Kb.World :=
  {| Kb.normalizeUrl := fun u => u;
     Kb.detectSourceType := fun _ => Kb.video;
     Kb.extractOther := fun _ _ => (None, []);
     Kb.YTDLP_PATH := "yt-dlp";
     Kb.subPath := "/tmp/yt-sub-1770000000000.%(ext)s";
     Kb.ytTitle := fun _ => Some "A talk";
     Kb.ytTranscript := fun _ => "";
     Kb.ytDescription := fun _ => None;
     Kb.cleanContent := fun c => c;
     Kb.validateContent := fun _ _ =>
       {| Kb.valid := true; Kb.reason := None; Kb.truncated := false |};
     Kb.MAX_CONTENT_LENGTH := 4096;
     Kb.generateContentHash := fun c => "sha:" +:+ c;
     Kb.chunkText := fun c => [c];
     Kb.generateEmbeddingsBatch := fun cs => (map (fun _ => Some [1%Q]) cs, true);
     Kb.generateEmbedding := fun _ => Some [1%Q];
     Kb.cosineSimilarity := fun _ e => default 0%Q (e !! 0%nat);
     Kb.newSourceId := fun n => "kb-" +:+ pretty n;
     Kb.timestamp := fun n => "t" +:+ pretty n |}.

Definition videoWorld : Ipc.World :=
  {| Ipc.router :=
       {| Router.ASSISTANT_NAME := "Alfred"; Router.kbWorld := videoKb;
          Router.runContainerAgent := Router.runContainerAgent Examples.worldOk;
          Router.sockSend := fun _ _ => true;
          Router.readFails := fun _ => false;
          Router.pollFails := fun _ => false |};
     Ipc.SUGAR_PROJECTS_FILE := Ipc.SUGAR_PROJECTS_FILE Examples.ipcWorld;
     Ipc.execSync := fun _ _ => Some "";
     Ipc.shellWrites := fun _ r => r;
     Ipc.execPid := fun _ => 4242%Z;
     Ipc.killOk := fun _ => true;
     Ipc.existsSync := fun _ => true;
     Ipc.tmpFile := Ipc.tmpFile Examples.ipcWorld;
     Ipc.newTaskId := Ipc.newTaskId Examples.ipcWorld;
     Ipc.nowIso := Ipc.nowIso Examples.ipcWorld;
     Ipc.now := Ipc.now Examples.ipcWorld;
     Ipc.cronNext := fun _ => None;
     Ipc.parseInt := fun _ => None;
     Ipc.isoAfter := fun _ => "";
     Ipc.parseDate := fun _ => None;
     Ipc.sugarTaskLines := fun _ => Some [];
     Ipc.issueLines := fun _ => Some [];
     Ipc.prLines := fun _ => Some [];
     Ipc.parseIssue := fun _ => None |}.

(** A broker that has no project yet. *)
Definition freshBroker : Ipc.State :=
  {| Ipc.host := Examples.hostFilled; Ipc.tasks := []; Ipc.sugarProjects := [];
     Ipc.runningSugarProcesses := []; Ipc.ipcDirs := []; Ipc.errorsDir := [];
     Ipc.trace := [] |}.

(** The agent of the group [family], in its chat. *)
Definition familyAgent : Mcp.IpcMcpContext :=
  {| Mcp.ctx_chatJid := "family@g.us"; Mcp.ctx_groupFolder := "family";
     Mcp.ctx_isMain := false |}.

(** The directory of [family] with a request, a file still being
    written, and a file that is no JSON; and the directory [errors]. *)
Definition busyDirs : list (string * Ipc.GroupDir) :=
  [("family",
    {| Ipc.messagesDir :=
         [Examples.file "1770000000000-ab12cd.json"
                        (Mcp.send_message familyAgent "Dinner is ready");
          {| Ipc.file_name := Mcp.tempPath (Mcp.fileName "1770000000001" "ef34gh");
             Ipc.parsed := Ipc.ParseError |}];
       Ipc.tasksDir :=
         [Examples.file "1770000000002-ij56kl.json" Examples.unknownRequest;
          {| Ipc.file_name := "notes.txt"; Ipc.parsed := Ipc.ParseError |}] |});
   ("errors",
    {| Ipc.messagesDir := [Examples.file "old.json" Examples.unknownRequest];
       Ipc.tasksDir := [] |})].

Definition busyBroker : Ipc.State :=
  {| Ipc.host := Examples.hostFilled; Ipc.tasks := []; Ipc.sugarProjects := [];
     Ipc.runningSugarProcesses := []; Ipc.ipcDirs := busyDirs; Ipc.errorsDir := [];
     Ipc.trace := [] |}.

End Cases.

(** * Properties *)

(** ** The trigger pattern *)

Module TriggerFacts.

Import Trigger.

(** Canonicalize identifies two characters exactly when they are the
    same letter: checked on every pair of characters. *)
Lemma sameLetter_ci_eqb (a b : ascii) : sameLetter a b = ci_eqb a b.
Proof.
  assert (forall c : ascii, In c (map ascii_of_nat (seq 0 256))) as Hall.
  { intros c. rewrite <- (ascii_nat_embedding c). apply in_map, in_seq.
    pose proof (nat_ascii_bounded c). lia. }
  assert (forallb (fun x =>
                     forallb (fun y => Bool.eqb (sameLetter x y) (ci_eqb x y))
                             (map ascii_of_nat (seq 0 256)))
                  (map ascii_of_nat (seq 0 256)) = true) as H
      by (vm_compute; reflexivity).
  rewrite forallb_forall in H. specialize (H a (Hall a)).
  rewrite forallb_forall in H. specialize (H b (Hall b)).
  apply Bool.eqb_prop, H.
Qed.

Lemma special_not_b (c : ascii) : is_special c = true -> Ascii.eqb c "b"%char = false.
Proof.
  destruct (Ascii.eqb_spec c "b"%char) as [-> | _]; [discriminate | reflexivity].
Qed.

Lemma special_backslash : is_special "\"%char = true.
Proof. reflexivity. Qed.

Lemma not_special_plain (c : ascii) :
  is_special c = false ->
  Ascii.eqb c "\"%char = false /\ Ascii.eqb c "^"%char = false.
Proof.
  intros H; split.
  - destruct (Ascii.eqb_spec c "\"%char) as [-> | _]; [discriminate | reflexivity].
  - destruct (Ascii.eqb_spec c "^"%char) as [-> | _]; [discriminate | reflexivity].
Qed.

(** Escaping then reading gives back the characters, as literals. *)
Lemma parse_escapeRegex (n rest : string) :
  parse (escapeRegex n +:+ rest)
  = (fun atoms => map ALit (list_ascii_of_string n) ++ atoms) <$> parse rest.
Proof.
  induction n as [|c n IH]; simpl.
  - change ("" +:+ rest) with rest. destruct (parse rest); reflexivity.
  - destruct (is_special c) eqn:Hc.
    + change (String "\" (String c (escapeRegex n)) +:+ rest)
        with (String "\"%char (String c (escapeRegex n +:+ rest))).
      cbn [parse]. rewrite Ascii.eqb_refl, (special_not_b c Hc), Hc, IH.
      destruct (parse rest); reflexivity.
    + change (String c (escapeRegex n) +:+ rest)
        with (String c (escapeRegex n +:+ rest)).
      cbn [parse]. destruct (not_special_plain c Hc) as [-> ->].
      rewrite Hc, IH. destruct (parse rest); reflexivity.
Qed.

Lemma parse_buildTriggerPattern (t : string) :
  parse (buildTriggerPattern t)
  = Some (AStart :: ALit "@"%char
            :: map ALit (list_ascii_of_string (getAssistantNameFromTrigger t))
            ++ [AWordB]).
Proof.
  unfold buildTriggerPattern, getAssistantNameFromTrigger.
  set (n := if Js.startsWith "@" t then Js.slice1 t else t).
  change ("^@" +:+ escapeRegex n +:+ "\b")
    with (String "^"%char (String "@"%char (escapeRegex n +:+ "\b"))).
  cbn [parse]. change (Ascii.eqb "^" "\") with false.
  change (Ascii.eqb "^" "^") with true. cbn match.
  change (Ascii.eqb "@" "\") with false. change (Ascii.eqb "@" "^") with false.
  change (is_special "@") with false. cbn match.
  rewrite parse_escapeRegex. reflexivity.
Qed.

(** Behind index 0 the anchor never matches. *)
Lemma search_anchored_later (atoms : list atom) (prev : option ascii) (s : string) :
  search (AStart :: atoms) prev false s = false.
Proof.
  revert prev; induction s as [|c s IH]; intros prev; simpl; [reflexivity|].
  apply IH.
Qed.

Lemma search_anchored (atoms : list atom) (s : string) :
  search (AStart :: atoms) None true s = match_here atoms None true s.
Proof.
  destruct s as [|c s]; simpl.
  - apply orb_false_r.
  - rewrite search_anchored_later. apply orb_false_r.
Qed.

(** A run of literals followed by a word boundary. *)
Lemma match_literals (p : string) :
  forall (prev : option ascii) (at0 : bool) (c : string),
    match_here (map ALit (list_ascii_of_string p) ++ [AWordB]) prev at0 c = true
    <-> exists u v : string,
          c = u +:+ v /\ ci_equal p u = true /\
          is_word (lastChar prev u) <> is_word (head v).
Proof.
  induction p as [|a p IH]; intros prev at0 c; simpl.
  - rewrite andb_true_r. split.
    + intros H. exists "", c. split; [reflexivity|]. split; [reflexivity|].
      simpl. destruct (is_word prev), (is_word (head c)); simpl in H; congruence.
    + intros (u & v & Hc & Hu & Hb). destruct u; [|discriminate].
      change ("" +:+ v) with v in Hc. subst c. simpl in Hb.
      destruct (is_word prev), (is_word (head v)); simpl; congruence.
  - destruct c as [|d c].
    + split; [discriminate|]. intros (u & v & Hc & Hu & _).
      destruct u; [discriminate|]. discriminate.
    + rewrite andb_true_iff, IH. split.
      * intros (Had & u & v & -> & Hu & Hb). exists (String d u), v.
        split; [reflexivity|]. split; [simpl; rewrite sameLetter_ci_eqb, Had, Hu; reflexivity|].
        exact Hb.
      * intros (u & v & Hc & Hu & Hb). destruct u as [|d' u]; [discriminate|].
        simpl in Hc. injection Hc as <- ->. simpl in Hu.
        apply andb_true_iff in Hu as [Had Hu]. rewrite sameLetter_ci_eqb in Had.
        split; [exact Had|].
        exists u, v. split; [reflexivity|]. split; assumption.
Qed.

(** The test the filter runs is the one its specification describes:
    the content begins with [@<name>], up to case, at a word boundary. *)
Lemma triggerTest_spec (t c : string) :
  triggerTest t c = true
  <-> StartsWithWord ("@" +:+ getAssistantNameFromTrigger t) c.
Proof.
  unfold triggerTest, regex_test_i. rewrite parse_buildTriggerPattern. simpl.
  rewrite search_anchored.
  change (ALit "@"%char :: map ALit (list_ascii_of_string (getAssistantNameFromTrigger t))
            ++ [AWordB])
    with (map ALit (list_ascii_of_string ("@" +:+ getAssistantNameFromTrigger t))
            ++ [AWordB]).
  apply match_literals.
Qed.

End TriggerFacts.

(** ** The router *)

Module RouterFacts.

Import Router.

Lemma buildPrompt_truthy (missed : list NewMessage) :
  Js.truthy (buildPrompt missed) = true.
Proof. reflexivity. Qed.


(** [runAgent] records exactly one run and leaves the time stamps, the
    groups and the message table alone. *)
Lemma runAgent_frame (w : World) (g : RegisteredGroup) (p j : string)
      (l : option string) (s : State) :
  let s' := (runAgent w g p j l s).2 in
  runs s' = runs s ++ [agentInput w g p j l s]
  /\ lastTimestamp s' = lastTimestamp s
  /\ lastAgentTimestamp s' = lastAgentTimestamp s
  /\ registeredGroups s' = registeredGroups s
  /\ db s' = db s /\ outbox s' = outbox s.
Proof.
  unfold runAgent.
  destruct (runContainerAgent w g (agentInput w g p j l s)) as [out | e]; simpl.
  - destruct (newSessionId out) as [sid|]; [destruct (Js.truthy sid)|];
      destruct (status out); simpl; auto 10.
  - auto 10.
Qed.



Lemma sendMessage_frame (w : World) (j t : string) (s : State) :
  let s' := sendMessage w j t s in
  runs s' = runs s /\ lastTimestamp s' = lastTimestamp s
  /\ registeredGroups s' = registeredGroups s /\ db s' = db s
  /\ sessions s' = sessions s /\ sessions_file s' = sessions_file s
  /\ outbox s' = outbox s ++ (if sockSend w j t then [(j, t)] else []).
Proof.
  unfold sendMessage. destruct (sockSend w j t); simpl; rewrite ?app_nil_r; auto 10.
Qed.

(** The ways through [processMessage]. *)
Lemma processMessage_unregistered (w : World) (msg : NewMessage) (s : State) :
  lookupGroup (chat_jid msg) (registeredGroups s) = None ->
  processMessage w msg s = (Resolved (), s).
Proof. unfold processMessage. intros ->. reflexivity. Qed.

Lemma processMessage_filtered (w : World) (msg : NewMessage) (s : State)
      (g : RegisteredGroup) :
  lookupGroup (chat_jid msg) (registeredGroups s) = Some g ->
  passesTrigger g (content msg) = false ->
  processMessage w msg s = (Resolved (), s).
Proof. unfold processMessage. intros -> ->. reflexivity. Qed.

Lemma processMessage_read_fails (w : World) (msg : NewMessage) (s : State)
      (g : RegisteredGroup) :
  lookupGroup (chat_jid msg) (registeredGroups s) = Some g ->
  passesTrigger g (content msg) = true ->
  readFails w (chat_jid msg) = true ->
  processMessage w msg s = (Rejected "store read failed", s).
Proof. unfold processMessage. intros -> -> ->. reflexivity. Qed.

Lemma processMessage_runs_agent (w : World) (msg : NewMessage) (s : State)
      (g : RegisteredGroup) :
  lookupGroup (chat_jid msg) (registeredGroups s) = Some g ->
  passesTrigger g (content msg) = true ->
  readFails w (chat_jid msg) = false ->
  exists s1,
    processMessage w msg s = (Resolved (), s1)
    /\ runs s1 = runs s ++ [messageInput w g msg s]
    /\ lastTimestamp s1 = lastTimestamp s
    /\ db s1 = db s /\ registeredGroups s1 = registeredGroups s
    /\ forall r, (runAgent w g (buildPrompt (contextWindow g msg s)) (chat_jid msg)
                           (content <$> last (contextWindow g msg s)) s).1 = Some r ->
                 Js.truthy r = true ->
                 outbox s1 = outbox s ++
                   (if sockSend w (chat_jid msg) (responsePrefixOf w g +:+ ": " +:+ r)
                    then [(chat_jid msg, responsePrefixOf w g +:+ ": " +:+ r)]
                    else []).
Proof.
  intros Hg Hp Hr. unfold processMessage. rewrite Hg, Hp, Hr. cbn [negb].
  fold (contextWindow g msg s). rewrite buildPrompt_truthy. cbn [negb].
  pose proof (runAgent_frame w g (buildPrompt (contextWindow g msg s)) (chat_jid msg)
                             (content <$> last (contextWindow g msg s)) s) as HF.
  cbn zeta in HF.
  destruct (runAgent w g (buildPrompt (contextWindow g msg s)) (chat_jid msg)
                     (content <$> last (contextWindow g msg s)) s) as [resp s1] eqn:HR.
  cbn [fst snd] in *. destruct HF as (Hruns & Hts & Hats & Hgs & Hdb & Hout).
  fold (messageInput w g msg s) in Hruns.
  destruct resp as [r|]; [destruct (Js.truthy r) eqn:Htr|].
  - eexists; split; [reflexivity|].
    match goal with |- context [sendMessage w ?j ?t ?st] =>
      pose proof (sendMessage_frame w j t st) as HS end.
    cbn zeta in HS. destruct HS as (S1 & S2 & S3 & S4 & _ & _ & S7).
    rewrite S1, S2, S3, S4. cbn [runs lastTimestamp registeredGroups db setLastAgentTimestamp].
    repeat split; try assumption.
    intros r' [= <-] _. rewrite S7. cbn [outbox setLastAgentTimestamp]. rewrite Hout.
    unfold responsePrefixOf. reflexivity.
  - eexists; split; [reflexivity|]. repeat split; try assumption.
    intros r' [= <-] Ht. congruence.
  - eexists; split; [reflexivity|]. repeat split; try assumption.
    intros r' [=].
Qed.

(** Handling raises exactly when the store cannot be read for a message
    that passed the filter; the state is then the one it started from. *)
Lemma processMessage_rejected_iff (w : World) (msg : NewMessage) (s : State) :
  (exists e s', processMessage w msg s = (Rejected e, s'))
  <-> exists g, lookupGroup (chat_jid msg) (registeredGroups s) = Some g
                /\ passesTrigger g (content msg) = true
                /\ readFails w (chat_jid msg) = true.
Proof.
  split.
  - intros (e & s' & H).
    destruct (lookupGroup (chat_jid msg) (registeredGroups s)) as [g|] eqn:Hg.
    2:{ rewrite processMessage_unregistered in H by assumption. discriminate. }
    destruct (passesTrigger g (content msg)) eqn:Hp.
    2:{ rewrite (processMessage_filtered _ _ _ g) in H by assumption. discriminate. }
    destruct (readFails w (chat_jid msg)) eqn:Hr.
    + exists g. auto.
    + destruct (processMessage_runs_agent w msg s g Hg Hp Hr) as (s1 & E & _).
      rewrite E in H. discriminate.
  - intros (g & Hg & Hp & Hr). do 2 eexists.
    apply (processMessage_read_fails _ _ _ g); assumption.
Qed.

Lemma processMessage_rejected_state (w : World) (msg : NewMessage) (s s' : State)
      (e : string) :
  processMessage w msg s = (Rejected e, s') -> s' = s.
Proof.
  intros H.
  destruct (proj1 (processMessage_rejected_iff w msg s)) as (g & Hg & Hp & Hr).
  { eauto. }
  rewrite (processMessage_read_fails _ _ _ g Hg Hp Hr) in H. congruence.
Qed.

End RouterFacts.

Module IntakeClaims.

Import Router RouterFacts.

Lemma passesTrigger_spec (g : RegisteredGroup) (c : string) :
  passesTrigger g c = true
  <-> folder g = MAIN_GROUP_FOLDER
      \/ Trigger.StartsWithWord
           ("@" +:+ Trigger.getAssistantNameFromTrigger (trigger g)) (Js.trim c).
Proof.
  unfold passesTrigger.
  destruct (String.eqb_spec (folder g) MAIN_GROUP_FOLDER) as [Hm | Hm]; cbn [negb].
  - split; auto.
  - rewrite TriggerFacts.triggerTest_spec. split; [auto | intros [? | ?]; [contradiction | assumption]].
Qed.

(** C7, as the code has it.  For a message of a registered group whose context
    can be read, the agent is run exactly when the group is [main] or the
    trimmed content begins, up to the case of letters, with [@<name>] at a
    word boundary, where [<name>] is the group's trigger without one
    leading [@]; a message that does not qualify changes nothing.  With
    the trigger [@Alfred], the content [@AlfredXYZ foo] does not
    qualify; the content [@Alfred status please] after a no-break space
    does, the space being trimmed away; and a trigger with an accented
    capital is met by a content with the small letter.  (Contents and
    triggers are strings of code units below 256; "up to the case of
    letters" is [Trigger.ci_equal], spelled out letter by letter.) *)
Theorem trigger_filter (w : World) (msg : NewMessage) (s : State) (g : RegisteredGroup) :
  lookupGroup (chat_jid msg) (registeredGroups s) = Some g ->
  readFails w (chat_jid msg) = false ->
  let s' := (processMessage w msg s).2 in
  let fires :=
    folder g = MAIN_GROUP_FOLDER
    \/ Trigger.StartsWithWord
         ("@" +:+ Trigger.getAssistantNameFromTrigger (trigger g))
         (Js.trim (content msg)) in
  (fires -> runs s' = runs s ++ [messageInput w g msg s])
  /\ (~ fires -> s' = s)
  /\ passesTrigger {| name := "Family"; folder := "family"; trigger := "@Alfred";
                      added_at := "" |} "@AlfredXYZ foo" = false
  /\ passesTrigger {| name := "Family"; folder := "family"; trigger := "@Alfred";
                      added_at := "" |} (String "160" "@Alfred status please") = true
  /\ passesTrigger {| name := "Elan"; folder := "elan";
                      trigger := String "@" (String "201" "lan"); added_at := "" |}
                   (String "@" (String "233" "lan, are you there?")) = true.
Proof.
  intros Hg Hr s' fires. subst s' fires. split; [|split].
  - intros Hf. apply passesTrigger_spec in Hf.
    destruct (processMessage_runs_agent w msg s g Hg Hf Hr) as (s1 & E & Hruns & _).
    rewrite E. exact Hruns.
  - intros Hnf. rewrite (processMessage_filtered w msg s g Hg); [reflexivity|].
    destruct (passesTrigger g (content msg)) eqn:Hp; [|reflexivity].
    exfalso. apply Hnf, passesTrigger_spec, Hp.
  - split; [reflexivity|]. split; reflexivity.
Qed.

Lemma trigger_filter_witness :
  lookupGroup (chat_jid Examples.m1) (registeredGroups Examples.s0) = Some Examples.family
  /\ readFails Examples.worldOk (chat_jid Examples.m1) = false
  /\ runs (processMessage Examples.worldOk Examples.m1 Examples.s0).2
     = runs Examples.s0
       ++ [messageInput Examples.worldOk Examples.family Examples.m1 Examples.s0].
Proof.
  split; [reflexivity|]. split; [reflexivity|].
  apply (trigger_filter Examples.worldOk Examples.m1 Examples.s0 Examples.family
                        eq_refl eq_refl).
  right. exists "@Alfred", " status please".
  split; [reflexivity|]. split; [reflexivity|]. discriminate.
Defined.

(** The filter is not the pattern [^<trigger>\b] on the content.  A
    trigger written without [@]: the content matches that pattern and no
    agent runs.  A blank before the trigger: the content does not match
    it and the agent runs. *)
Lemma trigger_pattern_counterexample :
  (Trigger.spec_trigger_match (trigger Examples.plain) (content Examples.mPlain) = true
   /\ runs (processMessage Examples.worldOk Examples.mPlain Examples.s0).2 = [])
  /\ (Trigger.spec_trigger_match (trigger Examples.family) (content Examples.mBlank) = false
      /\ runs (processMessage Examples.worldOk Examples.mBlank Examples.s0).2
         = [messageInput Examples.worldOk Examples.family Examples.mBlank Examples.s0]).
Proof. vm_compute. repeat split. Qed.

(** C3, as the code has it.  The stored session of the group changes exactly when
    the container's response carries a non-empty [newSessionId], and then
    it becomes that id, whatever the status of the response; a response
    without one, and a run that is rejected, leave the mapping and its
    file as they were. *)
Theorem session_update (w : World) (g : RegisteredGroup) (p j : string)
        (l : option string) (s : State) :
  let s' := (runAgent w g p j l s).2 in
  let outcome := runContainerAgent w g (agentInput w g p j l s) in
  (forall out sid,
      outcome = Resolved out -> newSessionId out = Some sid -> sid <> "" ->
      sessions s' = <[folder g := sid]> (sessions s)
      /\ sessions_file s' = <[folder g := sid]> (sessions s))
  /\ (forall out,
         outcome = Resolved out ->
         newSessionId out = None \/ newSessionId out = Some "" ->
         sessions s' = sessions s /\ sessions_file s' = sessions_file s)
  /\ (forall e,
         outcome = Rejected e ->
         sessions s' = sessions s /\ sessions_file s' = sessions_file s).
Proof.
  cbn zeta. unfold runAgent. split; [|split].
  - intros out sid -> Hsid Hne. rewrite Hsid.
    assert (Js.truthy sid = true) as ->.
    { unfold Js.truthy. destruct (String.eqb_spec sid ""); [contradiction | reflexivity]. }
    destruct (status out); split; reflexivity.
  - intros out -> [Hn | Hn]; rewrite Hn; cbn; destruct (status out); split; reflexivity.
  - intros e ->. split; reflexivity.
Qed.

(** A response with status [error] that carries a session id replaces the
    stored one. *)
Lemma session_update_counterexample :
  (exists out,
      runContainerAgent Examples.worldError Examples.family
        (messageInput Examples.worldError Examples.family Examples.m1 Examples.s0)
      = Resolved out
      /\ status out = error)
  /\ sessions Examples.s0 !! "family" = Some "s1"
  /\ sessions (processMessage Examples.worldError Examples.m1 Examples.s0).2 !! "family"
     = Some "s2"
  /\ sessions_file (processMessage Examples.worldError Examples.m1 Examples.s0).2 !! "family"
     = Some "s2".
Proof.
  split; [eexists; split; reflexivity|]. vm_compute. repeat split.
Qed.

Lemma session_update_witness :
  runContainerAgent Examples.worldOk Examples.family
    (agentInput Examples.worldOk Examples.family "p" "family@g.us" None Examples.s0)
  = Resolved {| status := ok; result := Some "All good."; newSessionId := Some "s2";
                output_error := None |}
  /\ sessions (runAgent Examples.worldOk Examples.family "p" "family@g.us" None
                        Examples.s0).2
     = <["family" := "s2"]> (sessions Examples.s0).
Proof.
  split; [reflexivity|].
  destruct (session_update Examples.worldOk Examples.family "p" "family@g.us" None
                           Examples.s0) as (Hset & _).
  refine (proj1 (Hset _ "s2" eq_refl eq_refl _)). discriminate.
Defined.






(** For the record: a reply the transport refuses leaves no trace either,
    and the time stamp moves all the same. *)
Lemma refused_reply_example :
  outbox (pollOnce Examples.worldNoSend Examples.s0) = []
  /\ lastTimestamp (pollOnce Examples.worldNoSend Examples.s0) = "2026-02-01T10:00:01Z".
Proof. vm_compute. split; reflexivity. Qed.

End IntakeClaims.

(** ** Search *)

Module SearchFacts.

Import Kb SearchSpec.

Local Open Scope Q_scope.

Lemma insertDesc_perm (x : SearchResult) (l : list SearchResult) :
  insertDesc x l ≡ₚ x :: l.
Proof.
  induction l as [|y l IH]; simpl; [reflexivity|].
  destruct (Qlt_le_dec (similarity x) (similarity y)); [|reflexivity].
  rewrite IH. apply perm_swap.
Qed.

Lemma sortDesc_perm (l : list SearchResult) : sortDesc l ≡ₚ l.
Proof.
  induction l as [|x l IH]; simpl; [reflexivity|].
  unfold sortDesc in *. simpl. rewrite insertDesc_perm, IH. reflexivity.
Qed.

Lemma insertDesc_sorted (x : SearchResult) (l : list SearchResult) :
  StronglySorted Desc l -> StronglySorted Desc (insertDesc x l).
Proof.
  induction l as [|y l IH]; intros Hs; simpl.
  - repeat constructor.
  - apply StronglySorted_inv in Hs as [Hs Hy].
    destruct (Qlt_le_dec (similarity x) (similarity y)) as [Hlt | Hle].
    + constructor; [apply IH, Hs|].
      rewrite insertDesc_perm. constructor; [|exact Hy].
      unfold Desc. apply Qlt_le_weak, Hlt.
    + constructor; [constructor; assumption|].
      constructor; [exact Hle|].
      eapply Forall_impl; [exact Hy|]. unfold Desc. intros z Hz.
      eapply Qle_trans; eassumption.
Qed.

Lemma sortDesc_sorted (l : list SearchResult) : StronglySorted Desc (sortDesc l).
Proof.
  induction l as [|x l IH]; [constructor|].
  unfold sortDesc in *. simpl. apply insertDesc_sorted, IH.
Qed.

Lemma StronglySorted_take_desc (n : nat) (l : list SearchResult) :
  StronglySorted Desc l -> StronglySorted Desc (take n l).
Proof.
  rewrite <- (take_drop n l) at 1. apply StronglySorted_app_1_l.
Qed.

Lemma elem_of_take_l {A} (x : A) (n : nat) (l : list A) : x ∈ take n l -> x ∈ l.
Proof.
  intros H. apply elem_of_take in H as (i & Hi & _).
  apply list_elem_of_lookup. eauto.
Qed.

(** *** A slice is a prefix *)

Lemma slice0_take {A} (l : list A) (n : Z) : exists k, slice0 l n = take k l.
Proof. unfold slice0. destruct (n <? 0)%Z; eauto. Qed.

Lemma slice0_length {A} (l : list A) (n : Z) :
  (0 <= n)%Z -> (Z.of_nat (length (slice0 l n)) <= n)%Z.
Proof.
  intros Hn. unfold slice0. destruct (Z.ltb_spec n 0) as [? | _]; [lia|].
  rewrite length_take. lia.
Qed.

(** *** The map of best results *)

Lemma mapGet_Some (k : string) (m : list (string * SearchResult)) (v : SearchResult) :
  mapGet k m = Some v -> (k, v) ∈ m.
Proof.
  unfold mapGet. induction m as [|[k' v'] m IH]; simpl; [discriminate|].
  destruct (String.eqb_spec k' k) as [-> | Hne]; simpl.
  - intros [= ->]. left.
  - intros H. right. apply IH, H.
Qed.

Lemma mapGet_None (k : string) (m : list (string * SearchResult)) :
  mapGet k m = None -> k ∉ m.*1.
Proof.
  unfold mapGet. induction m as [|[k' v'] m IH]; simpl.
  - intros _ H. inversion H.
  - destruct (String.eqb_spec k' k) as [-> | Hne]; simpl; [discriminate|].
    intros H Hin. apply elem_of_cons in Hin as [-> | Hin]; [congruence|].
    exact (IH H Hin).
Qed.

Lemma mapSet_fresh (k : string) (v : SearchResult) (m : list (string * SearchResult)) :
  k ∉ m.*1 -> mapSet k v m = m ++ [(k, v)].
Proof.
  induction m as [|[k0 v0] m IH]; simpl; [reflexivity|].
  intros Hk. apply not_elem_of_cons in Hk as [Hne Hk].
  destruct (String.eqb_spec k0 k) as [-> | _]; [contradiction|].
  rewrite IH by assumption. reflexivity.
Qed.

Lemma mapSet_keys (k : string) (v : SearchResult) (m : list (string * SearchResult)) :
  k ∈ m.*1 -> (mapSet k v m).*1 = m.*1.
Proof.
  induction m as [|[k0 v0] m IH]; simpl.
  - intros H. inversion H.
  - intros Hk. destruct (String.eqb_spec k0 k) as [-> | Hne]; [reflexivity|].
    simpl. f_equal. apply IH.
    apply elem_of_cons in Hk as [-> | Hk]; [contradiction | exact Hk].
Qed.

Lemma mapSet_elem (k : string) (v : SearchResult) (m : list (string * SearchResult))
      (k' : string) (v' : SearchResult) :
  NoDup m.*1 ->
  (k', v') ∈ mapSet k v m ->
  (k' = k /\ v' = v) \/ (k' <> k /\ (k', v') ∈ m).
Proof.
  induction m as [|[k0 v0] m IH]; simpl; intros Hnd H.
  - apply list_elem_of_singleton in H as [= -> ->]. auto.
  - apply NoDup_cons in Hnd as [Hk0 Hnd].
    destruct (String.eqb_spec k0 k) as [-> | Hne].
    + apply elem_of_cons in H as [[= -> ->] | H]; [auto|].
      right. split; [|right; exact H].
      intros ->. apply Hk0. apply (list_elem_of_fmap_2 fst) in H. exact H.
    + apply elem_of_cons in H as [[= -> ->] | H].
      * right. split; [exact Hne | left].
      * destruct (IH Hnd H) as [? | [? ?]]; [auto|].
        right. split; [assumption | right; assumption].
Qed.

Lemma keys_functional (m : list (string * SearchResult)) (k : string)
      (v1 v2 : SearchResult) :
  NoDup m.*1 -> (k, v1) ∈ m -> (k, v2) ∈ m -> v1 = v2.
Proof.
  induction m as [|[k0 v0] m IH]; simpl; intros Hnd H1 H2; [inversion H1|].
  apply NoDup_cons in Hnd as [Hk0 Hnd].
  apply elem_of_cons in H1 as [E1 | H1];
    apply elem_of_cons in H2 as [E2 | H2]; simplify_eq.
  - reflexivity.
  - exfalso. apply Hk0. apply (list_elem_of_fmap_2 fst) in H2. exact H2.
  - exfalso. apply Hk0. apply (list_elem_of_fmap_2 fst) in H1. exact H1.
  - exact (IH Hnd H1 H2).
Qed.

Lemma Best_nil : Best [] [].
Proof.
  split.
  - constructor.
  - intros k v H. inversion H.
  - intros r H. inversion H.
Qed.

(** One turn of the loop keeps the map a map of best results. *)
Lemma Best_step (seen : list SearchResult) (m : list (string * SearchResult))
      (r : SearchResult) :
  Best seen m ->
  Best (seen ++ [r])
       (match mapGet (sr_source_id r) m with
        | Some existing =>
            if Qlt_le_dec (similarity existing) (similarity r)
            then mapSet (sr_source_id r) r m
            else m
        | None => mapSet (sr_source_id r) r m
        end).
Proof.
  intros [Hnd Hentry Hcover].
  destruct (mapGet (sr_source_id r) m) as [ex|] eqn:Hget.
  - apply mapGet_Some in Hget as Hex.
    destruct (Hentry _ _ Hex) as (Hexk & Hexin & Hexbest).
    assert (sr_source_id r ∈ m.*1) as Hkey.
    { apply (list_elem_of_fmap_2 fst) in Hex. exact Hex. }
    destruct (Qlt_le_dec (similarity ex) (similarity r)) as [Hlt | Hle].
    + split.
      * rewrite mapSet_keys by assumption. exact Hnd.
      * intros k v Hin. destruct (mapSet_elem _ _ _ _ _ Hnd Hin) as [[-> ->] | [Hne Hin']].
        -- split; [reflexivity|]. split; [apply elem_of_app; right; left|].
           intros r' Hr' Hk'. apply elem_of_app in Hr' as [Hr' | Hr'].
           ++ apply Qle_trans with (similarity ex); [auto | apply Qlt_le_weak, Hlt].
           ++ apply list_elem_of_singleton in Hr' as ->. apply Qle_refl.
        -- destruct (Hentry _ _ Hin') as (Hk & Hv & Hb).
           split; [exact Hk|]. split; [apply elem_of_app; left; exact Hv|].
           intros r' Hr' Hk'. apply elem_of_app in Hr' as [Hr' | Hr']; [auto|].
           apply list_elem_of_singleton in Hr' as ->. congruence.
      * intros r' Hr'. rewrite mapSet_keys by assumption.
        apply elem_of_app in Hr' as [Hr' | Hr']; [auto|].
        apply list_elem_of_singleton in Hr' as ->. exact Hkey.
    + split.
      * exact Hnd.
      * intros k v Hin. destruct (Hentry _ _ Hin) as (Hk & Hv & Hb).
        split; [exact Hk|]. split; [apply elem_of_app; left; exact Hv|].
        intros r' Hr' Hk'. apply elem_of_app in Hr' as [Hr' | Hr']; [auto|].
        apply list_elem_of_singleton in Hr' as ->.
        (* the entry under the source of [r] is [ex] *)
        assert (v = ex) as ->.
        { rewrite Hk' in Hex. exact (keys_functional _ _ _ _ Hnd Hin Hex). }
        exact Hle.
      * intros r' Hr'. apply elem_of_app in Hr' as [Hr' | Hr']; [auto|].
        apply list_elem_of_singleton in Hr' as ->. exact Hkey.
  - apply mapGet_None in Hget as Hfresh. rewrite mapSet_fresh by assumption. split.
    + rewrite fmap_app. apply NoDup_app. split; [exact Hnd|]. split.
      * intros k Hk Hk'. apply list_elem_of_singleton in Hk' as ->. contradiction.
      * apply NoDup_singleton.
    + intros k v Hin. apply elem_of_app in Hin as [Hin | Hin].
      * destruct (Hentry _ _ Hin) as (Hk & Hv & Hb).
        split; [exact Hk|]. split; [apply elem_of_app; left; exact Hv|].
        intros r' Hr' Hk'. apply elem_of_app in Hr' as [Hr' | Hr']; [auto|].
        apply list_elem_of_singleton in Hr' as ->. exfalso. apply Hfresh.
        rewrite Hk'. apply (list_elem_of_fmap_2 fst) in Hin. exact Hin.
      * apply list_elem_of_singleton in Hin as [= -> ->].
        split; [reflexivity|]. split; [apply elem_of_app; right; left|].
        intros r' Hr' Hk'. apply elem_of_app in Hr' as [Hr' | Hr'].
        -- exfalso. apply Hfresh. rewrite <- Hk'. apply Hcover, Hr'.
        -- apply list_elem_of_singleton in Hr' as ->. apply Qle_refl.
    + intros r' Hr'. rewrite fmap_app. apply elem_of_app.
      apply elem_of_app in Hr' as [Hr' | Hr']; [left; auto|].
      apply list_elem_of_singleton in Hr' as ->. right. left.
Qed.

Lemma bestBySource_Best (results : list SearchResult) :
  Best results (bestBySource results).
Proof.
  unfold bestBySource.
  enough (forall rs seen m, Best seen m ->
            Best (seen ++ rs)
                 (foldl (fun m r =>
                           match mapGet (sr_source_id r) m with
                           | Some existing =>
                               if Qlt_le_dec (similarity existing) (similarity r)
                               then mapSet (sr_source_id r) r m
                               else m
                           | None => mapSet (sr_source_id r) r m
                           end) m rs)) as H.
  { apply (H results [] []), Best_nil. }
  induction rs as [|r rs IH]; intros seen m Hb; simpl.
  - rewrite app_nil_r. exact Hb.
  - rewrite (cons_middle r seen rs), app_assoc. apply IH, Best_step, Hb.
Qed.

(** The values of a map of best results: one per source, each the best
    of its source. *)
Lemma Best_values (seen : list SearchResult) (m : list (string * SearchResult)) :
  Best seen m ->
  NoDup (sr_source_id <$> m.*2)
  /\ forall v, v ∈ m.*2 ->
               v ∈ seen
               /\ forall r, r ∈ seen -> sr_source_id r = sr_source_id v ->
                            similarity r <= similarity v.
Proof.
  intros [Hnd Hentry _]. split.
  - assert (sr_source_id <$> m.*2 = m.*1) as ->; [|exact Hnd].
    clear Hnd. induction m as [|[k v] m IH]; simpl; [reflexivity|].
    destruct (Hentry k v) as (-> & _); [left|]. f_equal. apply IH.
    intros k' v' Hin. apply Hentry. right. exact Hin.
  - intros v Hv. apply list_elem_of_fmap in Hv as ([k v'] & -> & Hin). simpl.
    destruct (Hentry _ _ Hin) as (Hk & Hseen & Hb). split; [exact Hseen|].
    intros r Hr Hsrc. apply Hb; [exact Hr | congruence].
Qed.

Lemma scoreRows_threshold (w : World) (qe : Embedding) (minSim : Q)
      (rows : list SearchRow) (r : SearchResult) :
  r ∈ scoreRows w qe minSim rows -> minSim <= similarity r.
Proof.
  unfold scoreRows. intros Hr. apply list_elem_of_filter in Hr as [Hq _].
  apply Qle_bool_iff, Hq.
Qed.

(** [slice(0, n)] with a negative [n] drops the last [-n] entries. *)
Lemma slice0_negative {A} (l : list A) (n : Z) :
  (n < 0)%Z -> slice0 l n = take (length l - Z.to_nat (- n)) l.
Proof.
  intros Hn. unfold slice0. destruct (Z.ltb_spec n 0) as [_ | ?]; [|lia].
  f_equal. lia.
Qed.

(** The default threshold is the double the literal [0.7] stands for:
    below 7/10 by less than 2^-54. *)
Lemma default_minSimilarity_value :
  default_minSimilarity < 7 # 10
  /\ (7 # 10) - default_minSimilarity < 1 # 18014398509481984.
Proof. split; reflexivity. Qed.

(** C6, as the code has it.  For every search: every result is a scored
    row in scope with similarity at least [min_similarity] (the double
    0.7 when not given); the list is in descending similarity; with
    [dedupe_by_source] (the default) no two results share a source and no
    row in scope of a result's source is more similar to the query than
    the result; and when the embeddings provider is unavailable, or
    yields no vector for the query, the list is empty.  The list has at
    most [limit] entries (10 when not given) when the limit is not
    negative; a negative limit cuts the last [-limit] entries off the
    ranked list and keeps the rest. *)
Theorem search_results (w : World) (q : string) (o : SearchOptions) (st : KbState) :
  let res := search w q o st in
  let lim := default default_limit (limit o) in
  let minSim := default default_minSimilarity (minSimilarity o) in
  Forall (fun r => r ∈ candidates w q o st /\ minSim <= similarity r) res
  /\ StronglySorted Desc res
  /\ (default true (dedupeBySource o) = true ->
      NoDup (sr_source_id <$> res)
      /\ forall r qe row,
          r ∈ res -> generateEmbedding w q = Some qe ->
          row ∈ selectRows (so_groupFolder o) st ->
          row_source_id row = sr_source_id r ->
          cosineSimilarity w qe (row_embedding row) <= similarity r)
  /\ ((0 <= lim)%Z -> (Z.of_nat (length res) <= lim)%Z)
  /\ ((lim < 0)%Z -> available st = true ->
      res = take (length (ranked w q o st) - Z.to_nat (- lim)) (ranked w q o st))
  /\ (available st = false \/ generateEmbedding w q = None -> res = []).
Proof.
  intros res lim minSim. subst res. unfold search, ranked, candidates.
  fold lim minSim.
  destruct (available st) eqn:Hav; cbn [negb].
  2:{ repeat split; try constructor; try reflexivity; try (cbn; lia);
        try discriminate.
      intros r qe row Hr. inversion Hr. }
  destruct (generateEmbedding w q) as [qe|] eqn:Hqe.
  2:{ repeat split; try constructor; try reflexivity; try (cbn; lia).
      - intros r qe row Hr. inversion Hr.
      - intros _ _. destruct (default true (dedupeBySource o)); reflexivity. }
  set (cands := scoreRows w qe minSim (selectRows (so_groupFolder o) st)).
  set (final := if default true (dedupeBySource o)
                then sortDesc (bestBySource (sortDesc cands)).*2
                else sortDesc cands).
  assert (forall k, slice0 final lim = take k final ->
            Forall (fun r => r ∈ cands /\ minSim <= similarity r) (slice0 final lim)
            /\ StronglySorted Desc (slice0 final lim)
            /\ (default true (dedupeBySource o) = true ->
                NoDup (sr_source_id <$> slice0 final lim)
                /\ forall r qe0 row,
                    r ∈ slice0 final lim -> Some qe = Some qe0 ->
                    row ∈ selectRows (so_groupFolder o) st ->
                    row_source_id row = sr_source_id r ->
                    cosineSimilarity w qe0 (row_embedding row) <= similarity r)) as Hmain.
  { intros k Hk. rewrite Hk.
    pose proof (Best_values _ _ (bestBySource_Best (sortDesc cands))) as [Hnd Hbest].
    assert (forall r, r ∈ final -> r ∈ cands) as Hsub.
    { intros r Hr. subst final. destruct (default true (dedupeBySource o)).
      - rewrite sortDesc_perm in Hr. apply Hbest in Hr as [Hr _].
        rewrite sortDesc_perm in Hr. exact Hr.
      - rewrite sortDesc_perm in Hr. exact Hr. }
    assert (StronglySorted Desc final) as Hsorted.
    { subst final. destruct (default true (dedupeBySource o)); apply sortDesc_sorted. }
    split; [|split].
    - apply Forall_forall. intros r Hr.
      assert (r ∈ cands) as Hc by (apply Hsub; eapply elem_of_take_l; exact Hr).
      split; [exact Hc | apply (scoreRows_threshold _ _ _ _ _ Hc)].
    - apply StronglySorted_take_desc, Hsorted.
    - intros Hd. subst final. rewrite Hd. split.
      + rewrite fmap_take. eapply sublist_NoDup; [|apply sublist_take].
        rewrite sortDesc_perm. exact Hnd.
      + intros r qe' row Hr [= <-] Hrow Hsrc.
        assert (r ∈ (bestBySource (sortDesc cands)).*2) as Hr'.
        { rewrite <- (sortDesc_perm (bestBySource (sortDesc cands)).*2).
          eapply elem_of_take_l; exact Hr. }
        apply Hbest in Hr' as [Hrc Hb]. rewrite sortDesc_perm in Hrc.
        change (cosineSimilarity w qe (row_embedding row))
          with (similarity (resultOfRow w qe row)).
        destruct (Qlt_le_dec (similarity (resultOfRow w qe row)) minSim) as [Hlow | Hhigh].
        * apply Qlt_le_weak. eapply Qlt_le_trans; [exact Hlow|].
          apply (scoreRows_threshold _ _ _ _ _ Hrc).
        * apply Hb; [|exact Hsrc]. rewrite sortDesc_perm. subst cands.
          unfold scoreRows. apply list_elem_of_filter. split.
          -- apply Qle_bool_iff, Hhigh.
          -- apply list_elem_of_fmap_2, Hrow. }
  destruct (slice0_take final lim) as [k Hk].
  destruct (Hmain k Hk) as (H1 & H2 & H3).
  split; [exact H1|]. split; [exact H2|]. split; [exact H3|].
  split; [intros Hlim; apply slice0_length, Hlim|].
  split; [intros Hlim _; apply slice0_negative, Hlim|].
  intros [H | H]; discriminate.
Qed.

Lemma search_results_witness :
  (0 <= 2)%Z
  /\ sr_chunk_id <$> search Examples.kbWorldUp "how do marketers use AI?"
                            (Examples.familySearch 2) Examples.kbFilled
     = [3; 2]%nat
  /\ (Z.of_nat (length (search Examples.kbWorldUp "how do marketers use AI?"
                               (Examples.familySearch 2) Examples.kbFilled)) <= 2)%Z.
Proof.
  split; [lia|]. split; [vm_compute; reflexivity|].
  refine (proj1 (proj2 (proj2 (proj2 (search_results Examples.kbWorldUp
            "how do marketers use AI?" (Examples.familySearch 2) Examples.kbFilled)))) _).
  cbn. lia.
Defined.

(** A search with the limit -1, as a [kb_search] request with
    [limit: -1] asks for: of the two sources ranked, one is returned,
    which is more than the limit. *)
Lemma negative_limit_counterexample :
  sr_chunk_id <$> ranked Examples.kbWorldUp "how do marketers use AI?"
                         (Examples.familySearch (-1)) Examples.kbFilled
  = [3; 2]%nat
  /\ sr_chunk_id <$> search Examples.kbWorldUp "how do marketers use AI?"
                            (Examples.familySearch (-1)) Examples.kbFilled
     = [3]%nat
  /\ ~ (Z.of_nat (length (search Examples.kbWorldUp "how do marketers use AI?"
                                 (Examples.familySearch (-1)) Examples.kbFilled))
        <= -1)%Z.
Proof.
  split; [vm_compute; reflexivity|]. split; [vm_compute; reflexivity|].
  vm_compute. intros H. apply H. reflexivity.
Qed.

End SearchFacts.

(** ** Ingestion *)

Module IngestFacts.

Import Kb IngestSpec.

(** *** The chunk loop *)

Lemma createChunk_frame (sid : string) (i : nat) (c : string) (e : option Embedding)
      (st : KbState) :
  sources (createChunk sid i c e st) = sources st
  /\ clock (createChunk sid i c e st) = clock st
  /\ available (createChunk sid i c e st) = available st.
Proof. repeat split. Qed.

(** What the loop appends: only chunks that came with a vector, each
    stored with it, in order, and as many as it reports. *)
Lemma storeChunks_spec (sid : string) (cs : list string)
      (embeddings : list (option Embedding)) :
  forall (i : nat) (st : KbState),
    let '(n, st') := storeChunks sid i cs embeddings st in
    sources st' = sources st /\ clock st' = clock st
    /\ available st' = available st
    /\ exists rows,
        chunks st' = chunks st ++ rows /\ n = length rows
        /\ (forall row, row ∈ rows ->
              source_id row = sid
              /\ exists e, embedding row = Some e
                           /\ embeddings !! chunk_index row = Some (Some e)
                           /\ i <= chunk_index row
                           /\ cs !! (chunk_index row - i) = Some (content row))
        /\ (forall j c e,
              cs !! j = Some c -> embeddings !! (i + j) = Some (Some e) ->
              exists row, row ∈ rows /\ chunk_index row = i + j
                          /\ content row = c /\ embedding row = Some e).
Proof.
  induction cs as [|c cs IH]; intros i st; simpl.
  - split; [reflexivity|]. split; [reflexivity|]. split; [reflexivity|].
    exists []. rewrite app_nil_r. split; [reflexivity|]. split; [reflexivity|].
    split.
    + intros row H. inversion H.
    + intros j c e H. discriminate.
  - destruct (mjoin (embeddings !! i)) as [emb|] eqn:He.
    + specialize (IH (S i) (createChunk sid i c (Some emb) st)).
      destruct (storeChunks sid (S i) cs embeddings (createChunk sid i c (Some emb) st))
        as [n st'].
      destruct IH as (Hs & Hc & Ha & rows & Hrows & Hn & Hin & Hall).
      split; [exact Hs|]. split; [exact Hc|]. split; [exact Ha|].
      eexists (_ :: rows). split; [|split; [|split]].
      * rewrite Hrows. cbn [chunks createChunk]. rewrite <- app_assoc. reflexivity.
      * simpl. congruence.
      * intros row Hrow. apply elem_of_cons in Hrow as [-> | Hrow]; cbn.
        -- split; [reflexivity|]. exists emb. split; [reflexivity|].
           destruct (embeddings !! i) as [[e'|]|] eqn:Hi; try discriminate.
           simpl in He. injection He as ->. split; [reflexivity|].
           split; [lia|]. rewrite Nat.sub_diag. reflexivity.
        -- destruct (Hin row Hrow) as (Hsid & e & Hemb & Hidx & Hle & Hcs).
           split; [exact Hsid|]. exists e. split; [exact Hemb|].
           split; [exact Hidx|]. split; [lia|].
           replace (chunk_index row - i) with (S (chunk_index row - S i)) by lia.
           exact Hcs.
      * intros j c' e Hj Hemb. destruct j as [|j].
        -- injection Hj as <-. rewrite Nat.add_0_r in Hemb. rewrite Hemb in He.
           simpl in He. injection He as <-.
           eexists. split; [left|]. cbn. rewrite Nat.add_0_r. repeat split.
        -- simpl in Hj. replace (i + S j) with (S i + j) in * by lia.
           destruct (Hall j c' e Hj Hemb) as (row & Hrow & Hr).
           exists row. split; [right; exact Hrow | exact Hr].
    + specialize (IH (S i) st).
      destruct (storeChunks sid (S i) cs embeddings st) as [n st'].
      destruct IH as (Hs & Hc & Ha & rows & Hrows & Hn & Hin & Hall).
      split; [exact Hs|]. split; [exact Hc|]. split; [exact Ha|].
      exists rows. split; [exact Hrows|]. split; [exact Hn|]. split.
      * intros row Hrow.
        destruct (Hin row Hrow) as (Hsid & e & Hemb & Hidx & Hle & Hcs).
        split; [exact Hsid|]. exists e. split; [exact Hemb|].
        split; [exact Hidx|]. split; [lia|].
        replace (chunk_index row - i) with (S (chunk_index row - S i)) by lia.
        exact Hcs.
      * intros j c' e Hj Hemb. destruct j as [|j].
        -- rewrite Nat.add_0_r in Hemb. rewrite Hemb in He. discriminate.
        -- simpl in Hj. replace (i + S j) with (S i + j) in * by lia.
           exact (Hall j c' e Hj Hemb).
Qed.

(** *** [finishIngestion] *)

(** A refusal leaves the store as it was. *)
Lemma finishIngestion_failure (w : World) (u t : option string) (content : string)
      (ty : SourceType) (g : string) (tg : option (list string))
      (st : KbState) :
  success (finishIngestion w u t content ty g tg None st).1 = false ->
  (finishIngestion w u t content ty g tg None st).2 = st.
Proof.
  unfold finishIngestion.
  destruct (valid (validateContent w (cleanContent w content) ty)); cbn [negb];
    [|reflexivity].
  destruct (getSourceByHash _ st); [reflexivity|].
  destruct (createSource _ _ _ _ _ _ _ _ _) as [s st1].
  destruct (generateEmbeddingsBatch _ _) as [embs avail].
  destruct (storeChunks _ _ _ _ _) as [n st4]. discriminate.
Qed.

(** An accepted content: the source row, then the chunk rows. *)
Lemma finishIngestion_success (w : World) (u t : option string) (content : string)
      (ty : SourceType) (g : string) (tg : option (list string))
      (existing : option KBSource) (st : KbState) :
  let r := (finishIngestion w u t content ty g tg existing st).1 in
  let st' := (finishIngestion w u t content ty g tg existing st).2 in
  let final := finalContentOf w content ty in
  success r = true ->
  exists sid st1 rows,
    res_source_id r = Some sid
    /\ match existing with
       | Some ex =>
           sid = id ex
           /\ st1 = updateSource w (id ex) u t final (generateContentHash w final) tg st
       | None =>
           getSourceByHash (generateContentHash w final) st = None
           /\ exists s,
               createSource w g u (Js.or_else t "Untitled") ty final
                            (generateContentHash w final) tg st = (s, st1)
               /\ sid = id s
       end
    /\ sources st' = sources st1
    /\ chunks st' = chunks st ++ rows
    /\ chunks_count r = Some (length rows)
    /\ (forall row, row ∈ rows ->
          source_id row = sid
          /\ exists e, embedding row = Some e
                       /\ embeddingsOf w content ty !! chunk_index row = Some (Some e)
                       /\ chunksOf w content ty !! chunk_index row = Some (Kb.content row))
    /\ (forall j c e,
          chunksOf w content ty !! j = Some c ->
          embeddingsOf w content ty !! j = Some (Some e) ->
          exists row, row ∈ rows /\ chunk_index row = j
                      /\ Kb.content row = c /\ embedding row = Some e).
Proof.
  cbn zeta. unfold finishIngestion, embeddingsOf, chunksOf, finalContentOf.
  destruct (valid (validateContent w (cleanContent w content) ty)); cbn [negb];
    [|discriminate].
  set (final := if truncated (validateContent w (cleanContent w content) ty)
                then Js.take (MAX_CONTENT_LENGTH w) (cleanContent w content)
                else cleanContent w content).
  set (h := generateContentHash w final).
  destruct (match existing with
            | Some _ => None
            | None => getSourceByHash h st
            end) as [dup|] eqn:Hdup; [discriminate|].
  set (pair := match existing with
               | Some ex => (id ex, updateSource w (id ex) u t final h tg st)
               | None =>
                   let '(s, st') := createSource w g u (Js.or_else t "Untitled") ty
                                                 final h tg st in
                   (id s, st')
               end).
  assert (chunks pair.2 = chunks st) as Hchunks.
  { subst pair. destruct existing; reflexivity. }
  destruct pair as [sid st1] eqn:Hpair. cbn [snd] in Hchunks.
  destruct (generateEmbeddingsBatch w (chunkText w final)) as [embs avail] eqn:Hbatch.
  pose proof (storeChunks_spec sid (chunkText w final) embs 0
                               (setAvailable avail (setAvailable true st1))) as Hloop.
  destruct (storeChunks sid 0 (chunkText w final) embs
                        (setAvailable avail (setAvailable true st1))) as [n st4].
  destruct Hloop as (Hs & _ & _ & rows & Hrows & Hn & Hin & Hall).
  intros _. exists sid, st1, rows. cbn [fst snd].
  split; [reflexivity|]. split.
  { subst pair. destruct existing as [ex|].
    - injection Hpair as <- <-. split; reflexivity.
    - split; [exact Hdup|].
      destruct (createSource w g u (Js.or_else t "Untitled") ty final h tg st)
        as [s st'] eqn:Hcreate.
      injection Hpair as <- <-. exists s. split; reflexivity. }
  split; [exact Hs|]. split; [rewrite Hrows, <- Hchunks; reflexivity|].
  split; [cbn; congruence|]. split.
  - intros row Hrow. destruct (Hin row Hrow) as (Hsid & e & He & Hidx & _ & Hcs).
    split; [exact Hsid|]. exists e. rewrite Nat.sub_0_r in Hcs. auto.
  - intros j c e Hj He. exact (Hall j c e Hj He).
Qed.

(** C4, as the code has it.  When [finishIngestion] accepts a content, the rows
    it adds to [kb_chunks] are exactly the chunks for which the provider
    returned a vector, each stored with that vector, and [chunks_count]
    counts them: a chunk without a vector is not stored.  When the
    provider returns no vector at all, no chunk row is written; the
    source row, with the full cleaned content, is written all the
    same. *)
Theorem chunks_stored_with_embedding (w : World) (u t : option string)
        (content : string) (ty : SourceType) (g : string)
        (tg : option (list string)) (existing : option KBSource) (st : KbState) :
  let r := (finishIngestion w u t content ty g tg existing st).1 in
  let st' := (finishIngestion w u t content ty g tg existing st).2 in
  success r = true ->
  exists rows,
    chunks st' = chunks st ++ rows
    /\ chunks_count r = Some (length rows)
    /\ (forall row, row ∈ rows ->
          exists e, embedding row = Some e
                    /\ embeddingsOf w content ty !! chunk_index row = Some (Some e)
                    /\ chunksOf w content ty !! chunk_index row = Some (Kb.content row))
    /\ (forall j c e,
          chunksOf w content ty !! j = Some c ->
          embeddingsOf w content ty !! j = Some (Some e) ->
          exists row, row ∈ rows /\ chunk_index row = j
                      /\ Kb.content row = c /\ embedding row = Some e)
    /\ ((forall j, mjoin (embeddingsOf w content ty !! j) = None) -> rows = [])
    /\ (existing = None ->
        exists s, sources st' = sources st ++ [s]
                  /\ res_source_id r = Some (id s)
                  /\ raw_content s = finalContentOf w content ty).
Proof.
  intros r st' Hok.
  destruct (finishIngestion_success w u t content ty g tg existing st Hok)
    as (sid & st1 & rows & Hid & Hsrc & Hsources & Hchunks & Hcount & Hin & Hall).
  exists rows. split; [exact Hchunks|]. split; [exact Hcount|]. split; [|split; [|split]].
  - intros row Hrow. destruct (Hin row Hrow) as (_ & e & He). exists e. exact He.
  - exact Hall.
  - intros Hnone. destruct rows as [|row rows]; [reflexivity|]. exfalso.
    destruct (Hin row) as (_ & e & _ & He & _); [left|].
    specialize (Hnone (chunk_index row)). rewrite He in Hnone. discriminate.
  - intros ->. destruct Hsrc as (_ & s & Hcreate & ->).
    exists s. subst st'. rewrite Hsources.
    unfold createSource in Hcreate. injection Hcreate as <- <-.
    split; [reflexivity|]. split; [exact Hid | reflexivity].
Qed.

Lemma chunks_stored_with_embedding_witness :
  success (finishIngestion Examples.kbWorldDown (Some "https://example.org/a") None
                           "Anthropic uses Claude in marketing" text "family" None None
                           Examples.emptyKb).1 = true
  /\ exists rows,
      chunks (finishIngestion Examples.kbWorldDown (Some "https://example.org/a") None
                              "Anthropic uses Claude in marketing" text "family" None None
                              Examples.emptyKb).2
      = chunks Examples.emptyKb ++ rows
      /\ rows = [].
Proof.
  assert (success (finishIngestion Examples.kbWorldDown (Some "https://example.org/a")
                     None "Anthropic uses Claude in marketing" text "family" None None
                     Examples.emptyKb).1 = true) as Hok by reflexivity.
  split; [exact Hok|].
  destruct (chunks_stored_with_embedding Examples.kbWorldDown
              (Some "https://example.org/a") None "Anthropic uses Claude in marketing"
              text "family" None None Examples.emptyKb Hok)
    as (rows & Hchunks & _ & _ & _ & Hdown & _).
  exists rows. split; [exact Hchunks|]. apply Hdown.
  intros [|[|j]]; reflexivity.
Defined.

(** The provider is down: the content has two chunks, the ingestion
    succeeds, and not one chunk is in the store, with or without an
    embedding. *)
Lemma null_embedding_counterexample :
  chunksOf Examples.kbWorldDown "Text of https://example.org/a" article
  = ["Text of https://example.org/a"; "tail of Text of https://example.org/a"]
  /\ embeddingsOf Examples.kbWorldDown "Text of https://example.org/a" article
     = [None; None]
  /\ success (ingestUrl Examples.kbWorldDown "https://example.org/a"
                        Examples.intoFamily Examples.emptyKb).1 = true
  /\ chunks_count (ingestUrl Examples.kbWorldDown "https://example.org/a"
                             Examples.intoFamily Examples.emptyKb).1 = Some 0%nat
  /\ chunks (ingestUrl Examples.kbWorldDown "https://example.org/a"
                       Examples.intoFamily Examples.emptyKb).2 = []
  /\ length (sources (ingestUrl Examples.kbWorldDown "https://example.org/a"
                                Examples.intoFamily Examples.emptyKb).2) = 1%nat.
Proof. vm_compute. repeat split. Qed.

(** *** URL ingestion *)

Lemma find_app_none {A} (f : A -> bool) (l : list A) (x : A) :
  find f l = None -> find f (l ++ [x]) = if f x then Some x else None.
Proof.
  induction l as [|y l IH]; simpl; [reflexivity|].
  destruct (f y); [discriminate | exact IH].
Qed.

Lemma find_none_elem {A} (f : A -> bool) (l : list A) (x : A) :
  find f l = None -> x ∈ l -> f x = false.
Proof. intros H Hx. apply (find_none f l H). apply list_elem_of_In, Hx. Qed.

Lemma ingestUrl_failure (w : World) (u : string) (o : IngestOptions) (st : KbState) :
  success (ingestUrl w u o st).1 = false -> (ingestUrl w u o st).2 = st.
Proof.
  unfold ingestUrl, ingestUrlInternal.
  destruct (getSourceByUrl (normalizeUrl w u) st); [reflexivity|].
  destruct (extractContent w u _); [|reflexivity].
  apply finishIngestion_failure.
Qed.

Lemma ingestUrl_success (w : World) (u : string) (o : IngestOptions) (st : KbState) :
  success (ingestUrl w u o st).1 = true ->
  getSourceByUrl (normalizeUrl w u) st = None
  /\ exists s,
      sources (ingestUrl w u o st).2 = sources st ++ [s]
      /\ res_source_id (ingestUrl w u o st).1 = Some (id s)
      /\ url s = Some (normalizeUrl w u)
      /\ group_folder s = groupFolder o
      /\ getSourceByHash (content_hash s) st = None.
Proof.
  unfold ingestUrl, ingestUrlInternal.
  destruct (getSourceByUrl (normalizeUrl w u) st) as [ex|] eqn:Hurl; [discriminate|].
  destruct (extractContent w u _) as [ext|]; [|discriminate].
  intros Hok. split; [reflexivity|].
  destruct (finishIngestion_success _ _ _ _ _ _ _ _ _ Hok)
    as (sid & st1 & rows & Hid & (Hhash & s & Hcreate & ->) & Hsources & _).
  exists s. rewrite Hsources. unfold createSource in Hcreate.
  injection Hcreate as <- <-. cbn. repeat split; assumption.
Qed.

Lemma UniqueUrl_snoc (st st' : KbState) (s : KBSource) (u : string) :
  sources st' = sources st ++ [s] ->
  url s = Some u ->
  getSourceByUrl u st = None ->
  UniqueUrl st -> UniqueUrl st'.
Proof.
  intros Hsrc Hu Hnone Huniq i j s1 s2 v H1 H2 Hg Hv1 Hv2.
  rewrite Hsrc in H1, H2.
  assert (forall k x, (sources st ++ [s]) !! k = Some x ->
                      (sources st !! k = Some x /\ k < length (sources st))
                      \/ (k = length (sources st) /\ x = s)) as Hcase.
  { intros k x Hk. destruct (decide (k < length (sources st))) as [Hlt | Hge].
    - left. rewrite lookup_app_l in Hk by assumption. auto.
    - right. rewrite lookup_app_r in Hk by lia.
      destruct (k - length (sources st)) as [|n] eqn:Hn; [|destruct n; discriminate].
      injection Hk as <-. split; [lia | reflexivity]. }
  assert (forall x, x ∈ sources st -> url x <> Some u) as Hfree.
  { intros x Hx Hux. pose proof (find_none_elem _ _ x Hnone Hx) as Hf.
    cbn in Hf. unfold opt_eqb in Hf. rewrite Hux, String.eqb_refl in Hf. discriminate. }
  destruct (Hcase _ _ H1) as [[L1 _] | [-> ->]];
    destruct (Hcase _ _ H2) as [[L2 _] | [-> ->]].
  - exact (Huniq i j s1 s2 v L1 L2 Hg Hv1 Hv2).
  - exfalso. apply (Hfree s1); [eapply list_elem_of_lookup_2; exact L1|]. congruence.
  - exfalso. apply (Hfree s2); [eapply list_elem_of_lookup_2; exact L2|]. congruence.
  - reflexivity.
Qed.

Lemma UniqueHash_snoc (st st' : KbState) (s : KBSource) :
  sources st' = sources st ++ [s] ->
  getSourceByHash (content_hash s) st = None ->
  UniqueHash st -> UniqueHash st'.
Proof.
  intros Hsrc Hnone Huniq i j s1 s2 H1 H2 Hg Hh.
  rewrite Hsrc in H1, H2.
  assert (forall k x, (sources st ++ [s]) !! k = Some x ->
                      (sources st !! k = Some x /\ k < length (sources st))
                      \/ (k = length (sources st) /\ x = s)) as Hcase.
  { intros k x Hk. destruct (decide (k < length (sources st))) as [Hlt | Hge].
    - left. rewrite lookup_app_l in Hk by assumption. auto.
    - right. rewrite lookup_app_r in Hk by lia.
      destruct (k - length (sources st)) as [|n] eqn:Hn; [|destruct n; discriminate].
      injection Hk as <-. split; [lia | reflexivity]. }
  assert (forall x, x ∈ sources st -> content_hash x <> content_hash s) as Hfree.
  { intros x Hx Hhx. pose proof (find_none_elem _ _ x Hnone Hx) as Hf.
    cbn in Hf. rewrite Hhx, String.eqb_refl in Hf. discriminate. }
  destruct (Hcase _ _ H1) as [[L1 _] | [-> ->]];
    destruct (Hcase _ _ H2) as [[L2 _] | [-> ->]].
  - exact (Huniq i j s1 s2 L1 L2 Hg Hh).
  - exfalso. apply (Hfree s1); [eapply list_elem_of_lookup_2; exact L1 | exact Hh].
  - exfalso. apply (Hfree s2); [eapply list_elem_of_lookup_2; exact L2 | congruence].
  - reflexivity.
Qed.

(** C5.  In a store where URLs and content hashes are unique within each
    group, after an ingestion of a URL that succeeded, ingesting a URL
    with the same normal form fails: the result has [success: false],
    the error [URL already ingested] and, as [existingSourceId], the id
    of the source the first call created, and it names no new source;
    the second call changes nothing, so no second source exists, and
    both uniqueness properties still hold. *)
Theorem ingest_url_idempotent (w : World) (u u' : string) (o o' : IngestOptions)
        (st : KbState) :
  UniqueUrl st -> UniqueHash st ->
  success (ingestUrl w u o st).1 = true ->
  normalizeUrl w u' = normalizeUrl w u ->
  let st1 := (ingestUrl w u o st).2 in
  let second := ingestUrl w u' o' st1 in
  exists sid,
    res_source_id (ingestUrl w u o st).1 = Some sid
    /\ success second.1 = false
    /\ error second.1 = Some "URL already ingested"
    /\ existingSourceId second.1 = Some sid
    /\ res_source_id second.1 = None /\ chunks_count second.1 = None
    /\ second.2 = st1
    /\ (exists s, sources st1 = sources st ++ [s] /\ id s = sid)
    /\ UniqueUrl st1 /\ UniqueHash st1.
Proof.
  intros Hu Hh Hok Hnorm st1 second.
  destruct (ingestUrl_success w u o st Hok)
    as (Hfree & s & Hsrc & Hid & Hurl & Hg & Hhash).
  assert (second = (failure "URL already ingested" (Some (id s)), st1)) as ->.
  { subst second. unfold ingestUrl, ingestUrlInternal. rewrite Hnorm.
    assert (getSourceByUrl (normalizeUrl w u) st1 = Some s) as ->; [|reflexivity].
    unfold getSourceByUrl in *. subst st1. rewrite Hsrc.
    rewrite (find_app_none _ _ _ Hfree). unfold opt_eqb.
    rewrite Hurl, String.eqb_refl. reflexivity. }
  exists (id s). split; [exact Hid|]. cbn [fst snd failure success error
    existingSourceId res_source_id chunks_count].
  do 6 (split; [reflexivity|]). split; [|split].
  - exists s. split; [exact Hsrc | reflexivity].
  - exact (UniqueUrl_snoc st st1 s _ Hsrc Hurl Hfree Hu).
  - exact (UniqueHash_snoc st st1 s Hsrc Hhash Hh).
Qed.

Lemma UniqueUrl_empty : UniqueUrl Examples.emptyKb.
Proof. intros i j s1 s2 u H. destruct i; discriminate. Qed.

Lemma UniqueHash_empty : UniqueHash Examples.emptyKb.
Proof. intros i j s1 s2 H. destruct i; discriminate. Qed.

Lemma ingest_url_idempotent_witness :
  success (ingestUrl Examples.kbWorldUp "https://example.org/a" Examples.intoFamily
                     Examples.emptyKb).1 = true
  /\ exists sid,
      res_source_id (ingestUrl Examples.kbWorldUp "https://example.org/a"
                               Examples.intoFamily Examples.emptyKb).1 = Some sid
      /\ error (ingestUrl Examples.kbWorldUp "https://example.org/a" Examples.intoFamily
                          (ingestUrl Examples.kbWorldUp "https://example.org/a"
                                     Examples.intoFamily Examples.emptyKb).2).1
         = Some "URL already ingested"
      /\ existingSourceId
           (ingestUrl Examples.kbWorldUp "https://example.org/a" Examples.intoFamily
                      (ingestUrl Examples.kbWorldUp "https://example.org/a"
                                 Examples.intoFamily Examples.emptyKb).2).1
         = Some sid.
Proof.
  assert (success (ingestUrl Examples.kbWorldUp "https://example.org/a"
                             Examples.intoFamily Examples.emptyKb).1 = true) as Hok
      by reflexivity.
  split; [exact Hok|].
  destruct (ingest_url_idempotent Examples.kbWorldUp "https://example.org/a"
              "https://example.org/a" Examples.intoFamily Examples.intoFamily
              Examples.emptyKb UniqueUrl_empty UniqueHash_empty Hok eq_refl)
    as (sid & Hid & _ & Herr & Hex & _).
  exists sid. split; [exact Hid|]. split; [exact Herr | exact Hex].
Defined.

End IngestFacts.

(** ** Going through a handler step by step *)

Module StepFacts.

Import Router Ipc IpcSpec.

Section Steps.

Context (R : State -> State -> Prop).
Hypothesis R_refl : forall s, R s s.
Hypothesis R_trans : forall s1 s2 s3, R s1 s2 -> R s2 s3 -> R s1 s3.

Lemma Steps_ret {A} (a : A) : Steps R (mret a).
Proof. intros s. apply R_refl. Qed.

Lemma Steps_skip : Steps R skip.
Proof. apply Steps_ret. Qed.

Lemma Steps_gets {A} (f : State -> A) : Steps R (gets f).
Proof. intros s. apply R_refl. Qed.

Lemma Steps_bind {A B} (m : M A) (k : A -> M B) :
  Steps R m -> (forall a, Steps R (k a)) -> Steps R (m ≫= k).
Proof.
  intros Hm Hk s. unfold mbind, M_bind, bind. specialize (Hm s).
  destruct (m s) as [[a|e] s1]; [|exact Hm].
  eapply R_trans; [exact Hm | apply Hk].
Qed.

Lemma Steps_when (b : bool) (m : M unit) : Steps R m -> Steps R (when b m).
Proof. destruct b; [auto | intros _; apply Steps_skip]. Qed.

Lemma Steps_modify (f : State -> State) : (forall s, R s (f s)) -> Steps R (modify f).
Proof. intros H s. apply H. Qed.

Lemma Steps_throw {A} (e : string) : Steps R (@throw A e).
Proof. intros s. apply R_refl. Qed.

Lemma Steps_forEach {A} (xs : list A) (body : A -> M unit) :
  Forall (fun x => Steps R (body x)) xs -> Steps R (forEach xs body).
Proof.
  induction 1 as [|x xs Hx _ IH]; cbn [forEach]; [apply Steps_skip|].
  apply Steps_bind; [exact Hx | intros _; exact IH].
Qed.

End Steps.

(** Going down a handler: sequencing, then the branch taken; [base]
    closes the steps that touch the state. *)
Ltac steps base R_refl R_trans :=
  repeat first
    [ solve [base]
    | apply (Steps_ret _ R_refl)
    | apply (Steps_skip _ R_refl)
    | apply (Steps_gets _ R_refl)
    | apply (Steps_bind _ R_trans); [|intros ?]
    | apply (Steps_when _ R_refl)
    | apply (Steps_throw _ R_refl)
    | unfold noPath; apply (Steps_throw _ R_refl)
    | match goal with
      | |- Steps _ (match ?x with _ => _ end) => destruct x
      | |- Steps _ (if ?b then _ else _) => destruct b
      | |- Steps _ (let _ := _ in _) => cbn zeta
      end ].

End StepFacts.

(** ** The IPC broker *)

Module IpcFacts.

Import Router Ipc IpcSpec StepFacts.

(** *** Handlers return and leave the IPC directories alone *)

Lemma Quiet_ret {A} (a : A) : Quiet (mret a).
Proof. intros s. exists a, s. auto. Qed.

Lemma Quiet_skip : Quiet skip.
Proof. apply Quiet_ret. Qed.

Lemma Quiet_bind {A B} (m : M A) (k : A -> M B) :
  Quiet m -> (forall a, Quiet (k a)) -> Quiet (m ≫= k).
Proof.
  intros Hm Hk s. destruct (Hm s) as (a & s1 & E1 & D1 & R1).
  destruct (Hk a s1) as (b & s2 & E2 & D2 & R2).
  exists b, s2. unfold mbind, M_bind, bind. rewrite E1, E2.
  split; [reflexivity|]. split; congruence.
Qed.

Lemma Quiet_gets {A} (f : State -> A) : Quiet (gets f).
Proof. intros s. exists (f s), s. auto. Qed.

Lemma Quiet_modify (f : State -> State) :
  (forall s, ipcDirs (f s) = ipcDirs s /\ errorsDir (f s) = errorsDir s) ->
  Quiet (modify f).
Proof. intros H s. exists (), (f s). split; [reflexivity | apply H]. Qed.

Lemma Quiet_emit (e : Event) : Quiet (emit e).
Proof. apply Quiet_modify. intros s. split; reflexivity. Qed.

Lemma Quiet_warn (msg : string) : Quiet (warn msg).
Proof. apply Quiet_emit. Qed.

Lemma Quiet_set_host (f : Router.State -> Router.State) : Quiet (modify (set_host f)).
Proof. apply Quiet_modify. intros s. split; reflexivity. Qed.

Lemma Quiet_set_tasks (f : list Task -> list Task) : Quiet (modify (set_tasks f)).
Proof. apply Quiet_modify. intros s. split; reflexivity. Qed.

Lemma Quiet_set_sugarProjects f : Quiet (modify (set_sugarProjects f)).
Proof. apply Quiet_modify. intros s. split; reflexivity. Qed.

Lemma Quiet_set_running f : Quiet (modify (set_running f)).
Proof. apply Quiet_modify. intros s. split; reflexivity. Qed.

Lemma Quiet_when (b : bool) (m : M unit) : Quiet m -> Quiet (when b m).
Proof. destruct b; [auto | intros _; apply Quiet_skip]. Qed.

Lemma Quiet_sendMessage (w : World) (to txt : string) : Quiet (sendMessage w to txt).
Proof. apply Quiet_set_host. Qed.

Lemma Quiet_reply (w : World) (data : Payload) (txt : string) : Quiet (reply w data txt).
Proof.
  unfold reply. destruct (chatJid data); [|apply Quiet_skip].
  apply Quiet_when, Quiet_sendMessage.
Qed.

Lemma Quiet_onKb {A} (f : Kb.KbState -> A * Kb.KbState) : Quiet (onKb f).
Proof.
  intros s. unfold onKb. destruct (f (kb (host s))) as [a k].
  exists a. eexists. split; [reflexivity|]. split; reflexivity.
Qed.

Lemma Quiet_kbState : Quiet kbState.
Proof. apply Quiet_gets. Qed.

Create HintDb quiet.

#[local] Hint Resolve Quiet_ret Quiet_skip Quiet_gets Quiet_emit Quiet_warn
  Quiet_set_host Quiet_set_tasks Quiet_set_sugarProjects Quiet_set_running
  Quiet_sendMessage Quiet_reply Quiet_onKb Quiet_kbState : quiet.

(** Going down a handler: sequencing, then the branch taken. *)
Ltac quiet :=
  repeat first
    [ solve [auto with quiet]
    | apply Quiet_bind; [|intros ?]
    | apply Quiet_when
    | match goal with
      | |- Quiet (match ?x with _ => _ end) => destruct x
      | |- Quiet (if ?b then _ else _) => destruct b
      | |- Quiet (let _ := _ in _) => cbn zeta
      end ].

Lemma Quiet_execSyncCmd (w : World) (c : string) (t : option Z) :
  Quiet (execSyncCmd w c t).
Proof. unfold execSyncCmd. quiet. Qed.

Lemma Quiet_resolveProject (n : option string) : Quiet (resolveProject n).
Proof. unfold resolveProject. quiet. Qed.

Lemma Quiet_listing (w : World) (data : Payload) (what : string)
      (lines : Outcome (list string)) (none : string) (some : nat -> string) :
  Quiet (listing w data what lines none some).
Proof. unfold listing. quiet. Qed.

#[local] Hint Resolve Quiet_execSyncCmd Quiet_resolveProject Quiet_listing : quiet.

Lemma Quiet_forEach {A} (xs : list A) (body : A -> M unit) :
  (forall x, Quiet (body x)) -> Quiet (forEach xs body).
Proof.
  intros H. induction xs as [|x xs IH]; cbn [forEach]; [apply Quiet_skip|].
  apply Quiet_bind; [apply H | intros _; exact IH].
Qed.

Lemma Quiet_updateKbUrl (w : World) (u : string) (o : Kb.IngestOptions) :
  Quiet (updateKbUrl w u o).
Proof.
  unfold updateKbUrl. apply Quiet_bind; [apply Quiet_kbState | intros k].
  apply Quiet_bind; [|intros _; apply Quiet_onKb].
  apply Quiet_forEach. intros sp. apply Quiet_emit.
Qed.

Lemma Quiet_updateReply (w : World) (data : Payload) (r : Kb.IngestResult) :
  Quiet (updateReply w data r).
Proof. unfold updateReply. quiet. Qed.

Lemma Quiet_onOwnTask (data : Payload) (g : string) (isMain : bool)
      (change : string -> list Task -> list Task) (refusal : string) :
  Quiet (onOwnTask data g isMain change refusal).
Proof. unfold onOwnTask. quiet. Qed.

#[local] Hint Resolve Quiet_updateKbUrl Quiet_updateReply Quiet_onOwnTask : quiet.


Lemma Quiet_handleMessage (w : World) (g : string) (isMain : bool) (data : Payload) :
  Quiet (handleMessage w g isMain data).
Proof. unfold handleMessage. quiet. Qed.

(** The handlers of [processTaskIpc] that keep every statement that can
    throw inside a [try] of their own. *)
Lemma Quiet_processTaskIpc (w : World) (data : Payload) (g : string) (isMain : bool) :
  match kindOf (type data) with
  | Some (K_schedule_task | K_register_group | K_sugar_add | K_sugar_list
          | K_sugar_status | K_sugar_run | K_sugar_init) => True
  | _ => Quiet (processTaskIpc w data g isMain)
  end.
Proof.
  unfold processTaskIpc.
  destruct (kindOf (type data)) as [[]|]; try exact I; [..|apply Quiet_warn].
  - apply Quiet_onOwnTask.
  - apply Quiet_onOwnTask.
  - apply Quiet_onOwnTask.
  - unfold refresh_groups. quiet.
  - unfold sugar_stop, noneRunning, stopProcess, notRunning. quiet.
  - unfold sugar_list_projects. quiet.
  - unfold sugar_add_project. quiet.
  - unfold github_list_issues. quiet.
  - unfold github_create_task_from_issue. quiet.
  - unfold github_create_pr. quiet.
  - unfold github_pr_status. quiet.
  - unfold kb_list. quiet.
  - unfold kb_search. quiet.
  - unfold kb_update. quiet.
  - unfold kb_add. quiet.
  - unfold kb_delete. quiet.
Qed.

(** *** No handler touches the IPC directories, even one that throws *)

Lemma SameDirs_refl (s : State) : SameDirs s s.
Proof. split; reflexivity. Qed.

Lemma SameDirs_trans (s1 s2 s3 : State) :
  SameDirs s1 s2 -> SameDirs s2 s3 -> SameDirs s1 s3.
Proof. intros [A1 A2] [B1 B2]. split; congruence. Qed.

Lemma Quiet_SameDirs {A} (m : M A) : Quiet m -> Steps SameDirs m.
Proof. intros H s. destruct (H s) as (a & s1 & -> & D & R). split; assumption. Qed.

Ltac tidy :=
  steps ltac:(apply Quiet_SameDirs; auto with quiet) SameDirs_refl SameDirs_trans.

Lemma tidy_withInitialisedProject (w : World) (data : Payload)
      (k : SugarProject -> M unit) :
  (forall p, Quiet (k p)) -> Steps SameDirs (withInitialisedProject w data k).
Proof. intros Hk. unfold withInitialisedProject. tidy. Qed.

Lemma tidy_processTaskIpc (w : World) (data : Payload) (g : string) (isMain : bool) :
  Steps SameDirs (processTaskIpc w data g isMain).
Proof.
  pose proof (Quiet_processTaskIpc w data g isMain) as HQ.
  unfold processTaskIpc in *.
  destruct (kindOf (type data)) as [[]|]; try (apply Quiet_SameDirs; exact HQ); clear HQ.
  - unfold schedule_task. tidy.
  - unfold register_group, registerGroup. tidy.
  - unfold sugar_add. destruct (tv (task data)); [|tidy].
    apply tidy_withInitialisedProject. intros p. quiet.
  - unfold sugar_list. apply tidy_withInitialisedProject. intros p. quiet.
  - unfold sugar_status. apply tidy_withInitialisedProject. intros p. quiet.
  - unfold sugar_run. apply tidy_withInitialisedProject. intros p. quiet.
  - unfold sugar_init. tidy.
Qed.

(** *** When a handler throws *)






(** *** One file *)

Lemma Quiet_handlerOf_messages (w : World) (g : string) (isMain : bool) (d : Payload) :
  Quiet (handlerOf w Messages g isMain d).
Proof. apply Quiet_handleMessage. Qed.

Lemma tidy_handlerOf (w : World) (q : Queue) (g : string) (isMain : bool)
      (d : Payload) :
  Steps SameDirs (handlerOf w q g isMain d).
Proof.
  destruct q; [apply Quiet_SameDirs, Quiet_handleMessage | apply tidy_processTaskIpc].
Qed.

(** A payload that was read goes to the handler of its queue. *)
Lemma handling_object (w : World) (q : Queue) (g : string) (isMain : bool)
      (f : IpcFile) (d : Payload) :
  parsed f = JsonObject d ->
  forall s, handling w q g isMain f s = handlerOf w q g isMain d s.
Proof.
  intros Hp s. unfold handling, handleMessageFile, handleTaskFile, fieldsOf.
  rewrite Hp. destruct q; reflexivity.
Qed.

(** A file that cannot be read as a payload: the [try] ends where it
    began. *)
Lemma handling_unread (w : World) (q : Queue) (g : string) (isMain : bool)
      (f : IpcFile) (s : State) :
  parsed f = ParseError \/ parsed f = JsonNull ->
  exists e, handling w q g isMain f s = (Rejected e, s).
Proof.
  unfold handling, handleMessageFile, handleTaskFile, fieldsOf.
  intros [-> | ->]; destruct q; eexists; reflexivity.
Qed.

Lemma tidy_handling (w : World) (q : Queue) (g : string) (isMain : bool) (f : IpcFile) :
  Steps SameDirs (handling w q g isMain f).
Proof.
  intros s. destruct (parsed f) as [| |d] eqn:Hp.
  - destruct (handling_unread w q g isMain f s (or_introl Hp)) as [e ->].
    apply SameDirs_refl.
  - destruct (handling_unread w q g isMain f s (or_intror Hp)) as [e ->].
    apply SameDirs_refl.
  - rewrite (handling_object w q g isMain f d Hp). apply tidy_handlerOf.
Qed.

(** The two ways out of the [try]: the handling returned and the file is
    unlinked; or it threw and the file is moved to [errors/]. *)
Lemma processFile_spec (w : World) (q : Queue) (g : string) (isMain : bool)
      (f : IpcFile) (s : State) :
  processFile w q g isMain f s
  = match (handling w q g isMain f s).1 with
    | Resolved _ =>
        (Resolved (), removeFile q g (file_name f) (handling w q g isMain f s).2)
    | Rejected _ =>
        (Resolved (),
         set_errorsDir
           (fun es => List.filter (fun e => negb (String.eqb (file_name e)
                                                             (g +:+ "-" +:+ file_name f))) es
                      ++ [archived g f])
           (removeFile q g (file_name f) (handling w q g isMain f s).2))
    end.
Proof.
  unfold processFile, tryCatch, unlink, moveToErrors.
  change (match q with
          | Messages => handleMessageFile w g isMain f
          | Tasks => handleTaskFile w g isMain f
          end) with (handling w q g isMain f).
  unfold mbind, M_bind, bind.
  destruct (handling w q g isMain f s) as [[[]|e] s1]; reflexivity.
Qed.


Lemma removeFile_frame (q : Queue) (g n : string) (s : State) :
  host (removeFile q g n s) = host s /\ tasks (removeFile q g n s) = tasks s
  /\ errorsDir (removeFile q g n s) = errorsDir s
  /\ trace (removeFile q g n s) = trace s
  /\ sugarProjects (removeFile q g n s) = sugarProjects s
  /\ runningSugarProcesses (removeFile q g n s) = runningSugarProcesses s.
Proof. repeat split. Qed.

(** [removeFile] looks at the directories only. *)
Lemma removeFile_ipcDirs (q : Queue) (g n : string) (s1 s : State) :
  ipcDirs s1 = ipcDirs s ->
  ipcDirs (removeFile q g n s1) = ipcDirs (removeFile q g n s).
Proof. unfold removeFile. cbn. intros ->. reflexivity. Qed.

(** Handling a file always returns, and does to the queues what
    unlinking the file does. *)
Lemma processFile_queues (w : World) (q : Queue) (g : string) (isMain : bool)
      (f : IpcFile) (s : State) :
  (processFile w q g isMain f s).1 = Resolved ()
  /\ ipcDirs (processFile w q g isMain f s).2
     = ipcDirs (removeFile q g (file_name f) s).
Proof.
  rewrite processFile_spec. destruct (tidy_handling w q g isMain f s) as [D _].
  destruct (handling w q g isMain f s) as [[[]|e] s1]; cbn [fst snd] in *;
    (split; [reflexivity|]); [|cbn [ipcDirs set_errorsDir]];
    apply removeFile_ipcDirs, D.
Qed.

(** *** The claims on the disposal of files *)




(** Handlers that throw.  An interval that leads past the last [Date]:
    [toISOString] throws, no task is made and the file is archived. *)
Lemma interval_past_range_archived :
  (schedule_task Examples.worldFarAhead Cases.intervalRequest "family" false
                 (Examples.ipcState [] [])).1
  = Rejected "Invalid time value"
  /\ file_name <$> errorsDir (processIpcFiles Examples.worldFarAhead
         (Examples.ipcState [] [Examples.file "t.json" Cases.intervalRequest])).2
     = ["family-t.json"]
  /\ tasks (processIpcFiles Examples.worldFarAhead
         (Examples.ipcState [] [Examples.file "t.json" Cases.intervalRequest])).2
     = [].
Proof. vm_compute. repeat split. Qed.

(** A project name that finds [Object.prototype.constructor]:
    [path.join] throws and the file is archived. *)
Lemma inherited_project_archived :
  getSugarProject "constructor" (Examples.ipcState [] []) = Some (Inherited "constructor")
  /\ (exists e, (sugar_status Examples.ipcWorld Cases.inheritedProjectRequest
                              (Examples.ipcState [] [])).1 = Rejected e)
  /\ file_name <$> errorsDir (processIpcFiles Examples.ipcWorld
         (Examples.ipcState [] [Examples.file "p.json" Cases.inheritedProjectRequest])).2
     = ["family-p.json"].
Proof. split; [reflexivity|]. split; [eexists|]; vm_compute; reflexivity. Qed.

(** A folder with a null byte, from [main]: the group is registered,
    then [mkdirSync] throws. *)
Lemma nul_folder_throws_after_registration :
  (exists e, (register_group Examples.ipcWorld Cases.nulFolderRequest true
                             (Examples.ipcState [] [])).1 = Rejected e)
  /\ is_Some (lookupGroup "new@g.us"
                (registeredGroups
                   (host (register_group Examples.ipcWorld Cases.nulFolderRequest true
                                         (Examples.ipcState [] [])).2))).
Proof. split; eexists; vm_compute; reflexivity. Qed.





(** *** Authorization by origin *)

(** A message payload reaches the transport only from [main] or towards a
    chat of the source group; otherwise a warning is all that happens. *)
Lemma ipc_message_authorized (w : World) (g : string) (isMain : bool)
      (d : Payload) (s : State) :
  let s' := (handleMessage w g isMain d s).2 in
  (outbox (host s') <> outbox (host s) ->
   isMain = true
   \/ exists c grp, tv (chatJid d) = Some c
                    /\ lookupGroup c (registeredGroups (host s)) = Some grp
                    /\ folder grp = g)
  /\ tasks s' = tasks s /\ kb (host s') = kb (host s)
  /\ registeredGroups (host s') = registeredGroups (host s).
Proof.
  cbn zeta. unfold handleMessage.
  destruct (type d) as [ty|]; [|cbn; split; [congruence | auto]].
  destruct (tv (chatJid d)) as [c|] eqn:Hc; [|cbn; split; [congruence | auto]].
  destruct (tv (text d)) as [t|]; [|cbn; split; [congruence | auto]].
  destruct (String.eqb ty "message"); [|cbn; split; [congruence | auto]].
  unfold mbind, M_bind, bind, gets. cbn [fst snd].
  destruct isMain; cbn [orb].
  - split; [auto|]. unfold sendMessage, modify, set_host. cbn.
    pose proof (RouterFacts.sendMessage_frame (router w) c
                  (assistant w +:+ ": " +:+ t) (host s)) as HF.
    cbn zeta in HF. destruct HF as (_ & _ & Hg & _). split; [reflexivity|].
    split; [|exact Hg]. unfold Router.sendMessage. destruct (sockSend _ _ _); reflexivity.
  - destruct (lookupGroup c (registeredGroups (host s))) as [grp|] eqn:Hl.
    + destruct (String.eqb_spec (folder grp) g) as [Hf | Hf].
      * split; [intros _; right; eauto|]. unfold sendMessage, modify, set_host. cbn.
        pose proof (RouterFacts.sendMessage_frame (router w) c
                      (assistant w +:+ ": " +:+ t) (host s)) as HF.
        cbn zeta in HF. destruct HF as (_ & _ & Hg & _). split; [reflexivity|].
        split; [|exact Hg]. unfold Router.sendMessage.
        destruct (sockSend _ _ _); reflexivity.
      * cbn. split; [congruence | auto].
    + cbn. split; [congruence | auto].
Qed.

(** Pausing, resuming and cancelling change the task table only for a
    task of the source group, or from [main]. *)
Lemma task_mutation_authorized (data : Payload) (g : string) (isMain : bool)
      (change : string -> list Task -> list Task) (refusal : string) (s : State) :
  let s' := (onOwnTask data g isMain change refusal s).2 in
  (tasks s' <> tasks s ->
   isMain = true
   \/ exists i tk, tv (taskId data) = Some i /\ getTask i s = Some tk
                   /\ task_group_folder tk = g)
  /\ host s' = host s.
Proof.
  cbn zeta. unfold onOwnTask.
  destruct (tv (taskId data)) as [i|] eqn:Hi; [|cbn; split; [congruence | reflexivity]].
  unfold mbind, M_bind, bind, gets. cbn [fst snd].
  destruct (getTask i s) as [tk|] eqn:Ht; [|cbn; split; [congruence | reflexivity]].
  destruct isMain; cbn [orb]; [cbn; auto|].
  destruct (String.eqb_spec (task_group_folder tk) g) as [Hg | Hg].
  - cbn. split; [intros _; right; eauto | reflexivity].
  - cbn. split; [congruence | reflexivity].
Qed.

(** [kb_delete] from a group that names itself, or no group, as the
    target: the source with the given id is removed whatever group it
    belongs to, since the id is all the delete is given. *)
Lemma kb_delete_ignores_owner (w : World) (data : Payload) (g sid : string)
      (s : State) :
  targetGroupOf data g = g ->
  tv (sourceId data) = Some sid ->
  kb (host (kb_delete w data g false s).2)
  = Kb.storage_deleteSource sid (kb (host s)).
Proof.
  intros Ht Hs. unfold kb_delete. rewrite Ht, String.eqb_refl, Hs. cbn [negb andb].
  unfold mbind, M_bind, bind, onKb, Kb.deleteSource. cbn.
  unfold reply. destruct (chatJid data) as [c|]; [|reflexivity].
  unfold when. destruct (Js.truthy c); [|reflexivity].
  unfold sendMessage, modify, set_host, Router.sendMessage. cbn.
  destruct (sockSend _ _ _); reflexivity.
Qed.

(** C1, at the input where the code parts from it.  The group [family]
    drops [{type: kb_delete, sourceId: kb-c}] in its own directory; the
    source [kb-c] belongs to the group [work].  The source and its chunk
    are deleted, and nothing is logged as unauthorized. *)
Theorem kb_delete_crosses_groups :
  (exists src, src ∈ Kb.sources (kb (host (Examples.ipcState [] [])))
               /\ Kb.id src = "kb-c" /\ Kb.group_folder src = "work")
  /\ Kb.id <$> Kb.sources (kb (host (Examples.ipcState [] []))) = ["kb-a"; "kb-b"; "kb-c"]
  /\ Kb.id <$> Kb.sources (kb (host (processIpcFiles Examples.ipcWorld
         (Examples.ipcState [] [Examples.file "d.json" Examples.deleteRequest])).2))
     = ["kb-a"; "kb-b"]
  /\ Kb.source_id <$> Kb.chunks (kb (host (processIpcFiles Examples.ipcWorld
         (Examples.ipcState [] [Examples.file "d.json" Examples.deleteRequest])).2))
     = ["kb-a"; "kb-b"; "kb-a"; "kb-b"; "kb-a"]
  /\ trace (processIpcFiles Examples.ipcWorld
         (Examples.ipcState [] [Examples.file "d.json" Examples.deleteRequest])).2
     = [].
Proof.
  split.
  - exists (Examples.src "kb-c" "work"). split; [|split; reflexivity].
    right. right. left.
  - vm_compute. repeat split.
Qed.

(** *** External commands *)

Lemma prefix_app (n b : string) : String.prefix n (n +:+ b) = true.
Proof.
  induction n as [|c n IH]; [destruct b; reflexivity|].
  change (String c n +:+ b) with (String c (n +:+ b)). cbn [String.prefix].
  destruct (ascii_dec c c); [exact IH | contradiction].
Qed.

Lemma includes_here (n b : string) : Js.includes n (n +:+ b) = true.
Proof.
  destruct (n +:+ b) eqn:E; cbn [Js.includes]; rewrite <- E, prefix_app; reflexivity.
Qed.

Lemma includes_app_r (n a b : string) :
  Js.includes n b = true -> Js.includes n (a +:+ b) = true.
Proof.
  intros H. induction a as [|c a IH]; [exact H|].
  change (String c a +:+ b) with (String c (a +:+ b)). cbn [Js.includes].
  rewrite IH. apply orb_true_r.
Qed.

Lemma prefix_app_l (n a b : string) :
  String.prefix n a = true -> String.prefix n (a +:+ b) = true.
Proof.
  revert a. induction n as [|c n IH]; intros a H.
  - destruct (a +:+ b); reflexivity.
  - destruct a as [|d a]; [discriminate|].
    change (String d a +:+ b) with (String d (a +:+ b)). cbn [String.prefix] in *.
    destruct (ascii_dec c d); [apply IH, H | discriminate].
Qed.

Lemma includes_app_l (n a b : string) :
  Js.includes n a = true -> Js.includes n (a +:+ b) = true.
Proof.
  induction a as [|c a IH]; intros H.
  - cbn [Js.includes] in H. rewrite orb_false_r in H.
    destruct n; [|discriminate]. destruct ("" +:+ b); reflexivity.
  - change (String c a +:+ b) with (String c (a +:+ b)). cbn [Js.includes] in *.
    apply orb_true_iff in H as [H | H].
    + change (String c (a +:+ b)) with (String c a +:+ b).
      rewrite prefix_app_l by exact H. reflexivity.
    + rewrite IH by exact H. apply orb_true_r.
Qed.

(** The command of [sugar_add] carries the task text, escaped as the
    handler escapes it, inside the one string it hands to the shell. *)
Lemma sugarAddCommand_interpolates (pr : SugarProject) (data : Payload) (t : string) :
  Js.includes (safeTaskOf t) (sugarAddCommand pr data t) = true.
Proof.
  unfold sugarAddCommand.
  assert (Js.includes (safeTaskOf t)
            ("cd " +:+ Format.dq +:+ project_path pr +:+ Format.dq +:+ " && "
             +:+ sugarCmd ("add " +:+ Format.dq +:+ safeTaskOf t +:+ Format.dq)) = true)
    as H0.
  { unfold sugarCmd. do 10 apply includes_app_r. apply includes_here. }
  destruct (tvZ (priority data));
    destruct (tv _) as [ty|]; try destruct (inb ty validTypes);
    first [ exact H0
          | apply includes_app_l; first [exact H0 | apply includes_app_l; exact H0] ].
Qed.

(** Every [sugar_add] on the default project, once it is initialised,
    spawns exactly that: [execSync] on the string, for 30 s at most. *)
Lemma sugar_add_spawns (w : World) (data : Payload) (t : string)
      (pr : SugarProject) (s : State) :
  tv (task data) = Some t ->
  tv (project data) = None -> tv (projectName data) = None ->
  getDefaultSugarProject s = Some pr ->
  existsSync w (sugarDir pr) = true ->
  trace (sugar_add w data s).2
  = trace s ++ [ExecSync (sugarAddCommand pr data t +:+ " 2>" +:+ tmpFile w) 30000].
Proof.
  intros Ht Hp Hn Hd He. unfold sugar_add, withInitialisedProject. rewrite Ht, Hp.
  unfold resolveProject. destruct (projectName data) as [n|].
  - rewrite Hn. unfold mbind, M_bind, bind, gets. cbn [fst snd]. rewrite Hd.
    cbn [fmap option_fmap option_map]. rewrite He.
    cbn [negb]. unfold execSyncCmd, mbind, M_bind, bind, emit, modify. cbn.
    unfold reply. destruct (chatJid data) as [c|]; [|reflexivity].
    unfold when. destruct (Js.truthy c); [|reflexivity].
    unfold sendMessage, modify. reflexivity.
  - cbn [tv]. unfold mbind, M_bind, bind, gets. cbn [fst snd]. rewrite Hd.
    cbn [fmap option_fmap option_map]. rewrite He.
    cbn [negb]. unfold execSyncCmd, mbind, M_bind, bind, emit, modify. cbn.
    unfold reply. destruct (chatJid data) as [c|]; [|reflexivity].
    unfold when. destruct (Js.truthy c); [|reflexivity].
    unfold sendMessage, modify. reflexivity.
Qed.

(** C8, at inputs where the code parts from it.  [sugar_add] hands one
    string to a shell, and a task text with a backslash before a double
    quote ends the quoting the handler put around it: the shell reads
    [touch /tmp/pwned] as a command of its own.  [github_list_issues]
    puts the repository name into the string as it is.  [sugar_run]
    starts its command with no time limit. *)
Theorem external_commands_through_shell :
  (exists cmd,
      trace (processIpcFiles Examples.ipcWorld
               (Examples.ipcState [] [Examples.file "a.json" Examples.sugarAddRequest])).2
      = [ExecSync cmd 30000]
      /\ argvStyle (ExecSync cmd 30000) = false
      /\ Sh.commands cmd !! 1%nat = Some " touch /tmp/pwned")
  /\ (exists cmd,
         trace (processIpcFiles Examples.ipcWorld
                  (Examples.ipcState [] [Examples.file "i.json" Examples.issuesRequest])).2
         = [ExecSync cmd 30000]
         /\ Sh.commands cmd
            = ["gh issue list --repo o/r";
               " touch /tmp/pwned # --json number,title,state,labels 2>"
               +:+ tmpFile Examples.ipcWorld])
  /\ (exists cmd,
         trace (processIpcFiles Examples.ipcWorld
                  (Examples.ipcState [] [Examples.file "r.json" Examples.sugarRunRequest])).2
         = [Exec cmd None]).
Proof.
  split; [|split]; eexists; vm_compute; repeat split.
Qed.

End IpcFacts.
(** ** Strings *)

Module StringFacts.

Lemma str_app_cons (c : ascii) (a b : string) : String c a +:+ b = String c (a +:+ b).
Proof. reflexivity. Qed.

Lemma str_app_nil_l (s : string) : "" +:+ s = s.
Proof. reflexivity. Qed.

Lemma str_app_nil_r (s : string) : s +:+ "" = s.
Proof. induction s as [|c s IH]; [reflexivity|]. rewrite str_app_cons, IH. reflexivity. Qed.

Lemma str_app_assoc (a b c : string) : a +:+ (b +:+ c) = (a +:+ b) +:+ c.
Proof. induction a as [|x a IH]; [reflexivity|]. rewrite !str_app_cons, IH. reflexivity. Qed.

Lemma str_length_app (a b : string) :
  String.length (a +:+ b) = String.length a + String.length b.
Proof.
  induction a as [|x a IH]; [reflexivity|]. rewrite str_app_cons. cbn [String.length].
  rewrite IH. reflexivity.
Qed.

Lemma str_rev_app_spec (a b : string) : String.rev_app a b = String.rev a +:+ b.
Proof.
  revert b. induction a as [|x a IH]; intros b; [reflexivity|].
  unfold String.rev. cbn [String.rev_app].
  rewrite (IH (String x b)), (IH (String x "")), <- str_app_assoc. reflexivity.
Qed.

Lemma str_rev_cons (x : ascii) (a : string) :
  String.rev (String x a) = String.rev a +:+ String x "".
Proof. unfold String.rev at 1. cbn [String.rev_app]. apply str_rev_app_spec. Qed.

Lemma str_rev_app (a b : string) : String.rev (a +:+ b) = String.rev b +:+ String.rev a.
Proof.
  induction a as [|x a IH]; [rewrite str_app_nil_l; symmetry; apply str_app_nil_r|].
  rewrite str_app_cons, !str_rev_cons, IH, str_app_assoc. reflexivity.
Qed.

Lemma str_rev_involutive (a : string) : String.rev (String.rev a) = a.
Proof.
  induction a as [|x a IH]; [reflexivity|].
  rewrite str_rev_cons, str_rev_app, IH. reflexivity.
Qed.

Lemma str_chars_app (a b : string) :
  list_ascii_of_string (a +:+ b) = list_ascii_of_string a ++ list_ascii_of_string b.
Proof.
  induction a as [|x a IH]; [reflexivity|]. rewrite str_app_cons. cbn [list_ascii_of_string].
  rewrite IH. reflexivity.
Qed.

End StringFacts.

(** ** The prompt: escaping of message text *)

Module PromptFacts.

Import Router StringFacts.

Lemma replaceChar_app (c : ascii) (r a b : string) :
  Js.replaceChar c r (a +:+ b) = Js.replaceChar c r a +:+ Js.replaceChar c r b.
Proof.
  induction a as [|d a IH]; [reflexivity|].
  rewrite str_app_cons. cbn [Js.replaceChar]. rewrite IH.
  destruct (Ascii.eqb c d); [apply str_app_assoc | reflexivity].
Qed.

(** What [escapeXml] writes for one character. *)
Lemma escapeXml_cons (d : ascii) (t : string) :
  escapeXml (String d t)
  = (if Ascii.eqb d "&"%char then "&amp;"
     else if Ascii.eqb d "<"%char then "&lt;"
     else if Ascii.eqb d ">"%char then "&gt;"
     else if Ascii.eqb d "034"%char then "&quot;"
     else String d "") +:+ escapeXml t.
Proof.
  unfold escapeXml. cbn [Js.replaceChar].
  destruct (Ascii.eqb_spec d "&"%char) as [-> | Hamp].
  { cbn [Ascii.eqb Bool.eqb]. rewrite !replaceChar_app. reflexivity. }
  rewrite (proj2 (Ascii.eqb_neq _ _)) by congruence.
  cbn [Js.replaceChar].
  destruct (Ascii.eqb_spec d "<"%char) as [-> | Hlt].
  { cbn [Ascii.eqb Bool.eqb]. rewrite !replaceChar_app. reflexivity. }
  rewrite (proj2 (Ascii.eqb_neq _ _)) by congruence.
  cbn [Js.replaceChar].
  destruct (Ascii.eqb_spec d ">"%char) as [-> | Hgt].
  { cbn [Ascii.eqb Bool.eqb]. rewrite !replaceChar_app. reflexivity. }
  rewrite (proj2 (Ascii.eqb_neq _ _)) by congruence.
  cbn [Js.replaceChar].
  destruct (Ascii.eqb_spec d "034"%char) as [-> | Hq].
  { cbn [Ascii.eqb Bool.eqb]. reflexivity. }
  rewrite (proj2 (Ascii.eqb_neq _ _)) by congruence.
  reflexivity.
Qed.

(** X1.  Escaped text carries no markup: whatever a sender's name or a
    message holds, no [<], [>] or double quote is left in what
    [escapeXml] returns, so message text cannot close or open an element
    or an attribute of the prompt. *)
Theorem escapeXml_no_markup (s : string) :
  Forall (fun c => c <> "<"%char /\ c <> ">"%char /\ c <> "034"%char)
         (list_ascii_of_string (escapeXml s)).
Proof.
  induction s as [|d t IH]; [constructor|].
  rewrite escapeXml_cons, str_chars_app. apply Forall_app. split; [|exact IH].
  destruct (Ascii.eqb_spec d "&"%char); [repeat constructor; discriminate|].
  destruct (Ascii.eqb_spec d "<"%char); [repeat constructor; discriminate|].
  destruct (Ascii.eqb_spec d ">"%char); [repeat constructor; discriminate|].
  destruct (Ascii.eqb_spec d "034"%char); [repeat constructor; discriminate|].
  repeat constructor; assumption.
Qed.

(** X2.  Escaping loses nothing: two texts with the same escaped form
    are the same text. *)
Theorem escapeXml_injective (a b : string) :
  escapeXml a = escapeXml b -> a = b.
Proof.
  revert b. induction a as [|x a IH]; intros [|y b] H.
  - reflexivity.
  - rewrite escapeXml_cons in H. exfalso.
    destruct (Ascii.eqb y "&"%char); [discriminate|].
    destruct (Ascii.eqb y "<"%char); [discriminate|].
    destruct (Ascii.eqb y ">"%char); [discriminate|].
    destruct (Ascii.eqb y "034"%char); discriminate.
  - rewrite escapeXml_cons in H. exfalso.
    destruct (Ascii.eqb x "&"%char); [discriminate|].
    destruct (Ascii.eqb x "<"%char); [discriminate|].
    destruct (Ascii.eqb x ">"%char); [discriminate|].
    destruct (Ascii.eqb x "034"%char); discriminate.
  - rewrite !escapeXml_cons in H.
    destruct (Ascii.eqb_spec x "&"%char) as [-> | Hx1];
      destruct (Ascii.eqb_spec y "&"%char) as [-> | Hy1];
      try (destruct (Ascii.eqb_spec x "<"%char) as [-> | Hx2]);
      try (destruct (Ascii.eqb_spec y "<"%char) as [-> | Hy2]);
      try (destruct (Ascii.eqb_spec x ">"%char) as [-> | Hx3]);
      try (destruct (Ascii.eqb_spec y ">"%char) as [-> | Hy3]);
      try (destruct (Ascii.eqb_spec x "034"%char) as [-> | Hx4]);
      try (destruct (Ascii.eqb_spec y "034"%char) as [-> | Hy4]);
      rewrite ?str_app_cons, ?str_app_nil_l in H;
      try discriminate;
      try (injection H as H; f_equal; apply IH; exact H);
      try (injection H as Hc H; subst; try contradiction; f_equal; apply IH; exact H).
Qed.

Lemma escapeXml_injective_witness :
  escapeXml "a<b" = escapeXml "a<b" /\ "a<b" = "a<b".
Proof.
  split; [reflexivity|]. apply (escapeXml_injective "a<b" "a<b"). reflexivity.
Defined.

End PromptFacts.

(** ** The trigger: case *)

Module TriggerCase.

Import Trigger.

Lemma is_word_char_upcase (c : ascii) : is_word_char (upcase c) = is_word_char c.
Proof. destruct c as [[] [] [] [] [] [] [] []]; reflexivity. Qed.

Lemma ci_eqb_word (a b : ascii) :
  ci_eqb a b = true -> is_word_char a = is_word_char b.
Proof.
  unfold ci_eqb. intros H. apply Ascii.eqb_eq in H.
  rewrite <- (is_word_char_upcase a), <- (is_word_char_upcase b), H. reflexivity.
Qed.

Lemma ci_eqb_trans_l (c a b : ascii) :
  ci_eqb a b = true -> ci_eqb c a = ci_eqb c b.
Proof. unfold ci_eqb. intros H. apply Ascii.eqb_eq in H. rewrite H. reflexivity. Qed.

Lemma ci_eqb_trans_r (c a b : ascii) :
  ci_eqb a b = true -> ci_eqb a c = ci_eqb b c.
Proof. unfold ci_eqb. intros H. apply Ascii.eqb_eq in H. rewrite H. reflexivity. Qed.

Lemma ci_equal_head (s s' : string) :
  ci_equal s s' = true -> is_word (head s) = is_word (head s').
Proof.
  destruct s as [|a s], s' as [|b s']; simpl; try discriminate; [reflexivity|].
  intros H. apply andb_true_iff in H as [H _].
  rewrite TriggerFacts.sameLetter_ci_eqb in H. apply ci_eqb_word, H.
Qed.

(** Matching literals and a word boundary looks at letters up to their
    case, in the pattern and in the text. *)
Lemma match_here_case (p p' : string) :
  ci_equal p p' = true ->
  forall (prev prev' : option ascii) (at0 : bool) (s s' : string),
    ci_equal s s' = true -> is_word prev = is_word prev' ->
    match_here (map ALit (list_ascii_of_string p) ++ [AWordB]) prev at0 s
    = match_here (map ALit (list_ascii_of_string p') ++ [AWordB]) prev' at0 s'.
Proof.
  revert p'. induction p as [|a p IH]; intros [|a' p'] Hp; try discriminate;
    intros prev prev' at0 s s' Hs Hprev; simpl.
  - rewrite Hprev, (ci_equal_head s s' Hs). reflexivity.
  - simpl in Hp. apply andb_true_iff in Hp as [Ha Hp].
    destruct s as [|d s], s' as [|d' s']; simpl in Hs; try discriminate; [reflexivity|].
    apply andb_true_iff in Hs as [Hd Hs].
    rewrite TriggerFacts.sameLetter_ci_eqb in Ha, Hd.
    rewrite (ci_eqb_trans_r d a a' Ha), (ci_eqb_trans_l a' d d' Hd).
    f_equal. apply (IH p' Hp); [exact Hs|]. simpl. apply ci_eqb_word, Hd.
Qed.

Lemma at_sign_case (a : ascii) : ci_eqb "@" a = true -> a = "@"%char.
Proof. destruct a as [[] [] [] [] [] [] [] []]; intros H; try discriminate H; reflexivity. Qed.

Lemma name_case (t t' : string) :
  ci_equal t t' = true ->
  ci_equal (getAssistantNameFromTrigger t) (getAssistantNameFromTrigger t') = true.
Proof.
  unfold getAssistantNameFromTrigger, Js.startsWith, Js.slice1.
  destruct t as [|a t], t' as [|a' t']; cbn [ci_equal String.prefix];
    try discriminate; [reflexivity|].
  intros H. apply andb_true_iff in H as [Ha Ht].
  rewrite TriggerFacts.sameLetter_ci_eqb in Ha.
  destruct (ascii_dec "@" a) as [<- | Hne], (ascii_dec "@" a') as [<- | Hne'].
  - destruct t, t'; exact Ht.
  - exfalso. apply Hne'. symmetry. apply at_sign_case, Ha.
  - exfalso. apply Hne. symmetry. apply at_sign_case.
    unfold ci_eqb in *. rewrite Ascii.eqb_sym. exact Ha.
  - cbn [ci_equal]. rewrite TriggerFacts.sameLetter_ci_eqb, Ha, Ht. reflexivity.
Qed.

(** X3.  The trigger is matched without regard to the case of letters,
    in the configured trigger and in the message alike: two triggers, and
    two messages, that are equal character by character up to a letter
    standing in its other case, get the same verdict.  The letters are
    [a] to [z] and, above them, U+00E0 to U+00FE without the division
    sign, each with its upper-case form 32 below it; the micro sign, the
    sharp s and the y with diaeresis have no other case among the
    characters of these strings. *)
Theorem trigger_ignores_case (t t' c c' : string) :
  ci_equal t t' = true -> ci_equal c c' = true ->
  triggerTest t c = triggerTest t' c'.
Proof.
  intros Ht Hc. unfold triggerTest, regex_test_i.
  rewrite !TriggerFacts.parse_buildTriggerPattern. simpl.
  rewrite !TriggerFacts.search_anchored.
  apply (match_here_case ("@" +:+ getAssistantNameFromTrigger t)
                         ("@" +:+ getAssistantNameFromTrigger t')).
  - simpl. apply name_case, Ht.
  - exact Hc.
  - reflexivity.
Qed.

Lemma trigger_ignores_case_witness :
  triggerTest (String "@" (String "201" "lan"))
              (String "@" (String "233" "lan status"))
  = triggerTest (String "@" (String "233" "LAN"))
                (String "@" (String "201" "LAN Status"))
  /\ triggerTest (String "@" (String "233" "LAN"))
                 (String "@" (String "201" "LAN Status")) = true.
Proof.
  split; [|reflexivity].
  apply (trigger_ignores_case (String "@" (String "201" "lan"))
                              (String "@" (String "233" "LAN"))
                              (String "@" (String "233" "lan status"))
                              (String "@" (String "201" "LAN Status")));
    reflexivity.
Defined.

(** The division sign and the multiplication sign, 32 apart as the
    letters around them are, are not one letter; nor is the y with
    diaeresis the same as the character 32 below it. *)
Lemma signs_are_not_letters :
  sameLetter "247" "215" = false /\ ci_eqb "247" "215" = false
  /\ sameLetter "255" "223" = false /\ ci_eqb "255" "223" = false
  /\ triggerTest (String "@" (String "247" "")) (String "@" (String "215" " x")) = false.
Proof. repeat split. Qed.

End TriggerCase.

(** ** Replies, sessions and the state files *)

Module LoopFacts.

Import Router RouterFacts LoopSpec.

(** X4.  What handling one message can do to the outbox and to the mark
    of the last agent interaction: nothing; or, when the agent came back
    with a non-empty answer, the mark of the chat moves to the time stamp
    of the message, and the answer goes to that same chat, prefixed with
    the name the group's assistant answers by (if the transport takes
    it).  The mark moves even when the transport refuses the text. *)
Theorem reply_bookkeeping (w : World) (msg : NewMessage) (s : State) :
  let s' := (processMessage w msg s).2 in
  (outbox s' = outbox s /\ lastAgentTimestamp s' = lastAgentTimestamp s)
  \/ exists g r,
      lookupGroup (chat_jid msg) (registeredGroups s) = Some g
      /\ (runAgent w g (buildPrompt (contextWindow g msg s)) (chat_jid msg)
                   (content <$> last (contextWindow g msg s)) s).1 = Some r
      /\ Js.truthy r = true
      /\ lastAgentTimestamp s'
         = <[chat_jid msg := timestamp msg]> (lastAgentTimestamp s)
      /\ outbox s'
         = outbox s ++
             (if sockSend w (chat_jid msg) (responsePrefixOf w g +:+ ": " +:+ r)
              then [(chat_jid msg, responsePrefixOf w g +:+ ": " +:+ r)]
              else []).
Proof.
  cbn zeta. unfold processMessage.
  destruct (lookupGroup (chat_jid msg) (registeredGroups s)) as [g|] eqn:Hg;
    [|left; split; reflexivity].
  destruct (passesTrigger g (content msg)); cbn [negb]; [|left; split; reflexivity].
  destruct (readFails w (chat_jid msg)); [left; split; reflexivity|].
  fold (contextWindow g msg s). rewrite buildPrompt_truthy. cbn [negb].
  pose proof (runAgent_frame w g (buildPrompt (contextWindow g msg s)) (chat_jid msg)
                             (content <$> last (contextWindow g msg s)) s) as HF.
  cbn zeta in HF.
  destruct (runAgent w g (buildPrompt (contextWindow g msg s)) (chat_jid msg)
                     (content <$> last (contextWindow g msg s)) s) as [resp s1] eqn:HR.
  cbn [fst snd] in *. destruct HF as (_ & _ & Hats & _ & _ & Hout).
  destruct resp as [r|]; [destruct (Js.truthy r) eqn:Htr|]; cbn [snd].
  - right. exists g, r. split; [reflexivity|]. rewrite HR. split; [reflexivity|].
    split; [exact Htr|]. fold (responsePrefixOf w g).
    unfold sendMessage. destruct (sockSend w _ _); cbn; rewrite Hats, Hout.
    + split; reflexivity.
    + rewrite app_nil_r. split; reflexivity.
  - left. split; assumption.
  - left. split; assumption.
Qed.

(** X5.  Session continuity.  After a run whose response carried a
    session id, the next request written for the same group folder
    carries that id, and the requests of the other groups carry what they
    carried before. *)
Theorem session_resumed (w : World) (g : RegisteredGroup) (p j : string)
        (l : option string) (s : State) (out : ContainerOutput) (sid : string) :
  runContainerAgent w g (agentInput w g p j l s) = Resolved out ->
  newSessionId out = Some sid -> sid <> "" ->
  let s' := (runAgent w g p j l s).2 in
  forall (g' : RegisteredGroup) (p' j' : string) (l' : option string),
    sessionId (agentInput w g' p' j' l' s')
    = if String.eqb (folder g') (folder g) then Some sid
      else sessionId (agentInput w g' p' j' l' s).
Proof.
  intros Hout Hsid Hne s' g' p' j' l'. subst s'. unfold runAgent. rewrite Hout, Hsid.
  assert (Js.truthy sid = true) as ->.
  { unfold Js.truthy. destruct (String.eqb_spec sid ""); [contradiction | reflexivity]. }
  assert (sessions (storeSession (folder g) sid
                      (recordRun (agentInput w g p j l s) s)) !! folder g'
          = if String.eqb (folder g') (folder g) then Some sid
            else sessions s !! folder g') as H.
  { cbn [sessions storeSession recordRun].
    destruct (String.eqb_spec (folder g') (folder g)) as [-> | Hf].
    - apply lookup_insert_eq.
    - apply lookup_insert_ne. congruence. }
  destruct (status out); cbn [snd agentInput sessionId]; exact H.
Qed.

Lemma session_resumed_witness :
  sessionId (agentInput Examples.worldOk Examples.family "q" "family@g.us" None
               (runAgent Examples.worldOk Examples.family "p" "family@g.us" None
                         Examples.s0).2)
  = Some "s2".
Proof.
  refine (session_resumed Examples.worldOk Examples.family "p" "family@g.us" None
            Examples.s0 _ "s2" eq_refl eq_refl _ Examples.family "q" "family@g.us" None).
  discriminate.
Defined.

Lemma advance_Persisted (ts : string) (s : State) : Persisted (advance ts s).
Proof. split; reflexivity. Qed.

Lemma processBatch_Persisted (w : World) (msgs : list NewMessage) :
  forall s, Persisted s -> Persisted (processBatch w msgs s).
Proof.
  induction msgs as [|m rest IH]; intros s Hs; simpl; [exact Hs|].
  destruct (processMessage w m s) as [[[]|e] s1] eqn:E.
  - apply IH, advance_Persisted.
  - rewrite (processMessage_rejected_state _ _ _ _ _ E). exact Hs.
Qed.

(** X6.  One iteration of the message loop keeps the state files
    current: if [router_state.json] and [sessions.json] hold what the
    variables hold when the iteration starts, they do when it ends,
    whether every message was handled or handling one raised. *)
Theorem poll_keeps_files_current (w : World) (s : State) :
  Persisted s -> Persisted (pollOnce w s).
Proof.
  intros Hs. unfold pollOnce. destruct (pollFails w (lastTimestamp s)); [exact Hs|].
  apply processBatch_Persisted, Hs.
Qed.

Lemma poll_keeps_files_current_witness :
  Persisted Examples.s0 /\ Persisted (pollOnce Examples.worldOk Examples.s0).
Proof.
  assert (Persisted Examples.s0) as H by (split; reflexivity).
  split; [exact H | exact (poll_keeps_files_current Examples.worldOk Examples.s0 H)].
Defined.

(** X7.  A batch in which no read of the store fails is worked through
    to its end: [lastTimestamp] is then the time stamp of the last
    message of the batch, whatever the agent or the transport did on the
    way. *)
Theorem batch_runs_to_end (w : World) (msgs : list NewMessage) :
  forall s,
    Forall (fun m => readFails w (chat_jid m) = false) msgs ->
    lastTimestamp (processBatch w msgs s)
    = default (lastTimestamp s) (timestamp <$> last msgs).
Proof.
  induction msgs as [|m rest IH]; intros s Hok; [reflexivity|].
  apply Forall_cons in Hok as [Hm Hrest]. cbn [processBatch].
  destruct (processMessage w m s) as [[[]|e] s1] eqn:E.
  - rewrite (IH _ Hrest). cbn [lastTimestamp advance].
    destruct rest as [|m' rest']; [reflexivity|]. rewrite last_cons_cons.
    destruct (last (m' :: rest')) as [x|] eqn:Hl; [reflexivity|].
    apply last_None in Hl. discriminate.
  - exfalso.
    destruct (proj1 (processMessage_rejected_iff w m s)) as (g & _ & _ & Hr); [eauto|].
    congruence.
Qed.

Lemma batch_runs_to_end_witness :
  lastTimestamp (processBatch Examples.worldTimeout [Examples.m1; Examples.mBlank]
                              Examples.s0)
  = "2026-02-01T10:00:03Z".
Proof.
  apply (batch_runs_to_end Examples.worldTimeout [Examples.m1; Examples.mBlank]
                           Examples.s0).
  repeat constructor.
Defined.

End LoopFacts.

(** ** Which messages count as questions *)

Module QueryFacts.

Import Router StringFacts.

(** The white space of [trim] and of the class [\s], character by
    character. *)
Lemma isWhiteSpace_spec (c : ascii) :
  c ∈ TextSpec.whiteSpace <-> Js.isWhiteSpace c = true.
Proof.
  assert (existsb (Ascii.eqb c) TextSpec.whiteSpace = Js.isWhiteSpace c) as <-
      by (destruct c as [[] [] [] [] [] [] [] []]; reflexivity).
  rewrite existsb_exists. split.
  - intros H. exists c. split; [apply list_elem_of_In, H | apply Ascii.eqb_refl].
  - intros (x & Hx & E). apply Ascii.eqb_eq in E. subst x. apply list_elem_of_In, Hx.
Qed.

Lemma trimStart_blank (ws x : string) :
  Forall (fun c => Js.isWhiteSpace c = true) (list_ascii_of_string ws) ->
  Js.trimStart (ws +:+ x) = Js.trimStart x.
Proof.
  induction ws as [|c ws IH]; intros H; [reflexivity|].
  cbn [list_ascii_of_string] in H. apply Forall_cons in H as [Hc H].
  rewrite str_app_cons. cbn [Js.trimStart]. rewrite Hc. apply IH, H.
Qed.

(** Trimming at the start stops at the latest where a character that is
    no white space stands. *)
Lemma trimStart_stops (a : string) (c : ascii) (b : string) :
  Js.isWhiteSpace c = false ->
  exists z, Js.trimStart (a +:+ String c b) = z +:+ String c b.
Proof.
  intros Hc. induction a as [|d a IH].
  - exists "". cbn [Js.trimStart]. rewrite str_app_nil_l. cbn [Js.trimStart].
    rewrite Hc. reflexivity.
  - rewrite str_app_cons. cbn [Js.trimStart]. destruct (Js.isWhiteSpace d); [exact IH|].
    exists (String d a). reflexivity.
Qed.

Lemma rev_blank (ws : string) :
  Forall (fun c => Js.isWhiteSpace c = true) (list_ascii_of_string ws) ->
  Forall (fun c => Js.isWhiteSpace c = true) (list_ascii_of_string (String.rev ws)).
Proof.
  induction ws as [|c ws IH]; intros H; [constructor|].
  cbn [list_ascii_of_string] in H. apply Forall_cons in H as [Hc H].
  rewrite str_rev_cons, str_chars_app. apply Forall_app. split; [apply IH, H|].
  repeat constructor. exact Hc.
Qed.

Lemma ci_prefix_app (p x : string) : ci_prefix p (p +:+ x) = true.
Proof.
  induction p as [|a p IH]; [reflexivity|]. rewrite str_app_cons. cbn [ci_prefix].
  unfold Trigger.ci_eqb at 1. rewrite Ascii.eqb_refl. exact IH.
Qed.

(** A text that begins with a word whose first and last characters are
    no white space still begins with it when trimmed. *)
Lemma trim_keeps_head (a : ascii) (p : string) (z : ascii) (rest : string) :
  Js.isWhiteSpace a = false -> Js.isWhiteSpace z = false ->
  exists rest', Js.trim (String a (p +:+ String z rest))
                = String a (p +:+ String z rest').
Proof.
  intros Ha Hz. unfold Js.trim. cbn [Js.trimStart]. rewrite Ha.
  change (String a (p +:+ String z rest)) with (String a p +:+ String z rest).
  rewrite str_rev_app, (str_rev_cons z rest), <- str_app_assoc.
  change (String z "" +:+ String.rev (String a p)) with (String z (String.rev (String a p))).
  destruct (trimStart_stops (String.rev rest) z (String.rev (String a p)) Hz) as (y & ->).
  exists (String.rev y).
  rewrite str_rev_app, (str_rev_cons z), str_rev_involutive, <- str_app_assoc.
  reflexivity.
Qed.

(** X8.  What [isSearchQuery] takes for a question: every text that
    begins with one of the interrogative words, in any case and whatever
    comes right after the word; and every text whose last character
    before trailing white space is a question mark.  White space is what
    [trim] removes: tab, line feed, vertical tab, form feed, carriage
    return, space and the no-break space. *)
Theorem search_query_recognised (p rest c ws : string) :
  (p ∈ interrogatives -> isSearchQuery (p +:+ rest) = true)
  /\ (Forall (fun c => c ∈ TextSpec.whiteSpace) (list_ascii_of_string ws) ->
      isSearchQuery (c +:+ "?" +:+ ws) = true).
Proof.
  split.
  - intros Hp. unfold isSearchQuery. apply orb_true_iff. left.
    apply existsb_exists. exists p. split; [apply list_elem_of_In, Hp|].
    assert (exists a q z, p = String a (q +:+ String z "")
                          /\ Js.isWhiteSpace a = false /\ Js.isWhiteSpace z = false)
      as (a & q & z & -> & Ha & Hz).
    { unfold interrogatives in Hp. rewrite !elem_of_cons in Hp.
      repeat (destruct Hp as [-> | Hp];
              [match goal with
               | |- exists a q z, String ?x ?s = _ /\ _ =>
                   exists x;
                   let r := eval vm_compute in (String.rev s) in
                   match r with
                   | String ?y ?t =>
                       let q := eval vm_compute in (String.rev t) in
                       exists q, y; repeat split
                   end
               end|]).
      inversion Hp. }
    rewrite str_app_cons, <- str_app_assoc, str_app_cons, str_app_nil_l.
    destruct (trim_keeps_head a q z rest Ha Hz) as (rest' & ->).
    replace (String a (q +:+ String z rest'))
      with (String a (q +:+ String z "") +:+ rest')
      by (rewrite str_app_cons, <- str_app_assoc; reflexivity).
    apply ci_prefix_app.
  - intros Hws.
    apply (Forall_impl _ (fun c => Js.isWhiteSpace c = true)) in Hws;
      [|intros a; apply isWhiteSpace_spec].
    unfold isSearchQuery. apply orb_true_iff. right.
    unfold Js.trim. rewrite str_rev_involutive.
    destruct (trimStart_stops c "?" ws eq_refl) as (y & Hy).
    change (c +:+ "?" +:+ ws) with (c +:+ String "?" ws). rewrite Hy.
    change (y +:+ String "?" ws) with (y +:+ (String "?" "" +:+ ws)).
    rewrite !str_rev_app. rewrite <- str_app_assoc.
    rewrite (trimStart_blank _ _ (rev_blank ws Hws)). reflexivity.
Qed.

Lemma search_query_recognised_witness :
  isSearchQuery ("is" +:+ "land hopping in June") = true
  /\ isSearchQuery ("Dinner at eight" +:+ "?" +:+ String "160" " ") = true.
Proof.
  destruct (search_query_recognised "is" "land hopping in June" "Dinner at eight"
                                    (String "160" " "))
    as [H1 H2].
  split.
  - apply H1. unfold interrogatives. rewrite !elem_of_cons. tauto.
  - apply H2. repeat constructor.
Defined.

End QueryFacts.

(** ** Chat identifiers *)

Module JidFacts.

Import Jid StringFacts.

Lemma endsWith_app (a suffix : string) : endsWith suffix (a +:+ suffix) = true.
Proof. unfold endsWith. rewrite str_rev_app. apply IpcFacts.prefix_app. Qed.

Lemma before_app (c : ascii) (l x : string) :
  Forall (fun d => d <> c) (list_ascii_of_string l) ->
  before c (l +:+ x) = l +:+ before c x.
Proof.
  induction l as [|d l IH]; intros H; [reflexivity|].
  cbn [list_ascii_of_string] in H. apply Forall_cons in H as [Hd Hl].
  rewrite !str_app_cons. cbn [before].
  rewrite (proj2 (Ascii.eqb_neq d c) Hd), (IH Hl). reflexivity.
Qed.

Lemma before_user (c : ascii) (l x : string) :
  Forall (fun d => d <> c) (list_ascii_of_string l) ->
  before c (l +:+ String c x) = l.
Proof.
  intros H. rewrite (before_app c l _ H). cbn [before]. rewrite Ascii.eqb_refl.
  apply str_app_nil_r.
Qed.

Lemma before_self (c : ascii) (l : string) :
  Forall (fun d => d <> c) (list_ascii_of_string l) -> before c l = l.
Proof.
  intros H. rewrite <- (str_app_nil_r l) at 1. rewrite (before_app c l "" H).
  apply str_app_nil_r.
Qed.

Lemma truthy_app_l (a b : string) : a <> "" -> Js.truthy (a +:+ b) = true.
Proof. destruct a; [contradiction | reflexivity]. Qed.

Lemma truthy_ne (a : string) : a <> "" -> Js.truthy a = true.
Proof. destruct a; [contradiction | reflexivity]. Qed.

(** X9.  The own chat under its LID.  Once the connection handler has
    recorded the account (a LID whose user part [l] is followed by a
    device part), every JID of that user in LID form, with any device
    part or none, is translated to the phone JID
    [<phone user>@s.whatsapp.net]. *)
Theorem own_lid_translated (l lidDevice userId : string) (m : gmap string string) :
  l <> "" ->
  Forall (fun c => c <> ":"%char /\ c <> "@"%char) (list_ascii_of_string l) ->
  before ":"%char userId <> "" ->
  let m' := onConnectionOpen userId (Some (l +:+ ":" +:+ lidDevice)) m in
  (forall device,
      translateJid m' (l +:+ ":" +:+ device +:+ "@lid")
      = before ":"%char userId +:+ "@s.whatsapp.net")
  /\ translateJid m' (l +:+ "@lid") = before ":"%char userId +:+ "@s.whatsapp.net".
Proof.
  intros Hl Hchars Hphone m'.
  assert (Forall (fun d => d <> ":"%char) (list_ascii_of_string l)) as Hcolon.
  { eapply Forall_impl; [exact Hchars|]. intros c [H _]. exact H. }
  assert (Forall (fun d => d <> "@"%char) (list_ascii_of_string l)) as Hat.
  { eapply Forall_impl; [exact Hchars|]. intros c [_ H]. exact H. }
  assert (m' !! l = Some (before ":"%char userId +:+ "@s.whatsapp.net")) as Hm.
  { subst m'. unfold onConnectionOpen. cbn [fmap option_fmap option_map].
    change (l +:+ ":" +:+ lidDevice) with (l +:+ String ":"%char lidDevice).
    rewrite (before_user _ _ _ Hcolon), (truthy_ne l Hl), (truthy_ne _ Hphone).
    cbn [andb]. apply lookup_insert_eq. }
  split.
  - intros device. unfold translateJid.
    replace (l +:+ ":" +:+ device +:+ "@lid") with ((l +:+ ":" +:+ device) +:+ "@lid")
      by (rewrite <- !str_app_assoc; reflexivity).
    rewrite endsWith_app. cbn [negb].
    replace ((l +:+ ":" +:+ device) +:+ "@lid")
      with (l +:+ String ":"%char (device +:+ "@lid"))
      by (rewrite <- !str_app_assoc; reflexivity).
    rewrite (before_app "@"%char l _ Hat). cbn [before].
    change (Ascii.eqb ":" "@") with false. cbn match.
    rewrite (before_user _ _ _ Hcolon), Hm, (truthy_app_l _ _ Hphone). reflexivity.
  - unfold translateJid. rewrite endsWith_app. cbn [negb].
    change (l +:+ "@lid") with (l +:+ String "@"%char "lid").
    rewrite (before_user _ _ _ Hat), (before_self _ _ Hcolon), Hm,
      (truthy_app_l _ _ Hphone).
    reflexivity.
Qed.

Lemma own_lid_translated_witness :
  translateJid (onConnectionOpen "491700000001:7@s.whatsapp.net"
                                 (Some ("92700000000042" +:+ ":" +:+ "7@lid")) ∅)
               ("92700000000042" +:+ "@lid")
  = "491700000001@s.whatsapp.net".
Proof.
  refine (proj2 (own_lid_translated "92700000000042" "7@lid"
                   "491700000001:7@s.whatsapp.net" ∅ _ _ _)).
  - discriminate.
  - repeat constructor; discriminate.
  - discriminate.
Defined.

End JidFacts.

(** ** URLs in a message *)

Module UrlFacts.

Import Urls UrlSpec StringFacts.

Lemma is_space_upcase (c : ascii) :
  Js.isWhiteSpace (Trigger.upcase c) = Js.isWhiteSpace c.
Proof. destruct c as [[] [] [] [] [] [] [] []]; reflexivity. Qed.

Lemma ci_eqb_space (a b : ascii) :
  Trigger.ci_eqb a b = true -> Js.isWhiteSpace b = Js.isWhiteSpace a.
Proof.
  unfold Trigger.ci_eqb. intros H. apply Ascii.eqb_eq in H.
  rewrite <- (is_space_upcase a), <- (is_space_upcase b), H. reflexivity.
Qed.

Lemma stripCi_spec (p : string) :
  forall s r, stripCi p s = Some r ->
              exists u, s = u +:+ r /\ Trigger.ci_equal p u = true.
Proof.
  induction p as [|a p IH]; intros s r H.
  - exists "". destruct s; injection H as <-; split; reflexivity.
  - destruct s as [|b s]; [discriminate|]. cbn [stripCi] in H.
    destruct (Trigger.ci_eqb a b) eqn:Hab; [|discriminate].
    destruct (IH _ _ H) as (u & -> & Hu). exists (String b u).
    split; [reflexivity|]. cbn [Trigger.ci_equal].
    rewrite TriggerFacts.sameLetter_ci_eqb, Hab, Hu. reflexivity.
Qed.

Lemma ci_equal_no_space (p u : string) :
  Trigger.ci_equal p u = true ->
  Forall (fun c => Js.isWhiteSpace c = false) (list_ascii_of_string p) ->
  Forall (fun c => Js.isWhiteSpace c = false) (list_ascii_of_string u).
Proof.
  revert u. induction p as [|a p IH]; intros [|b u] H Hp; try discriminate;
    [constructor|].
  cbn [Trigger.ci_equal] in H. apply andb_true_iff in H as [Hab H].
  rewrite TriggerFacts.sameLetter_ci_eqb in Hab.
  cbn [list_ascii_of_string] in *. apply Forall_cons in Hp as [Ha Hp].
  constructor; [rewrite (ci_eqb_space a b Hab); exact Ha | apply IH; assumption].
Qed.

Lemma ci_equal_app (p q u v : string) :
  Trigger.ci_equal p u = true -> Trigger.ci_equal q v = true ->
  Trigger.ci_equal (p +:+ q) (u +:+ v) = true.
Proof.
  revert u. induction p as [|a p IH]; intros [|b u] Hp Hq; try discriminate;
    [exact Hq|].
  cbn [Trigger.ci_equal] in Hp. apply andb_true_iff in Hp as [Hab Hp].
  rewrite !str_app_cons. cbn [Trigger.ci_equal]. rewrite Hab. apply (IH u Hp Hq).
Qed.

Lemma ci_equal_length (p u : string) :
  Trigger.ci_equal p u = true -> String.length u = String.length p.
Proof.
  revert u. induction p as [|a p IH]; intros [|b u] H; try discriminate; [reflexivity|].
  cbn [Trigger.ci_equal] in H. apply andb_true_iff in H as [_ H].
  cbn [String.length]. rewrite (IH u H). reflexivity.
Qed.

(** The run of [[^\s]+]: it holds no white space and goes on to the end
    of the text or to a white space. *)
Lemma nonSpaceRun_spec (s : string) :
  exists rest,
    s = nonSpaceRun s +:+ rest
    /\ Forall (fun c => Js.isWhiteSpace c = false) (list_ascii_of_string (nonSpaceRun s))
    /\ match rest with String c _ => Js.isWhiteSpace c = true | EmptyString => True end.
Proof.
  induction s as [|c s (rest & Hs & Hrun & Hrest)].
  - exists "". repeat split. constructor.
  - cbn [nonSpaceRun]. destruct (Js.isWhiteSpace c) eqn:Hc.
    + exists (String c s). repeat split; [constructor | exact Hc].
    + exists rest. rewrite str_app_cons, <- Hs. split; [reflexivity|].
      split; [constructor; assumption | exact Hrest].
Qed.

Lemma take_app_length (a b : string) : Js.take (String.length a) (a +:+ b) = a.
Proof.
  unfold Js.take. induction a as [|c a IH]; [destruct b; reflexivity|].
  rewrite str_app_cons. cbn [String.length substring]. rewrite IH. reflexivity.
Qed.

Lemma afterScheme_spec (s h r u : string) (n : nat) :
  s = h +:+ r -> String.length h = n ->
  Forall (fun c => Js.isWhiteSpace c = false) (list_ascii_of_string h) ->
  afterScheme s n r = Some u ->
  exists sep run rest,
    s = u +:+ rest /\ u = (h +:+ sep) +:+ run /\ Trigger.ci_equal "://" sep = true
    /\ run <> ""
    /\ Forall (fun c => Js.isWhiteSpace c = false) (list_ascii_of_string u)
    /\ match rest with String c _ => Js.isWhiteSpace c = true | EmptyString => True end.
Proof.
  intros Hs Hn Hh H. unfold afterScheme in H.
  destruct (stripCi "://" r) as [r1|] eqn:Hsep; [|discriminate].
  cbn [mbind option_bind] in H.
  destruct (stripCi_spec _ _ _ Hsep) as (sep & -> & Hci).
  destruct (nonSpaceRun_spec r1) as (rest & Hr1 & Hrun & Hrest).
  destruct (Js.truthy (nonSpaceRun r1)) eqn:Ht; [|discriminate].
  injection H as <-. exists sep, (nonSpaceRun r1), rest.
  assert (s = ((h +:+ sep) +:+ nonSpaceRun r1) +:+ rest) as Hsplit.
  { rewrite Hs. rewrite Hr1 at 1. rewrite !str_app_assoc. reflexivity. }
  assert (n + 3 + String.length (nonSpaceRun r1)
          = String.length ((h +:+ sep) +:+ nonSpaceRun r1)) as ->.
  { rewrite !str_length_app, Hn, (ci_equal_length _ _ Hci). reflexivity. }
  assert (Js.take (String.length ((h +:+ sep) +:+ nonSpaceRun r1)) s
          = (h +:+ sep) +:+ nonSpaceRun r1) as ->.
  { rewrite Hsplit. apply take_app_length. }
  split; [exact Hsplit|]. split; [reflexivity|]. split; [exact Hci|].
  split; [intros E; rewrite E in Ht; discriminate|]. split; [|exact Hrest].
  rewrite !str_chars_app. apply Forall_app; split; [apply Forall_app; split|].
  - exact Hh.
  - apply (ci_equal_no_space _ _ Hci). repeat constructor.
  - exact Hrun.
Qed.

Lemma matchHere_spec (s u : string) : matchHere s = Some u -> UrlAt s u.
Proof.
  unfold matchHere. intros H.
  destruct (stripCi "http" s) as [r|] eqn:Hhttp; [|discriminate].
  cbn [mbind option_bind] in H.
  destruct (stripCi_spec _ _ _ Hhttp) as (h & Hs & Hh).
  assert (Forall (fun c => Js.isWhiteSpace c = false) (list_ascii_of_string h)) as Hns.
  { apply (ci_equal_no_space _ _ Hh). repeat constructor. }
  destruct (stripCi "s" r ≫= afterScheme s 5) as [u'|] eqn:Hwith.
  - injection H as ->.
    destruct (stripCi "s" r) as [r'|] eqn:Hes; [|discriminate].
    cbn [mbind option_bind] in Hwith.
    destruct (stripCi_spec _ _ _ Hes) as (e & -> & He).
    assert (s = (h +:+ e) +:+ r') as Hs' by (rewrite Hs; apply str_app_assoc).
    destruct (afterScheme_spec s (h +:+ e) r' u 5 Hs') as
      (sep & run & rest & H1 & H2 & Hsep & Hrun & Hsp & Hrest).
    + rewrite str_length_app, (ci_equal_length _ _ Hh), (ci_equal_length _ _ He).
      reflexivity.
    + rewrite str_chars_app. apply Forall_app. split; [exact Hns|].
      apply (ci_equal_no_space _ _ He). repeat constructor.
    + exact Hwith.
    + exists ((h +:+ e) +:+ sep), run, rest. repeat split; try assumption.
      right. apply (ci_equal_app "https" "://"); [|exact Hsep].
      apply (ci_equal_app "http" "s"); assumption.
  - destruct (afterScheme_spec s h r u 4 Hs) as
      (sep & run & rest & H1 & H2 & Hsep & Hrun & Hsp & Hrest).
    + apply (ci_equal_length _ _ Hh).
    + exact Hns.
    + exact H.
    + exists (h +:+ sep), run, rest. repeat split; try assumption.
      left. apply (ci_equal_app "http" "://"); assumption.
Qed.

Lemma matchAll_spec (s : string) :
  forall skip u, u ∈ matchAll skip s ->
                 exists pre post, s = pre +:+ post /\ UrlAt post u.
Proof.
  induction s as [|c s IH]; intros skip u Hu; [inversion Hu|].
  assert (forall k, u ∈ matchAll k s ->
                    exists pre post, String c s = pre +:+ post /\ UrlAt post u) as Hrec.
  { intros k Hk. destruct (IH k u Hk) as (pre & post & -> & Hpost).
    exists (String c pre), post. split; [reflexivity | exact Hpost]. }
  cbn [matchAll] in Hu. destruct skip as [|k]; [|exact (Hrec k Hu)].
  destruct (matchHere (String c s)) as [v|] eqn:Hv; [|exact (Hrec 0 Hu)].
  apply elem_of_cons in Hu as [-> | Hu]; [|exact (Hrec _ Hu)].
  exists "", (String c s). split; [reflexivity | apply matchHere_spec, Hv].
Qed.

(** X10.  Every URL [detectUrls] returns stands in the message, begins
    with [http://] or [https://] in any case, has at least one more
    character, holds no white space, and goes on to the end of the
    message or to the next white space.  White space is the class [\s]
    of the pattern: tab, line feed, vertical tab, form feed, carriage
    return, space and the no-break space. *)
Theorem detected_urls (content u : string) :
  u ∈ detectUrls content ->
  exists pre scheme run rest,
    content = pre +:+ u +:+ rest /\ u = scheme +:+ run
    /\ (Trigger.ci_equal "http://" scheme = true
        \/ Trigger.ci_equal "https://" scheme = true)
    /\ run <> ""
    /\ Forall (fun c => c ∉ TextSpec.whiteSpace) (list_ascii_of_string u)
    /\ match rest with String c _ => c ∈ TextSpec.whiteSpace | EmptyString => True end.
Proof.
  unfold detectUrls. intros Hu. apply list_elem_of_In, filter_In in Hu as [Hu _].
  apply list_elem_of_In in Hu.
  destruct (matchAll_spec content 0 u Hu)
    as (pre & post & -> & scheme & run & rest & -> & Hs & Hsch & Hrun & Hsp & Hrest).
  exists pre, scheme, run, rest. repeat split; try assumption.
  - eapply Forall_impl; [exact Hsp|]. intros a Ha Hin.
    apply QueryFacts.isWhiteSpace_spec in Hin. congruence.
  - destruct rest as [|c rest']; [exact I|]. apply QueryFacts.isWhiteSpace_spec, Hrest.
Qed.

Lemma detected_urls_witness :
  "https://example.org/a?b=1" ∈ detectUrls "@Alfred read https://example.org/a?b=1 please"
  /\ exists pre scheme run rest,
      "@Alfred read https://example.org/a?b=1 please"
      = pre +:+ "https://example.org/a?b=1" +:+ rest
      /\ "https://example.org/a?b=1" = scheme +:+ run
      /\ (Trigger.ci_equal "http://" scheme = true
          \/ Trigger.ci_equal "https://" scheme = true)
      /\ run <> ""
      /\ Forall (fun c => c ∉ TextSpec.whiteSpace)
                (list_ascii_of_string "https://example.org/a?b=1")
      /\ match rest with String c _ => c ∈ TextSpec.whiteSpace | EmptyString => True end.
Proof.
  assert ("https://example.org/a?b=1"
            ∈ detectUrls "@Alfred read https://example.org/a?b=1 please") as H
      by (vm_compute; left).
  split; [exact H|]. exact (detected_urls _ _ H).
Defined.

End UrlFacts.

(** ** Video identifiers *)

Module VideoFacts.

Import Video StringFacts.

Lemma takeId_spec (n : nat) :
  forall s v, takeId n s = Some v ->
              String.length v = n
              /\ Forall (fun c => isIdChar c = true) (list_ascii_of_string v)
              /\ exists rest, s = v +:+ rest.
Proof.
  induction n as [|n IH]; intros s v H.
  - injection H as <-. split; [reflexivity|]. split; [constructor|]. exists s. reflexivity.
  - destruct s as [|c s]; [discriminate|]. cbn [takeId] in H.
    destruct (isIdChar c) eqn:Hc; [|discriminate].
    destruct (takeId n s) as [v'|] eqn:Hv; [|discriminate]. injection H as <-.
    destruct (IH _ _ Hv) as (Hlen & Hall & rest & ->).
    split; [cbn; congruence|]. split; [constructor; assumption|].
    exists rest. reflexivity.
Qed.

Lemma takeId_app (n : nat) :
  forall v rest, takeId n v = Some v -> takeId n (v +:+ rest) = Some v.
Proof.
  induction n as [|n IH]; intros v rest H.
  - injection H as <-. reflexivity.
  - destruct v as [|c v]; [discriminate|]. cbn [takeId] in H.
    rewrite str_app_cons. cbn [takeId].
    destruct (isIdChar c); [|discriminate].
    destruct (takeId n v) as [v'|] eqn:Hv; [|discriminate].
    injection H as ->. rewrite (IH v rest Hv). reflexivity.
Qed.

Lemma strip_spec (p : string) :
  forall s r, strip p s = Some r -> s = p +:+ r.
Proof.
  induction p as [|a p IH]; intros s r H.
  - destruct s; injection H as <-; reflexivity.
  - destruct s as [|b s]; [discriminate|]. cbn [strip] in H.
    destruct (Ascii.eqb_spec a b) as [<- | _]; [|discriminate].
    rewrite (IH _ _ H). reflexivity.
Qed.

Lemma captureHere_spec (alts : list string) (s v : string) :
  captureHere alts s = Some v ->
  String.length v = 11
  /\ Forall (fun c => isIdChar c = true) (list_ascii_of_string v)
  /\ exists alt rest, alt ∈ alts /\ s = alt +:+ v +:+ rest.
Proof.
  induction alts as [|alt alts IH]; [discriminate|]. cbn [captureHere].
  destruct (strip alt s ≫= takeId 11) as [v'|] eqn:Hhere.
  - intros [= ->]. destruct (strip alt s) as [r|] eqn:Hr; [|discriminate].
    cbn [mbind option_bind] in Hhere.
    destruct (takeId_spec _ _ _ Hhere) as (Hlen & Hall & rest & ->).
    split; [exact Hlen|]. split; [exact Hall|]. exists alt, rest.
    split; [left | apply strip_spec, Hr].
  - intros H. destruct (IH H) as (Hlen & Hall & a & rest & Ha & Hs).
    split; [exact Hlen|]. split; [exact Hall|]. exists a, rest.
    split; [right; exact Ha | exact Hs].
Qed.

Lemma matchFirst_spec (alts : list string) (s : string) :
  forall v, matchFirst alts s = Some v ->
            String.length v = 11
            /\ Forall (fun c => isIdChar c = true) (list_ascii_of_string v)
            /\ exists pre alt rest, alt ∈ alts /\ s = pre +:+ alt +:+ v +:+ rest.
Proof.
  induction s as [|c s IH]; intros v H; cbn [matchFirst] in H.
  - destruct (captureHere alts "") as [v'|] eqn:Hc; [|discriminate]. injection H as ->.
    destruct (captureHere_spec _ _ _ Hc) as (Hlen & Hall & alt & rest & Ha & Hs).
    split; [exact Hlen|]. split; [exact Hall|]. exists "", alt, rest. auto.
  - destruct (captureHere alts (String c s)) as [v'|] eqn:Hc.
    + injection H as ->.
      destruct (captureHere_spec _ _ _ Hc) as (Hlen & Hall & alt & rest & Ha & Hs).
      split; [exact Hlen|]. split; [exact Hall|]. exists "", alt, rest. auto.
    + destruct (IH _ H) as (Hlen & Hall & pre & alt & rest & Ha & ->).
      split; [exact Hlen|]. split; [exact Hall|]. exists (String c pre), alt, rest. auto.
Qed.

(** X11.  What [extractVideoId] returns is an identifier of the URL: 11
    characters, each a letter, a digit, [_] or [-], standing in the URL
    right after [youtube.com/watch?v=], [youtu.be/], [youtube.com/embed/]
    or [youtube.com/v/]. *)
Theorem video_id_shape (url v : string) :
  extractVideoId url = Some v ->
  String.length v = 11
  /\ Forall (fun c => isIdChar c = true) (list_ascii_of_string v)
  /\ exists pre marker rest,
      marker ∈ ["youtube.com/watch?v="; "youtu.be/"; "youtube.com/embed/";
                "youtube.com/v/"]
      /\ url = pre +:+ marker +:+ v +:+ rest.
Proof.
  unfold extractVideoId. intros H.
  destruct (matchFirst ["youtube.com/watch?v="; "youtu.be/"] url) as [v1|] eqn:H1.
  { injection H as ->.
    destruct (matchFirst_spec _ _ _ H1) as (Hlen & Hall & pre & alt & rest & Ha & Hs).
    split; [exact Hlen|]. split; [exact Hall|]. exists pre, alt, rest.
    split; [|exact Hs]. rewrite !elem_of_cons in *. tauto. }
  destruct (matchFirst ["youtube.com/embed/"] url) as [v2|] eqn:H2.
  { injection H as ->.
    destruct (matchFirst_spec _ _ _ H2) as (Hlen & Hall & pre & alt & rest & Ha & Hs).
    split; [exact Hlen|]. split; [exact Hall|]. exists pre, alt, rest.
    split; [|exact Hs]. rewrite !elem_of_cons in *. tauto. }
  destruct (matchFirst_spec _ _ _ H) as (Hlen & Hall & pre & alt & rest & Ha & Hs).
  split; [exact Hlen|]. split; [exact Hall|]. exists pre, alt, rest.
  split; [|exact Hs]. rewrite !elem_of_cons in *. tauto.
Qed.

Lemma video_id_shape_witness :
  extractVideoId "https://www.youtube.com/embed/dQw4w9WgXcQ?start=3" = Some "dQw4w9WgXcQ"
  /\ String.length "dQw4w9WgXcQ" = 11.
Proof.
  assert (extractVideoId "https://www.youtube.com/embed/dQw4w9WgXcQ?start=3"
          = Some "dQw4w9WgXcQ") as H by reflexivity.
  split; [exact H | exact (proj1 (video_id_shape _ _ H))].
Defined.

(** X12.  The two common forms of a link give back the identifier they
    were made from: for every identifier of 11 such characters, and
    whatever follows it, [https://youtu.be/<id>...] and
    [https://www.youtube.com/watch?v=<id>...] yield [<id>]. *)
Theorem video_id_round_trip (v rest : string) :
  takeId 11 v = Some v ->
  extractVideoId ("https://youtu.be/" +:+ v +:+ rest) = Some v
  /\ extractVideoId ("https://www.youtube.com/watch?v=" +:+ v +:+ rest) = Some v.
Proof.
  intros Hv. pose proof (takeId_app 11 v rest Hv) as Happ.
  split.
  - unfold extractVideoId.
    assert (matchFirst ["youtube.com/watch?v="; "youtu.be/"]
                       ("https://youtu.be/" +:+ v +:+ rest) = Some v) as ->;
      [|reflexivity].
    change ("https://youtu.be/" +:+ v +:+ rest)
      with (String "h" (String "t" (String "t" (String "p" (String "s" (String ":"
             (String "/" (String "/" ("youtu.be/" +:+ v +:+ rest))))))))).
    do 8 (cbn [matchFirst captureHere strip Ascii.eqb Bool.eqb mbind option_bind]).
    change ("youtu.be/" +:+ v +:+ rest)
      with (String "y" (String "o" (String "u" (String "t" (String "u" (String "."
             (String "b" (String "e" (String "/" (v +:+ rest)))))))))).
    cbn [matchFirst captureHere strip Ascii.eqb Bool.eqb mbind option_bind].
    rewrite Happ. reflexivity.
  - unfold extractVideoId.
    assert (matchFirst ["youtube.com/watch?v="; "youtu.be/"]
                       ("https://www.youtube.com/watch?v=" +:+ v +:+ rest) = Some v) as ->;
      [|reflexivity].
    change ("https://www.youtube.com/watch?v=" +:+ v +:+ rest)
      with (String "h" (String "t" (String "t" (String "p" (String "s" (String ":"
             (String "/" (String "/" (String "w" (String "w" (String "w" (String "."
             ("youtube.com/watch?v=" +:+ v +:+ rest))))))))))))).
    do 12 (cbn [matchFirst captureHere strip Ascii.eqb Bool.eqb mbind option_bind]).
    change ("youtube.com/watch?v=" +:+ v +:+ rest)
      with (String "y" (String "o" (String "u" (String "t" (String "u" (String "b"
             (String "e" (String "." (String "c" (String "o" (String "m" (String "/"
             (String "w" (String "a" (String "t" (String "c" (String "h" (String "?"
             (String "v" (String "=" (v +:+ rest))))))))))))))))))))).
    cbn [matchFirst captureHere strip Ascii.eqb Bool.eqb mbind option_bind].
    rewrite Happ. reflexivity.
Qed.

Lemma video_id_round_trip_witness :
  extractVideoId ("https://youtu.be/" +:+ "dQw4w9WgXcQ" +:+ "?t=42") = Some "dQw4w9WgXcQ".
Proof.
  exact (proj1 (video_id_round_trip "dQw4w9WgXcQ" "?t=42" eq_refl)).
Defined.

End VideoFacts.

(** ** Search: scope, ranking, similar sources, formatting *)

Module SearchMore.

Import Kb SearchSpec SearchFacts.

Local Open Scope Q_scope.

(** The results of a search are candidates of it. *)
Lemma search_candidates (w : World) (q : string) (o : SearchOptions) (st : KbState)
      (r : SearchResult) :
  r ∈ search w q o st -> r ∈ candidates w q o st.
Proof.
  unfold search, candidates. destruct (negb (available st)); [intros H; inversion H|].
  destruct (generateEmbedding w q) as [qe|]; [|intros H; inversion H].
  set (cands := scoreRows w qe _ _).
  destruct (slice0_take (if default true (dedupeBySource o)
                         then sortDesc (bestBySource (sortDesc cands)).*2
                         else sortDesc cands)
                        (default default_limit (limit o))) as [k ->].
  intros Hr. apply elem_of_take_l in Hr.
  destruct (default true (dedupeBySource o)); rewrite sortDesc_perm in Hr.
  - apply (Best_values _ _ (bestBySource_Best (sortDesc cands))) in Hr as [Hr _].
    rewrite sortDesc_perm in Hr. exact Hr.
  - exact Hr.
Qed.

(** A row of the join is a chunk with a vector, next to its source. *)
Lemma joinRows_spec (st : KbState) (row : SearchRow) :
  row ∈ joinRows st ->
  exists c s,
    c ∈ chunks st /\ s ∈ sources st /\ id s = source_id c
    /\ embedding c = Some (row_embedding row)
    /\ row_id row = chunk_id c /\ row_source_id row = source_id c
    /\ row_content row = content c /\ row_group row = group_folder s
    /\ row_source_url row = url s /\ row_source_title row = title s
    /\ row_source_type row = source_type s.
Proof.
  unfold joinRows. intros H. apply list_elem_of_omap in H as (c & Hc & Hrow).
  destruct (embedding c) as [emb|] eqn:He; [|discriminate].
  cbn [mbind option_bind] in Hrow.
  destruct (find _ (sources st)) as [s|] eqn:Hs; [|discriminate].
  cbn [mbind option_bind] in Hrow. injection Hrow as <-.
  apply find_some in Hs as [Hin Hid]. apply String.eqb_eq in Hid.
  exists c, s. cbn. repeat split; try assumption; try reflexivity.
  apply list_elem_of_In, Hin.
Qed.

(** X13.  A search scoped to a group answers from that group only: each
    result is a chunk of the store that has a vector, and the source it
    belongs to, whose URL, title and type the result carries, is a source
    of the group the search names. *)
Theorem search_scoped (w : World) (q : string) (o : SearchOptions) (st : KbState)
        (g : string) (r : SearchResult) :
  so_groupFolder o = Some g -> g <> "" ->
  r ∈ search w q o st ->
  exists c s,
    c ∈ chunks st /\ s ∈ sources st /\ id s = source_id c
    /\ group_folder s = g /\ is_Some (embedding c)
    /\ sr_chunk_id r = chunk_id c /\ sr_source_id r = id s
    /\ sr_content r = content c /\ source_url r = url s
    /\ source_title r = title s /\ sr_source_type r = source_type s.
Proof.
  intros Hg Hne Hr. apply search_candidates in Hr. unfold candidates in Hr.
  destruct (generateEmbedding w q) as [qe|]; [|inversion Hr].
  unfold scoreRows in Hr. apply list_elem_of_filter in Hr as [_ Hr].
  apply list_elem_of_fmap in Hr as (row & -> & Hrow).
  unfold selectRows in Hrow. rewrite Hg in Hrow.
  assert (Js.truthy g = true) as Ht.
  { unfold Js.truthy. destruct (String.eqb_spec g ""); [contradiction | reflexivity]. }
  rewrite Ht in Hrow. apply list_elem_of_filter in Hrow as [Hgroup Hrow].
  destruct (joinRows_spec st row Hrow)
    as (c & s & Hc & Hs & Hid & He & H1 & H2 & H3 & H4 & H5 & H6 & H7).
  exists c, s. cbn [resultOfRow sr_chunk_id sr_source_id sr_content source_url
                    source_title sr_source_type].
  repeat split; try assumption; try congruence. rewrite He. eexists; reflexivity.
Qed.

Lemma search_scoped_witness :
  exists c s,
    c ∈ chunks Examples.kbFilled /\ s ∈ sources Examples.kbFilled
    /\ id s = source_id c /\ group_folder s = "family" /\ is_Some (embedding c)
    /\ 3%nat = chunk_id c /\ "kb-a" = id s.
Proof.
  assert (Examples.chunk 3 "kb-a" (Some [(95 # 100)]) ∈ chunks Examples.kbFilled) as Hc
      by (right; right; left).
  destruct (search_scoped Examples.kbWorldUp "how do marketers use AI?"
              (Examples.familySearch 2) Examples.kbFilled "family"
              {| sr_chunk_id := 3; sr_source_id := "kb-a";
                 source_url := Some "https://example.org/kb-a";
                 source_title := Some "kb-a"; sr_source_type := article;
                 sr_content := "chunk of kb-a"; similarity := 95 # 100 |}
              eq_refl)
    as (c & s & H1 & H2 & H3 & H4 & H5 & H6 & H7 & _).
  - discriminate.
  - vm_compute. left.
  - exists c, s. repeat split; assumption.
Defined.

(** Every candidate has a result of its source, at least as similar, in
    the list that is cut to the limit. *)
Lemma final_represents (cands : list SearchResult) (dedupe : bool) (c : SearchResult) :
  c ∈ cands ->
  exists v,
    v ∈ (if dedupe then sortDesc (bestBySource (sortDesc cands)).*2 else sortDesc cands)
    /\ sr_source_id v = sr_source_id c /\ similarity c <= similarity v.
Proof.
  intros Hc. destruct dedupe.
  - pose proof (bestBySource_Best (sortDesc cands)) as [Hnd Hentry Hcover].
    assert (c ∈ sortDesc cands) as Hc' by (rewrite sortDesc_perm; exact Hc).
    specialize (Hcover c Hc'). apply list_elem_of_fmap in Hcover as ([k v] & Hk & Hin).
    cbn [fst] in Hk. destruct (Hentry k v Hin) as (Hsrc & _ & Hbest).
    exists v. split; [|split].
    + rewrite sortDesc_perm. apply list_elem_of_fmap. exists (k, v). auto.
    + congruence.
    + apply Hbest; [exact Hc' | congruence].
  - exists c. split; [rewrite sortDesc_perm; exact Hc|]. split; [reflexivity | apply Qle_refl].
Qed.

Lemma final_sorted (cands : list SearchResult) (dedupe : bool) :
  StronglySorted Desc
    (if dedupe then sortDesc (bestBySource (sortDesc cands)).*2 else sortDesc cands).
Proof. destruct dedupe; apply sortDesc_sorted. Qed.

(** Cutting a sorted list: an element is kept, or the cut is full and
    everything kept is at least as similar. *)
Lemma take_sorted (k : nat) (l : list SearchResult) (v : SearchResult) :
  StronglySorted Desc l -> v ∈ l ->
  v ∈ take k l
  \/ (length (take k l) = k /\ forall r, r ∈ take k l -> similarity v <= similarity r).
Proof.
  intros Hs Hv. rewrite <- (take_drop k l) in Hv, Hs.
  apply elem_of_app in Hv as [Hv | Hv]; [left; exact Hv | right]. split.
  - apply length_take_le. destruct (decide (k <= length l)%nat) as [|Hgt]; [assumption|].
    rewrite drop_ge in Hv by lia. inversion Hv.
  - intros r Hr. exact (StronglySorted_app_1_elem_of _ _ _ r v Hs Hr Hv).
Qed.

(** X14.  Nothing better is left out.  When the provider is available
    and the limit is not negative, every row in scope at or above the
    threshold either has a result of its own source that is at least as
    similar to the query, or the list is full, with [limit] entries, each
    at least as similar as that row. *)
Theorem search_top_ranked (w : World) (q : string) (o : SearchOptions) (st : KbState)
        (c : SearchResult) :
  available st = true ->
  (0 <= default default_limit (limit o))%Z ->
  c ∈ candidates w q o st ->
  let res := search w q o st in
  (exists r, r ∈ res /\ sr_source_id r = sr_source_id c
             /\ similarity c <= similarity r)
  \/ (Z.of_nat (length res) = default default_limit (limit o)
      /\ forall r, r ∈ res -> similarity c <= similarity r).
Proof.
  intros Hav Hlim Hc res. subst res. unfold search, candidates in *. rewrite Hav.
  cbn [negb]. destruct (generateEmbedding w q) as [qe|]; [|inversion Hc].
  set (cands := scoreRows w qe _ _) in *.
  set (final := if default true (dedupeBySource o)
                then sortDesc (bestBySource (sortDesc cands)).*2
                else sortDesc cands).
  destruct (final_represents cands (default true (dedupeBySource o)) c Hc)
    as (v & Hv & Hsrc & Hsim). fold final in Hv.
  assert (slice0 final (default default_limit (limit o))
          = take (Z.to_nat (default default_limit (limit o))) final) as ->.
  { unfold slice0. destruct (Z.ltb_spec (default default_limit (limit o)) 0);
      [lia | reflexivity]. }
  destruct (take_sorted (Z.to_nat (default default_limit (limit o))) final v
                        (final_sorted _ _) Hv) as [Hin | [Hlen Hall]].
  - left. exists v. auto.
  - right. split; [rewrite Hlen; lia|].
    intros r Hr. eapply Qle_trans; [exact Hsim | apply Hall, Hr].
Qed.

Lemma search_top_ranked_witness :
  (exists r, r ∈ search Examples.kbWorldUp "how do marketers use AI?"
                        (Examples.familySearch 2) Examples.kbFilled
             /\ sr_source_id r = "kb-a" /\ 8 # 10 <= similarity r)
  \/ (Z.of_nat (length (search Examples.kbWorldUp "how do marketers use AI?"
                               (Examples.familySearch 2) Examples.kbFilled)) = 2%Z
      /\ forall r, r ∈ search Examples.kbWorldUp "how do marketers use AI?"
                              (Examples.familySearch 2) Examples.kbFilled ->
                   8 # 10 <= similarity r).
Proof.
  refine (search_top_ranked Examples.kbWorldUp "how do marketers use AI?"
            (Examples.familySearch 2) Examples.kbFilled
            {| sr_chunk_id := 1; sr_source_id := "kb-a";
               source_url := Some "https://example.org/kb-a";
               source_title := Some "kb-a"; sr_source_type := article;
               sr_content := "chunk of kb-a"; similarity := 8 # 10 |}
            eq_refl _ _).
  - cbn. lia.
  - vm_compute. left.
Defined.

End SearchMore.

Module SimilarFacts.

Import Kb SearchSpec SearchFacts Similar.

Local Open Scope Q_scope.

(** The similarity asked of a recommendation is the double the literal
    [0.6] stands for. *)
Lemma similarThreshold_value :
  similarThreshold < 6 # 10
  /\ (6 # 10) - similarThreshold < 1 # 36028797018963968.
Proof. split; reflexivity. Qed.

(** The row the first query returns: the vector of the first chunk of
    the source, in the order of the table, that has one. *)
Lemma referenceRows_first (sourceId : string) (st : KbState) (ref : Embedding)
      (rest : list Embedding) :
  referenceRows sourceId st = ref :: rest ->
  rest = []
  /\ exists pre c0 post,
      chunks st = pre ++ c0 :: post
      /\ source_id c0 = sourceId /\ embedding c0 = Some ref
      /\ forall c, c ∈ pre -> source_id c = sourceId -> embedding c = None.
Proof.
  unfold referenceRows. induction (chunks st) as [|c l IH]; [discriminate|].
  cbn [omap list_omap].
  destruct (String.eqb_spec (source_id c) sourceId) as [Hs | Hs].
  - destruct (embedding c) as [e|] eqn:He.
    + cbn [take]. intros [= <- <-]. split; [reflexivity|].
      exists [], c, l. split; [reflexivity|]. split; [exact Hs|]. split; [exact He|].
      intros c' Hc'. inversion Hc'.
    + intros H. destruct (IH H) as (Hrest & pre & c0 & post & -> & H1 & H2 & H3).
      split; [exact Hrest|]. exists (c :: pre), c0, post.
      split; [reflexivity|]. split; [exact H1|]. split; [exact H2|].
      intros c' Hc' Hsrc. apply elem_of_cons in Hc' as [-> | Hc']; [exact He|].
      exact (H3 c' Hc' Hsrc).
  - intros H. destruct (IH H) as (Hrest & pre & c0 & post & -> & H1 & H2 & H3).
    split; [exact Hrest|]. exists (c :: pre), c0, post.
    split; [reflexivity|]. split; [exact H1|]. split; [exact H2|].
    intros c' Hc' Hsrc. apply elem_of_cons in Hc' as [-> | Hc']; [contradiction|].
    exact (H3 c' Hc' Hsrc).
Qed.

(** X15.  [findSimilar] recommends other sources only.  Each result is
    a chunk of the store that has a vector and belongs to another source
    than the one asked about; its similarity is the cosine similarity of
    that vector and the first stored vector of the source asked about,
    and it is at least the double 0.6.  No two results share a source,
    the list is in descending similarity and, with a limit that is not
    negative, has at most [limit] entries (5 when not given); and a
    source none of whose chunks has a vector gets no recommendation. *)
Theorem similar_sources (w : World) (sourceId : string) (lim : option Z)
        (st : KbState) :
  let res := findSimilar w sourceId lim st in
  (forall r, r ∈ res ->
     exists ref pre c0 post c s e,
       chunks st = pre ++ c0 :: post
       /\ source_id c0 = sourceId /\ embedding c0 = Some ref
       /\ (forall c', c' ∈ pre -> source_id c' = sourceId -> embedding c' = None)
       /\ c ∈ chunks st /\ s ∈ sources st /\ id s = source_id c
       /\ source_id c <> sourceId /\ embedding c = Some e
       /\ similarity r = cosineSimilarity w ref e
       /\ similarThreshold <= similarity r
       /\ sr_chunk_id r = chunk_id c /\ sr_source_id r = source_id c
       /\ sr_content r = content c /\ source_url r = url s
       /\ source_title r = title s /\ sr_source_type r = source_type s)
  /\ NoDup (sr_source_id <$> res)
  /\ StronglySorted Desc res
  /\ ((0 <= default 5 lim)%Z -> (Z.of_nat (length res) <= default 5 lim)%Z)
  /\ ((forall c, c ∈ chunks st -> source_id c = sourceId -> embedding c = None) ->
      res = []).
Proof.
  intros res. subst res. unfold findSimilar.
  destruct (referenceRows sourceId st) as [|ref rest] eqn:Href.
  { split; [intros r Hr; inversion Hr|]. repeat split; try constructor. cbn. lia. }
  destruct (referenceRows_first sourceId st ref rest Href)
    as (_ & pre & c0 & post & Hsplit & Hc0 & He0 & Hfirst).
  set (cands := scoreRows w ref similarThreshold (otherRows sourceId st)).
  pose proof (Best_values _ _ (bestBySource_Best (sortDesc cands))) as [Hnd Hbest].
  destruct (slice0_take (sortDesc (bestBySource (sortDesc cands)).*2) (default 5%Z lim))
    as [k Hk].
  split; [|split; [|split; [|split]]].
  - rewrite Hk. intros r Hr. apply elem_of_take_l in Hr.
    rewrite sortDesc_perm in Hr. apply Hbest in Hr as [Hr _].
    rewrite sortDesc_perm in Hr.
    pose proof (scoreRows_threshold _ _ _ _ _ Hr) as Hth.
    unfold cands, scoreRows in Hr. apply list_elem_of_filter in Hr as [_ Hr].
    apply list_elem_of_fmap in Hr as (row & -> & Hrow).
    unfold otherRows in Hrow. apply list_elem_of_filter in Hrow as [Hne Hrow].
    destruct (SearchMore.joinRows_spec st row Hrow)
      as (c & s & Hc & Hs & Hid & He & H1 & H2 & H3 & H4 & H5 & H6 & H7).
    exists ref, pre, c0, post, c, s, (row_embedding row).
    cbn [resultOfRow similarity sr_chunk_id sr_source_id sr_content source_url
         source_title sr_source_type] in *.
    split; [exact Hsplit|]. split; [exact Hc0|]. split; [exact He0|].
    split; [exact Hfirst|]. split; [exact Hc|]. split; [exact Hs|].
    split; [exact Hid|]. split; [congruence|]. split; [exact He|].
    split; [reflexivity|]. split; [exact Hth|].
    repeat split; assumption.
  - rewrite Hk, fmap_take. eapply sublist_NoDup; [|apply sublist_take].
    rewrite sortDesc_perm. exact Hnd.
  - rewrite Hk. apply StronglySorted_take_desc, sortDesc_sorted.
  - intros Hlim. apply slice0_length, Hlim.
  - intros Hnone. exfalso. rewrite (Hnone c0) in He0; [discriminate | | exact Hc0].
    rewrite Hsplit. apply elem_of_app. right. left.
Qed.

Lemma similar_sources_witness :
  (0 <= 5)%Z
  /\ sr_source_id <$> findSimilar Examples.kbWorldUp "kb-a" None Examples.kbFilled
     = ["kb-c"; "kb-b"]
  /\ (Z.of_nat (length (findSimilar Examples.kbWorldUp "kb-a" None Examples.kbFilled))
      <= 5)%Z.
Proof.
  split; [lia|]. split; [vm_compute; reflexivity|].
  refine (proj1 (proj2 (proj2 (proj2 (similar_sources Examples.kbWorldUp "kb-a" None
                                        Examples.kbFilled)))) _).
  cbn. lia.
Defined.

End SimilarFacts.

Module FormatFacts.

Import Format FormatSpec StringFacts.

Lemma formatEntries_length (maxChars : nat) (rs : list Kb.SearchResult) :
  forall (output : string),
    String.length (formatEntries rs maxChars (String.length output) output)
    <= Nat.max (String.length output) maxChars + 15.
Proof.
  induction rs as [|r rs IH]; intros output; cbn [formatEntries]; [lia|].
  cbn zeta.
  set (entry := "[" +:+ sourceTypeName (Kb.sr_source_type r) +:+ "] "
                +:+ Js.or_else (Kb.source_title r) (Js.or_else (Kb.source_url r) "Unknown")
                +:+ nl +:+ Js.take 500 (Kb.sr_content r) +:+ "..." +:+ nl).
  destruct (Nat.ltb_spec maxChars (String.length output + String.length entry)) as [Hgt | Hle].
  - rewrite !str_length_app. cbn. lia.
  - rewrite <- str_length_app. etransitivity; [apply IH|].
    rewrite str_length_app. lia.
Qed.

Lemma formatEntries_prefix (maxChars : nat) (rs : list Kb.SearchResult) :
  forall (cur : nat) (output : string),
    exists tail, formatEntries rs maxChars cur output = output +:+ tail.
Proof.
  induction rs as [|r rs IH]; intros cur output; cbn [formatEntries].
  - exists "". symmetry. apply str_app_nil_r.
  - cbn zeta. destruct (_ <? _)%nat.
    + eexists. reflexivity.
    + match goal with |- context [formatEntries rs maxChars ?c (output +:+ ?e)] =>
        destruct (IH c (output +:+ e)) as (tail & ->); exists (e +:+ tail) end.
      symmetry. apply str_app_assoc.
Qed.

(** X16.  The context block keeps to its budget.  For an empty list
    [formatSearchResults] returns the empty text.  Otherwise the text
    begins with the line that counts the sources, and when that line fits
    into [maxChars] the whole text is at most [maxChars] characters long,
    plus the 15 of the mark that says it was cut. *)
Theorem formatted_within_budget (results : list Kb.SearchResult) (maxChars : nat) :
  (results = [] -> formatSearchResults results maxChars = "")
  /\ (results <> [] ->
      (exists tail, formatSearchResults results maxChars = headerOf results +:+ tail)
      /\ (String.length (headerOf results) <= maxChars ->
          String.length (formatSearchResults results maxChars) <= maxChars + 15)).
Proof.
  split; [intros ->; reflexivity|]. intros Hne.
  destruct results as [|r rs]; [contradiction|].
  unfold formatSearchResults. fold (headerOf (r :: rs)). split.
  - apply formatEntries_prefix.
  - intros Hfit. etransitivity; [apply formatEntries_length|]. lia.
Qed.

Lemma formatted_within_budget_witness :
  String.length
    (formatSearchResults
       (Kb.search Examples.kbWorldUp "how do marketers use AI?"
                  (Examples.familySearch 2) Examples.kbFilled) 60)
  <= 60 + 15.
Proof.
  refine (proj2 (proj2 (formatted_within_budget
                          (Kb.search Examples.kbWorldUp "how do marketers use AI?"
                                     (Examples.familySearch 2) Examples.kbFilled) 60) _) _).
  - vm_compute. discriminate.
  - vm_compute. lia.
Defined.

End FormatFacts.

(** ** Ingestion: duplicates and updates *)

Module IngestMore.

Import Kb IngestSpec IngestFacts.

(** A refusal leaves the store as it was, for a new source and for an
    update alike. *)
Lemma finishIngestion_refused (w : World) (u t : option string) (content : string)
      (ty : SourceType) (g : string) (tg : option (list string))
      (existing : option KBSource) (st : KbState) :
  success (finishIngestion w u t content ty g tg existing st).1 = false ->
  (finishIngestion w u t content ty g tg existing st).2 = st.
Proof.
  unfold finishIngestion.
  destruct (valid (validateContent w (cleanContent w content) ty)); cbn [negb];
    [|reflexivity].
  destruct (match existing with Some _ => None | None => getSourceByHash _ st end);
    [reflexivity|].
  destruct (match existing with Some _ => _ | None => _ end) as [sid st1].
  destruct (generateEmbeddingsBatch _ _) as [embs avail].
  destruct (storeChunks _ _ _ _ _) as [n st4]. discriminate.
Qed.

Lemma finishIngestion_valid (w : World) (u t : option string) (content : string)
      (ty : SourceType) (g : string) (tg : option (list string))
      (existing : option KBSource) (st : KbState) :
  success (finishIngestion w u t content ty g tg existing st).1 = true ->
  valid (validateContent w (cleanContent w content) ty) = true.
Proof.
  unfold finishIngestion.
  destruct (valid (validateContent w (cleanContent w content) ty)); [reflexivity|].
  discriminate.
Qed.

(** Content whose hash the table holds is refused, with the id of the
    source that holds it. *)
Lemma finishIngestion_duplicate (w : World) (u t : option string) (content : string)
      (ty : SourceType) (g : string) (tg : option (list string))
      (st : KbState) (s : KBSource) :
  valid (validateContent w (cleanContent w content) ty) = true ->
  getSourceByHash (generateContentHash w (finalContentOf w content ty)) st = Some s ->
  finishIngestion w u t content ty g tg None st
  = (failure "Duplicate content (same hash)" (Some (id s)), st).
Proof.
  unfold finishIngestion, finalContentOf. intros -> ->. reflexivity.
Qed.

(** What [ingestContent] comes to when it goes ahead. *)
Lemma ingestContent_success (w : World) (c : string) (o : IngestOptions) (st : KbState) :
  success (ingestContent w c o st).1 = true ->
  ingestContent w c o st
  = finishIngestion w (if Js.otruthy (opt_url o) then normalizeUrl w <$> opt_url o
                       else None)
                    (opt_title o) c (default text (sourceType o)) (groupFolder o)
                    (opt_tags o) None st.
Proof.
  unfold ingestContent, ingestContentInternal.
  destruct (opt_url o) as [u|]; [|reflexivity].
  destruct (Js.truthy u); [|reflexivity].
  destruct (getSourceByUrl (normalizeUrl w u) st); [discriminate | reflexivity].
Qed.

Lemma ingestContent_no_url (w : World) (c : string) (o : IngestOptions) (st : KbState) :
  Js.otruthy (opt_url o) = false ->
  ingestContent w c o st
  = finishIngestion w None (opt_title o) c (default text (sourceType o))
                    (groupFolder o) (opt_tags o) None st.
Proof.
  unfold ingestContent, ingestContentInternal. intros H. rewrite H.
  destruct (opt_url o) as [u|]; [|reflexivity].
  cbn [Js.otruthy] in H. rewrite H. reflexivity.
Qed.

(** X17.  Ingesting a text twice stores it once.  After an
    [ingestContent] that succeeded, a second call with the same text and
    the same source type (and no URL) fails: the result has [success:
    false], the error [Duplicate content (same hash)] and, as
    [existingSourceId], the id of the source the first call created; it
    names no new source, and the call changes nothing: whatever title,
    tags or group the second call names. *)
Theorem ingest_content_idempotent (w : World) (c : string) (o o' : IngestOptions)
        (st : KbState) :
  success (ingestContent w c o st).1 = true ->
  Js.otruthy (opt_url o') = false ->
  default text (sourceType o') = default text (sourceType o) ->
  let st1 := (ingestContent w c o st).2 in
  let second := ingestContent w c o' st1 in
  exists sid,
    res_source_id (ingestContent w c o st).1 = Some sid
    /\ success second.1 = false
    /\ error second.1 = Some "Duplicate content (same hash)"
    /\ existingSourceId second.1 = Some sid
    /\ res_source_id second.1 = None /\ chunks_count second.1 = None
    /\ second.2 = st1.
Proof.
  intros Hok Hurl Hty st1 second.
  assert (exists sid,
             res_source_id (ingestContent w c o st).1 = Some sid
             /\ second = (failure "Duplicate content (same hash)" (Some sid), st1))
    as (sid & Hid & ->).
  { subst second st1.
    rewrite (ingestContent_no_url w c o' _ Hurl), Hty.
    pose proof (ingestContent_success w c o st Hok) as E. rewrite E in Hok |- *. clear E.
    pose proof (finishIngestion_valid _ _ _ _ _ _ _ _ _ Hok) as Hvalid.
    destruct (finishIngestion_success _ _ _ _ _ _ _ _ _ Hok)
      as (sid & st1 & rows & Hid & (Hfree & s & Hcreate & ->) & Hsources & _).
    exists (id s). split; [exact Hid|].
    apply finishIngestion_duplicate; [exact Hvalid|].
    unfold getSourceByHash in *. rewrite Hsources.
    unfold createSource in Hcreate. injection Hcreate as <- <-. cbn [sources].
    rewrite (find_app_none _ _ _ Hfree). cbn [content_hash].
    rewrite String.eqb_refl. reflexivity. }
  exists sid. split; [exact Hid|]. repeat split.
Qed.

Lemma ingest_content_idempotent_witness :
  exists sid,
    res_source_id (ingestContent Examples.kbWorldUp "a note" Examples.intoFamily
                                 Examples.emptyKb).1 = Some sid
    /\ error (ingestContent Examples.kbWorldUp "a note" Examples.intoFamily
                            (ingestContent Examples.kbWorldUp "a note"
                                           Examples.intoFamily Examples.emptyKb).2).1
       = Some "Duplicate content (same hash)"
    /\ existingSourceId
         (ingestContent Examples.kbWorldUp "a note" Examples.intoFamily
                        (ingestContent Examples.kbWorldUp "a note"
                                       Examples.intoFamily Examples.emptyKb).2).1
       = Some sid.
Proof.
  destruct (ingest_content_idempotent Examples.kbWorldUp "a note" Examples.intoFamily
              Examples.intoFamily Examples.emptyKb eq_refl eq_refl eq_refl)
    as (sid & Hid & _ & Herr & Hex & _).
  exists sid. split; [exact Hid|]. split; [exact Herr | exact Hex].
Defined.

Lemma updateSource_ids (w : World) (i : string) (u t : option string) (raw h : string)
      (tg : option (list string)) (st : KbState) :
  id <$> sources (updateSource w i u t raw h tg st) = id <$> sources st.
Proof.
  unfold updateSource. cbn [sources]. induction (sources st) as [|s l IH]; [reflexivity|].
  cbn [map fmap list_fmap] in *. rewrite IH.
  destruct (String.eqb (id s) i); reflexivity.
Qed.

(** X18.  Updating a URL that is in the store re-indexes its source in
    place.  Whatever the outcome, the chunks the source had are gone and
    no other chunk is, the sources keep their ids, and the rows added all
    belong to that source and carry a vector.  On success the result
    names the source that was there, says [updated], and counts the new
    rows.  On failure, be it the extraction or the validation, no row is
    added: the source is left without chunks. *)
Theorem update_url_reindexes (w : World) (u : string) (o : IngestOptions)
        (st : KbState) (ex : KBSource) :
  getSourceByUrl (normalizeUrl w u) st = Some ex ->
  let r := (updateUrl w u o st).1 in
  let st' := (updateUrl w u o st).2 in
  exists rows,
    chunks st' = filter (fun c => source_id c ≠ id ex) (chunks st) ++ rows
    /\ (forall row, row ∈ rows -> source_id row = id ex /\ is_Some (embedding row))
    /\ id <$> sources st' = id <$> sources st
    /\ (success r = true ->
        res_source_id r = Some (id ex) /\ updated r = Some true
        /\ chunks_count r = Some (length rows))
    /\ (success r = false -> rows = [] /\ sources st' = sources st).
Proof.
  intros Hex. cbn zeta. unfold updateUrl, ingestUrlInternal. rewrite Hex.
  set (st0 := deleteChunksBySourceId (id ex) st).
  destruct (extractContent w u _) as [ext|].
  2:{ exists []. cbn [fst snd success failure]. rewrite app_nil_r.
      split; [reflexivity|]. split; [intros row H; inversion H|].
      split; [reflexivity|]. split; [discriminate|]. intros _. split; reflexivity. }
  set (ty := default (detectSourceType w u) (sourceType o)).
  destruct (success (finishIngestion w (Some (normalizeUrl w u)) (Some (ex_title ext))
                       (ex_content ext) ty (groupFolder o) (opt_tags o) (Some ex) st0).1)
    eqn:Hok.
  - destruct (finishIngestion_success _ _ _ _ _ _ _ _ _ Hok)
      as (sid & st1 & rows & Hid & (-> & ->) & Hsources & Hchunks & Hcount & Hrows & _).
    exists rows. split; [exact Hchunks|]. split.
    { intros row Hrow. destruct (Hrows row Hrow) as (Hs & e & He & _).
      split; [exact Hs | rewrite He; eexists; reflexivity]. }
    split; [rewrite Hsources, updateSource_ids; reflexivity|].
    split; [|discriminate]. intros _. split; [exact Hid|]. split; [|exact Hcount].
    unfold finishIngestion in *.
    destruct (valid (validateContent w (cleanContent w (ex_content ext)) ty));
      cbn [negb] in *; [|discriminate].
    destruct (generateEmbeddingsBatch _ _) as [embs avail].
    destruct (storeChunks _ _ _ _ _) as [n st4]. reflexivity.
  - rewrite (finishIngestion_refused _ _ _ _ _ _ _ _ _ Hok). exists [].
    rewrite app_nil_r.
    split; [reflexivity|]. split; [intros row H; inversion H|].
    split; [reflexivity|]. split; [discriminate|]. intros _. split; reflexivity.
Qed.

Lemma update_url_reindexes_witness :
  getSourceByUrl "https://example.org/kb-a" Examples.kbFilled
  = Some (Examples.src "kb-a" "family")
  /\ source_id <$> chunks (updateUrl Examples.kbWorldDown "https://example.org/kb-a"
                                     Examples.intoFamily Examples.kbFilled).2
     = ["kb-b"; "kb-b"; "kb-c"]
  /\ exists rows,
      chunks (updateUrl Examples.kbWorldDown "https://example.org/kb-a"
                        Examples.intoFamily Examples.kbFilled).2
      = filter (fun c => source_id c ≠ "kb-a") (chunks Examples.kbFilled) ++ rows.
Proof.
  split; [reflexivity|]. split; [vm_compute; reflexivity|].
  destruct (update_url_reindexes Examples.kbWorldDown "https://example.org/kb-a"
              Examples.intoFamily Examples.kbFilled (Examples.src "kb-a" "family")
              eq_refl) as (rows & H & _).
  exists rows. exact H.
Defined.

End IngestMore.

(** ** The handlers: what they leave alone *)

Module BrokerFacts.

Import Router Ipc IpcSpec BrokerSpec StepFacts.

(** *** Registrations and projects *)

Lemma syncCommands_app (a b : list Event) :
  syncCommands (a ++ b) = syncCommands a ++ syncCommands b.
Proof. unfold syncCommands. apply omap_app. Qed.

Lemma afterCommands_app (w : World) (a b : list string)
      (r : list (string * SugarProject)) :
  afterCommands w (a ++ b) r = afterCommands w b (afterCommands w a r).
Proof. unfold afterCommands. apply fold_left_app. Qed.

Lemma SamePrivileged_refl (w : World) (s : State) : SamePrivileged w s s.
Proof.
  split; [reflexivity|]. exists []. split; [symmetry; apply app_nil_r | reflexivity].
Qed.

Lemma SamePrivileged_trans (w : World) (s1 s2 s3 : State) :
  SamePrivileged w s1 s2 -> SamePrivileged w s2 s3 -> SamePrivileged w s1 s3.
Proof.
  intros (A & e1 & T1 & P1) (B & e2 & T2 & P2). split; [congruence|].
  exists (e1 ++ e2). split; [rewrite T2, T1; symmetry; apply app_assoc|].
  rewrite syncCommands_app, afterCommands_app, <- P1. exact P2.
Qed.

(** A step that logs nothing and leaves registrations and projects
    alone. *)
Lemma priv_silent (w : World) (f : State -> State) :
  (forall s, registeredGroups (host (f s)) = registeredGroups (host s)
             /\ trace (f s) = trace s /\ sugarProjects (f s) = sugarProjects s) ->
  Steps (SamePrivileged w) (modify f).
Proof.
  intros H s. destruct (H s) as (A & B & C). split; [exact A|].
  exists []. cbn [snd modify]. rewrite B, C, app_nil_r. split; reflexivity.
Qed.

(** An event other than a command for [execSync]. *)
Lemma priv_emit (w : World) (e : Event) :
  syncCommands [e] = [] -> Steps (SamePrivileged w) (emit e).
Proof.
  intros He s. split; [reflexivity|]. exists [e]. split; [reflexivity|].
  rewrite He. reflexivity.
Qed.

Lemma priv_sendMessage (w : World) (to txt : string) :
  Steps (SamePrivileged w) (sendMessage w to txt).
Proof.
  apply priv_silent. intros s. cbn. split; [|split; reflexivity].
  unfold Router.sendMessage. destruct (sockSend _ _ _); reflexivity.
Qed.

Lemma priv_onKb (w : World) {A} (f : Kb.KbState -> A * Kb.KbState) :
  Steps (SamePrivileged w) (onKb f).
Proof.
  intros s. unfold onKb. destruct (f _) as [a k]. split; [reflexivity|].
  exists []. split; [symmetry; apply app_nil_r | reflexivity].
Qed.

Lemma priv_set_tasks (w : World) (f : list Task -> list Task) :
  Steps (SamePrivileged w) (modify (set_tasks f)).
Proof. apply priv_silent. intros s. repeat split. Qed.

Lemma priv_set_running (w : World) f : Steps (SamePrivileged w) (modify (set_running f)).
Proof. apply priv_silent. intros s. repeat split. Qed.

(** The one step that reaches the project registry without being
    [main]: a command handed to the shell. *)
Lemma priv_execSyncCmd (w : World) (c : string) (t : option Z) :
  Steps (SamePrivileged w) (execSyncCmd w c t).
Proof.
  intros s. split; [reflexivity|].
  exists [ExecSync (c +:+ " 2>" +:+ tmpFile w) (default 30000%Z (tvZ t))].
  split; reflexivity.
Qed.

Create HintDb priv.

#[local] Hint Resolve priv_sendMessage priv_onKb priv_set_tasks
  priv_set_running priv_execSyncCmd : priv.

Ltac priv w :=
  steps ltac:(unfold warn, kbState;
              first [ solve [auto with priv] | apply priv_emit; reflexivity ])
        (SamePrivileged_refl w) (SamePrivileged_trans w).

Lemma priv_reply (w : World) (data : Payload) (txt : string) :
  Steps (SamePrivileged w) (reply w data txt).
Proof. unfold reply. priv w. Qed.

#[local] Hint Resolve priv_reply : priv.

Lemma priv_resolveProject (w : World) (n : option string) :
  Steps (SamePrivileged w) (resolveProject n).
Proof. unfold resolveProject. priv w. Qed.

Lemma priv_listing (w : World) (data : Payload) (what : string)
      (lines : Outcome (list string)) (none : string) (some : nat -> string) :
  Steps (SamePrivileged w) (listing w data what lines none some).
Proof. unfold listing. priv w. Qed.

#[local] Hint Resolve priv_resolveProject priv_listing : priv.

Lemma priv_withInitialisedProject (w : World) (data : Payload)
      (k : SugarProject -> M unit) :
  (forall p, Steps (SamePrivileged w) (k p)) ->
  Steps (SamePrivileged w) (withInitialisedProject w data k).
Proof. intros Hk. unfold withInitialisedProject. priv w. Qed.

Lemma priv_updateReply (w : World) (data : Payload) (r : Kb.IngestResult) :
  Steps (SamePrivileged w) (updateReply w data r).
Proof. unfold updateReply. priv w. Qed.

Lemma priv_updateKbUrl (w : World) (u : string) (o : Kb.IngestOptions) :
  Steps (SamePrivileged w) (updateKbUrl w u o).
Proof.
  unfold updateKbUrl.
  apply (Steps_bind _ (SamePrivileged_trans w));
    [apply (Steps_gets _ (SamePrivileged_refl w)) | intros k].
  apply (Steps_bind _ (SamePrivileged_trans w)); [|intros _; apply priv_onKb].
  apply (Steps_forEach _ (SamePrivileged_refl w) (SamePrivileged_trans w)).
  apply Forall_forall. intros sp _. apply priv_emit. reflexivity.
Qed.

Lemma priv_onOwnTask (w : World) (data : Payload) (g : string) (isMain : bool)
      (change : string -> list Task -> list Task) (refusal : string) :
  Steps (SamePrivileged w) (onOwnTask data g isMain change refusal).
Proof. unfold onOwnTask. priv w. Qed.

#[local] Hint Resolve priv_updateReply priv_updateKbUrl priv_onOwnTask : priv.

(** X19.  Only [main] changes who is registered, and only [main] or a
    shell command changes which projects exist.  Whatever a group other
    than [main] drops into its queues, a message or a task request of
    any type, and whether its handler returns or throws: the registered
    groups are afterwards what they were, and the Sugar project registry
    is what the commands that the handler gave to [execSync], in the
    order the log has them, made of the registry it found.  A request
    that runs no such command leaves the registry as it was; one that
    runs a command leaves the registry to that command.  (The process
    that [sugar_run] starts with [exec] runs on by itself: the state
    meant is the one the handler leaves.) *)
Theorem unprivileged_requests (w : World) (q : Queue) (g : string) (data : Payload)
        (s : State) :
  let s' := (handlerOf w q g false data s).2 in
  registeredGroups (host s') = registeredGroups (host s)
  /\ exists evs,
      trace s' = trace s ++ evs
      /\ sugarProjects s' = afterCommands w (syncCommands evs) (sugarProjects s).
Proof.
  cbn zeta. revert s. change (Steps (SamePrivileged w) (handlerOf w q g false data)).
  destruct q; cbn [handlerOf].
  - unfold handleMessage. priv w.
  - unfold processTaskIpc.
    destruct (kindOf (type data)) as [[]|]; [..|apply priv_emit; reflexivity].
    + unfold schedule_task. priv w.
    + apply priv_onOwnTask.
    + apply priv_onOwnTask.
    + apply priv_onOwnTask.
    + unfold refresh_groups. priv w.
    + unfold register_group. cbn [negb]. priv w.
    + unfold sugar_add. destruct (tv (task data)); [|apply priv_emit; reflexivity].
      apply priv_withInitialisedProject. intros p. priv w.
    + unfold sugar_list. apply priv_withInitialisedProject. intros p. priv w.
    + unfold sugar_status. apply priv_withInitialisedProject. intros p. priv w.
    + unfold sugar_run. apply priv_withInitialisedProject. intros p. priv w.
    + unfold sugar_stop, noneRunning, stopProcess, notRunning. priv w.
    + unfold sugar_list_projects. priv w.
    + unfold sugar_add_project. cbn [negb]. priv w.
    + unfold sugar_init. priv w.
    + unfold github_list_issues. priv w.
    + unfold github_create_task_from_issue. priv w.
    + unfold github_create_pr. priv w.
    + unfold github_pr_status. priv w.
    + unfold kb_list. priv w.
    + unfold kb_search. priv w.
    + unfold kb_update. priv w.
    + unfold kb_add. priv w.
    + unfold kb_delete. priv w.
Qed.

(** A repository name that goes on after a semicolon, from the group
    [family]: the shell runs the [rm] and the registry is gone. *)
Lemma shell_reaches_registry :
  sugarProjects (Examples.ipcState [] []) <> []
  /\ sugarProjects (processTaskIpc Examples.worldWithRm Cases.rmRequest "family" false
                                   (Examples.ipcState [] [])).2
     = []
  /\ Sh.commands
       <$> syncCommands (trace (processTaskIpc Examples.worldWithRm Cases.rmRequest
                                               "family" false (Examples.ipcState [] [])).2)
     = [["gh pr list --repo o/r";
         " rm data/sugar-projects.json # --json number,title,state,headRefName,url --limit 10 2>"
         +:+ tmpFile Examples.worldWithRm]].
Proof. split; [discriminate|]. vm_compute. split; reflexivity. Qed.

(** *** Spawned commands *)

Lemma Emitted_refl (P : Event -> Prop) (s : State) : Emitted P s s.
Proof. exists []. split; [symmetry; apply app_nil_r | constructor]. Qed.

Lemma Emitted_trans (P : Event -> Prop) (s1 s2 s3 : State) :
  Emitted P s1 s2 -> Emitted P s2 s3 -> Emitted P s1 s3.
Proof.
  intros (e1 & H1 & F1) (e2 & H2 & F2). exists (e1 ++ e2).
  split; [rewrite H2, H1; symmetry; apply app_assoc | apply Forall_app; auto].
Qed.

Lemma emitted_emit (P : Event -> Prop) (e : Event) : P e -> Steps (Emitted P) (emit e).
Proof. intros H s. exists [e]. split; [reflexivity | repeat constructor; exact H]. Qed.

Lemma emitted_silent (P : Event -> Prop) (f : State -> State) :
  (forall s, trace (f s) = trace s) -> Steps (Emitted P) (modify f).
Proof.
  intros H s. exists []. split; [cbn; rewrite H; symmetry; apply app_nil_r | constructor].
Qed.

Lemma emitted_onKb (P : Event -> Prop) {A} (f : Kb.KbState -> A * Kb.KbState) :
  Steps (Emitted P) (onKb f).
Proof.
  intros s. unfold onKb. destruct (f _) as [a k]. exists [].
  split; [symmetry; apply app_nil_r | constructor].
Qed.

Lemma emitted_reply (P : Event -> Prop) (w : World) (data : Payload) (txt : string) :
  Steps (Emitted P) (reply w data txt).
Proof.
  unfold reply. steps ltac:(unfold sendMessage; apply emitted_silent; reflexivity)
                      (Emitted_refl P) (Emitted_trans P).
Qed.

Lemma emitted_execSyncCmd (k : option Kind) (w : World) (c : string) :
  Steps (Emitted (Bounded w k)) (execSyncCmd w c (Some 30000%Z)).
Proof.
  unfold execSyncCmd.
  steps ltac:(first [ apply emitted_emit; reflexivity
                    | apply emitted_silent; reflexivity ])
        (Emitted_refl (Bounded w k)) (Emitted_trans (Bounded w k)).
Qed.

(** The programs an ingestion runs are those of the extraction of its
    URL. *)
Lemma ingestUrlSpawns_extraction (kw : Kb.World) (u : string) (o : Kb.IngestOptions)
      (forceUpdate : bool) (k : Kb.KbState) (sp : Kb.Spawn) :
  sp ∈ Kb.ingestUrlSpawns kw u o forceUpdate k ->
  sp ∈ (Kb.extraction kw u (default (Kb.detectSourceType kw u) (Kb.sourceType o))).2.
Proof.
  unfold Kb.ingestUrlSpawns.
  destruct (Kb.getSourceByUrl _ k); [destruct forceUpdate|]; auto.
  intros H. inversion H.
Qed.

Lemma emitted_updateKbUrl (w : World) (u : string) (o : Kb.IngestOptions) :
  Steps (Emitted (Bounded w (Some K_kb_update))) (updateKbUrl w u o).
Proof.
  unfold updateKbUrl.
  apply (Steps_bind _ (Emitted_trans _)); [apply (Steps_gets _ (Emitted_refl _)) | intros k].
  apply (Steps_bind _ (Emitted_trans _)); [|intros _; apply emitted_onKb].
  apply (Steps_forEach _ (Emitted_refl _) (Emitted_trans _)).
  apply Forall_forall. intros sp Hsp. apply emitted_emit. cbn. split; [reflexivity|].
  apply ingestUrlSpawns_extraction in Hsp. eauto 10.
Qed.

(** Going down a handler for the spawned commands; first with the steps
    of the monad alone, then, below, with the helpers the handlers
    share. *)
Ltac emitted_base w k :=
  steps ltac:(unfold warn, kbState, sendMessage, registerGroup;
              first [ apply emitted_onKb
                    | apply emitted_reply
                    | apply emitted_execSyncCmd
                    | apply emitted_silent; reflexivity
                    | apply emitted_emit; cbn; auto ])
        (Emitted_refl (Bounded w k)) (Emitted_trans (Bounded w k)).

Lemma emitted_resolveProject (k : option Kind) (w : World) (n : option string) :
  Steps (Emitted (Bounded w k)) (resolveProject n).
Proof. unfold resolveProject. emitted_base w k. Qed.

Lemma emitted_listing (k : option Kind) (w : World) (data : Payload) (what : string)
      (lines : Outcome (list string)) (none : string) (some : nat -> string) :
  Steps (Emitted (Bounded w k)) (listing w data what lines none some).
Proof. unfold listing. emitted_base w k. Qed.

Lemma emitted_withInitialisedProject (k : option Kind) (w : World) (data : Payload)
      (h : SugarProject -> M unit) :
  (forall p, Steps (Emitted (Bounded w k)) (h p)) ->
  Steps (Emitted (Bounded w k)) (withInitialisedProject w data h).
Proof.
  intros Hh. unfold withInitialisedProject.
  steps ltac:(first [ apply Hh | apply emitted_resolveProject | apply emitted_reply
                    | unfold warn; apply emitted_emit; exact I ])
        (Emitted_refl (Bounded w k)) (Emitted_trans (Bounded w k)).
Qed.

Lemma emitted_updateReply (k : option Kind) (w : World) (data : Payload)
      (r : Kb.IngestResult) :
  Steps (Emitted (Bounded w k)) (updateReply w data r).
Proof. unfold updateReply. emitted_base w k. Qed.

Lemma emitted_onOwnTask (k : option Kind) (w : World) (data : Payload) (g : string)
      (isMain : bool) (change : string -> list Task -> list Task) (refusal : string) :
  Steps (Emitted (Bounded w k)) (onOwnTask data g isMain change refusal).
Proof. unfold onOwnTask. emitted_base w k. Qed.

Ltac emitted w k :=
  steps ltac:(unfold warn, kbState, sendMessage, registerGroup;
              first [ apply emitted_onKb
                    | apply emitted_reply
                    | apply emitted_execSyncCmd
                    | apply emitted_resolveProject
                    | apply emitted_listing
                    | apply emitted_updateReply
                    | apply emitted_updateKbUrl
                    | apply emitted_silent; reflexivity
                    | apply emitted_emit; cbn; auto ])
        (Emitted_refl (Bounded w k)) (Emitted_trans (Bounded w k)).

(** What [extractVideoTranscript] runs: [yt-dlp], with a limit of 30 s
    or 60 s, and the URL as the last argument of the vector. *)
Lemma video_spawns (kw : Kb.World) (u : string) (sp : Kb.Spawn) :
  sp ∈ (Kb.extraction kw u Kb.video).2 ->
  Kb.sp_file sp = Kb.YTDLP_PATH kw
  /\ (Kb.sp_timeout sp = 30000 \/ Kb.sp_timeout sp = 60000)%Z
  /\ last (Kb.sp_args sp) = Some u.
Proof.
  cbn [Kb.extraction]. unfold Kb.extractVideoTranscript.
  assert (forall l : list Kb.Spawn,
             sp ∈ l ->
             Forall (fun x => x = Kb.titleCall kw u \/ x = Kb.subtitlesCall kw u
                              \/ x = Kb.descriptionCall kw u) l ->
             Kb.sp_file sp = Kb.YTDLP_PATH kw
             /\ (Kb.sp_timeout sp = 30000 \/ Kb.sp_timeout sp = 60000)%Z
             /\ last (Kb.sp_args sp) = Some u) as Hone.
  { intros l Hin Hall. rewrite Forall_forall in Hall.
    destruct (Hall sp Hin) as [-> | [-> | ->]]; cbn; auto. }
  destruct (Kb.ytTitle kw u) as [stdout|]; cbn zeta.
  - destruct (negb (Js.truthy (Js.trim stdout))).
    + intros H. apply (Hone _ H); repeat first [apply List.Forall_nil | apply List.Forall_cons]; auto.
    + cbv zeta. destruct (String.length (Kb.ytTranscript kw u) <? 200)%nat;
        match goal with |- context [(if ?b then _ else _).2] => destruct b end;
        cbn [snd app]; intros H; apply (Hone _ H); repeat first [apply List.Forall_nil | apply List.Forall_cons]; auto.
  - intros H. apply (Hone _ H); repeat first [apply List.Forall_nil | apply List.Forall_cons]; auto.
Qed.

(** X20.  No request spawns a command outside the limits the handlers
    set.  Whatever the payload, the group and the state, and whether the
    handler returns or throws, the events it adds to the log are such
    that: every [execSync] has the time limit of 30 s; an [exec] without
    a limit is issued for a request of type [sugar_run] and for no
    other; a program is run with an argument vector, by [execFile], for
    a request of type [kb_update] and for no other, and it is then one
    of the programs that the extraction of some URL runs, with the limit
    the extraction sets.  For a video these are the calls of [yt-dlp]:
    the file is [YTDLP_PATH], the limit is 30 s or 60 s, and the URL is
    the last argument. *)
Theorem spawns_bounded (w : World) (q : Queue) (g : string) (isMain : bool)
        (data : Payload) (s : State) :
  let s' := (handlerOf w q g isMain data s).2 in
  let kind := match q with Tasks => kindOf (type data) | Messages => None end in
  (exists evs, trace s' = trace s ++ evs /\ Forall (Bounded w kind) evs)
  /\ (forall u sp,
         sp ∈ (Kb.extraction (kbWorld (router w)) u Kb.video).2 ->
         Kb.sp_file sp = Kb.YTDLP_PATH (kbWorld (router w))
         /\ (Kb.sp_timeout sp = 30000 \/ Kb.sp_timeout sp = 60000)%Z
         /\ last (Kb.sp_args sp) = Some u).
Proof.
  cbn zeta. split; [|intros u sp; apply video_spawns]. revert s.
  change (Steps (Emitted (Bounded w match q with
                                    | Tasks => kindOf (type data)
                                    | Messages => None
                                    end)) (handlerOf w q g isMain data)).
  destruct q; cbn [handlerOf].
  - unfold handleMessage. emitted w (@None Kind).
  - unfold processTaskIpc.
    destruct (kindOf (type data)) as [[]|];
      [..|apply emitted_emit; exact I].
    + unfold schedule_task. emitted w (Some K_schedule_task).
    + apply emitted_onOwnTask.
    + apply emitted_onOwnTask.
    + apply emitted_onOwnTask.
    + unfold refresh_groups. emitted w (Some K_refresh_groups).
    + unfold register_group. emitted w (Some K_register_group).
    + unfold sugar_add. destruct (tv (task data)); [|apply emitted_emit; exact I].
      apply emitted_withInitialisedProject. intros p. emitted w (Some K_sugar_add).
    + unfold sugar_list. apply emitted_withInitialisedProject. intros p.
      emitted w (Some K_sugar_list).
    + unfold sugar_status. apply emitted_withInitialisedProject. intros p.
      emitted w (Some K_sugar_status).
    + unfold sugar_run. apply emitted_withInitialisedProject. intros p.
      emitted w (Some K_sugar_run).
    + unfold sugar_stop, noneRunning, stopProcess, notRunning.
      emitted w (Some K_sugar_stop).
    + unfold sugar_list_projects. emitted w (Some K_sugar_list_projects).
    + unfold sugar_add_project. emitted w (Some K_sugar_add_project).
    + unfold sugar_init. emitted w (Some K_sugar_init).
    + unfold github_list_issues. emitted w (Some K_github_list_issues).
    + unfold github_create_task_from_issue.
      emitted w (Some K_github_create_task_from_issue).
    + unfold github_create_pr. emitted w (Some K_github_create_pr).
    + unfold github_pr_status. emitted w (Some K_github_pr_status).
    + unfold kb_list. emitted w (Some K_kb_list).
    + unfold kb_search. emitted w (Some K_kb_search).
    + unfold kb_update. emitted w (Some K_kb_update).
    + unfold kb_add. emitted w (Some K_kb_add).
    + unfold kb_delete. emitted w (Some K_kb_delete).
Qed.

Lemma spawns_bounded_witness :
  Kb.titleCall Examples.kbWorldUp "https://youtu.be/dQw4w9WgXcQ"
    ∈ (Kb.extraction Examples.kbWorldUp "https://youtu.be/dQw4w9WgXcQ" Kb.video).2
  /\ Kb.sp_timeout (Kb.titleCall Examples.kbWorldUp "https://youtu.be/dQw4w9WgXcQ")
     = 30000%Z
  /\ last (Kb.sp_args (Kb.titleCall Examples.kbWorldUp "https://youtu.be/dQw4w9WgXcQ"))
     = Some "https://youtu.be/dQw4w9WgXcQ".
Proof.
  assert (Kb.titleCall Examples.kbWorldUp "https://youtu.be/dQw4w9WgXcQ"
            ∈ (Kb.extraction Examples.kbWorldUp "https://youtu.be/dQw4w9WgXcQ"
                             Kb.video).2) as Hin by (vm_compute; left).
  split; [exact Hin|].
  destruct (proj2 (spawns_bounded Examples.ipcWorld Tasks "family" false
                     Cases.videoUpdateRequest (Examples.ipcState [] []))
                  "https://youtu.be/dQw4w9WgXcQ"
                  (Kb.titleCall Examples.kbWorldUp "https://youtu.be/dQw4w9WgXcQ") Hin)
    as (_ & _ & Hlast).
  split; [reflexivity | exact Hlast].
Defined.

(** A video given to [kb_update]: three calls of [yt-dlp], each with
    its argument vector and its limit, and no shell. *)
Lemma kb_update_runs_yt_dlp :
  trace (processTaskIpc Cases.videoWorld Cases.videoUpdateRequest "family" false
                        (Examples.ipcState [] [])).2
  = [ExecFile "yt-dlp"
       ["--no-warnings"; "--skip-download"; "--print"; "%(title)s";
        "https://youtu.be/dQw4w9WgXcQ"] (Some 30000%Z);
     ExecFile "yt-dlp"
       ["--no-warnings"; "--skip-download"; "--write-subs"; "--write-auto-subs";
        "--sub-langs"; "en,en-US"; "--sub-format"; "vtt"; "--output";
        "/tmp/yt-sub-1770000000000.%(ext)s"; "https://youtu.be/dQw4w9WgXcQ"]
       (Some 60000%Z);
     ExecFile "yt-dlp"
       ["--no-warnings"; "--skip-download"; "--print"; "%(description)s";
        "https://youtu.be/dQw4w9WgXcQ"] (Some 30000%Z)].
Proof. vm_compute. reflexivity. Qed.

End BrokerFacts.

(** ** The handlers: what they do *)

Module HandlerFacts.

Import Router Ipc IpcSpec BrokerSpec.

(** A reply changes the outbox and nothing else. *)
Lemma reply_frame (w : World) (data : Payload) (txt : string) (s : State) :
  let s' := (reply w data txt s).2 in
  (reply w data txt s).1 = Resolved ()
  /\ tasks s' = tasks s /\ kb (host s') = kb (host s)
  /\ registeredGroups (host s') = registeredGroups (host s)
  /\ sugarProjects s' = sugarProjects s
  /\ runningSugarProcesses s' = runningSugarProcesses s
  /\ trace s' = trace s.
Proof.
  cbn zeta. unfold reply. destruct (chatJid data) as [c|]; [|cbn; auto 10].
  unfold when. destruct (Js.truthy c); [|cbn; auto 10].
  unfold sendMessage, modify, set_host, Router.sendMessage. cbn.
  destruct (sockSend _ _ _); cbn; auto 10.
Qed.

(** *** Objects kept as lists of entries *)

Lemma assocGet_set_eq {V} (k : string) (v : V) (m : list (string * V)) :
  assocGet k (assocSet k v m) = Some v.
Proof.
  unfold assocGet. induction m as [|[k' v'] m IH]; cbn.
  - rewrite String.eqb_refl. reflexivity.
  - destruct (String.eqb_spec k' k) as [-> | Hne]; cbn.
    + rewrite String.eqb_refl. reflexivity.
    + rewrite (proj2 (String.eqb_neq k' k) Hne). exact IH.
Qed.

Lemma assocGet_set_ne {V} (k k' : string) (v : V) (m : list (string * V)) :
  k' <> k -> assocGet k' (assocSet k v m) = assocGet k' m.
Proof.
  intros Hne. unfold assocGet. induction m as [|[k0 v0] m IH]; cbn.
  - rewrite (proj2 (String.eqb_neq k k')); [reflexivity | congruence].
  - destruct (String.eqb_spec k0 k) as [-> | Hk]; cbn.
    + rewrite (proj2 (String.eqb_neq k k')); [reflexivity | congruence].
    + destruct (String.eqb k0 k'); [reflexivity | exact IH].
Qed.

Lemma assocSet_keys {V} (k : string) (v : V) (m : list (string * V)) :
  NoDup m.*1 -> NoDup (assocSet k v m).*1
  /\ forall k', k' ∈ (assocSet k v m).*1 <-> k' = k \/ k' ∈ m.*1.
Proof.
  induction m as [|[k0 v0] m IH]; cbn; intros Hnd.
  - split; [apply NoDup_singleton|]. intros k'. apply elem_of_cons.
  - apply NoDup_cons in Hnd as [Hk0 Hnd]. destruct (IH Hnd) as [IH1 IH2].
    destruct (String.eqb_spec k0 k) as [-> | Hk]; cbn.
    + split; [apply NoDup_cons; auto|]. intros k'. rewrite !elem_of_cons. tauto.
    + split.
      * apply NoDup_cons. split; [|exact IH1]. rewrite IH2. intros [? | ?]; auto.
      * intros k'. rewrite !elem_of_cons, IH2. tauto.
Qed.

(** X21.  Registration from [main] takes effect and disturbs nothing.
    After a [register_group] request from [main] that names a JID, a
    name, a folder and a trigger, the JID is registered with exactly
    these, every other JID is registered as before, and when no JID was
    listed twice none is now. *)
Theorem registration_round_trip (w : World) (data : Payload) (s : State)
        (j n f t : string) :
  tv (jid data) = Some j -> tv (p_name data) = Some n ->
  tv (p_folder data) = Some f -> tv (p_trigger data) = Some t ->
  let s' := (register_group w data true s).2 in
  lookupGroup j (registeredGroups (host s'))
  = Some {| name := n; folder := f; trigger := t; added_at := nowIso w |}
  /\ (forall j', j' <> j ->
                 lookupGroup j' (registeredGroups (host s'))
                 = lookupGroup j' (registeredGroups (host s)))
  /\ (NoDup (registeredGroups (host s)).*1 -> NoDup (registeredGroups (host s')).*1).
Proof.
  intros Hj Hn Hf Ht. cbn zeta. unfold register_group. cbn [negb].
  rewrite Hj, Hn, Hf, Ht. unfold registerGroup, mbind, M_bind, bind, modify, when.
  cbn [fst snd folder].
  destruct (hasNul f); unfold throw, skip, ret; cbn [snd];
    cbn [host set_host registeredGroups set_registeredGroups];
    (split; [apply (assocGet_set_eq j)|]; split;
     [intros j' Hne; apply (assocGet_set_ne j j'), Hne
     |intros Hnd; apply assocSet_keys, Hnd]).
Qed.

Lemma registration_round_trip_witness :
  lookupGroup "new@g.us"
    (registeredGroups (host (register_group Examples.ipcWorld Examples.registerRequest
                                            true (Examples.ipcState [] [])).2))
  = Some {| name := "New"; folder := "new"; trigger := "@New";
            added_at := "2026-02-01T10:00:00.000Z" |}.
Proof.
  exact (proj1 (registration_round_trip Examples.ipcWorld Examples.registerRequest
                  (Examples.ipcState [] []) "new@g.us" "New" "new" "@New"
                  eq_refl eq_refl eq_refl eq_refl)).
Defined.

(** X22.  [kb_add] writes into the group it came from.  Whatever the
    payload says, its [groupFolder] included, the request leaves the
    sources as they were or adds one source, of type [text], without a
    URL, that belongs to the group in whose directory the request was
    found. *)
Theorem kb_add_own_group (w : World) (data : Payload) (g : string) (s : State) :
  let s' := (kb_add w data g s).2 in
  Kb.sources (kb (host s')) = Kb.sources (kb (host s))
  \/ exists src,
      Kb.sources (kb (host s')) = Kb.sources (kb (host s)) ++ [src]
      /\ Kb.group_folder src = g /\ Kb.url src = None
      /\ Kb.source_type src = Kb.text.
Proof.
  cbn zeta. unfold kb_add. destruct (tv (p_content data)) as [c|]; [|left; reflexivity].
  unfold mbind, M_bind, bind, onKb.
  set (o := {| Kb.groupFolder := g; Kb.opt_url := None; Kb.opt_title := title data;
               Kb.sourceType := Some Kb.text; Kb.opt_tags := tags data |}).
  rewrite (IngestMore.ingestContent_no_url (kbWorld (router w)) c o (kb (host s)) eq_refl).
  change (Kb.finishIngestion (kbWorld (router w)) None (Kb.opt_title o) c
            (default Kb.text (Kb.sourceType o)) (Kb.groupFolder o) (Kb.opt_tags o)
            None (kb (host s)))
    with (Kb.finishIngestion (kbWorld (router w)) None (title data) c Kb.text g
            (tags data) None (kb (host s))).
  destruct (Kb.finishIngestion (kbWorld (router w)) None (title data) c Kb.text g
                               (tags data) None (kb (host s))) as [r k] eqn:Hfin.
  assert (Kb.sources k = Kb.sources (kb (host s))
          \/ exists src,
              Kb.sources k = Kb.sources (kb (host s)) ++ [src]
              /\ Kb.group_folder src = g /\ Kb.url src = None
              /\ Kb.source_type src = Kb.text) as Hk.
  { destruct (Kb.success r) eqn:Hok.
    - right.
      pose proof (IngestFacts.finishIngestion_success (kbWorld (router w)) None
                    (title data) c Kb.text g (tags data) None (kb (host s))) as HS.
      cbn zeta in HS. rewrite Hfin in HS. cbn [fst snd] in HS.
      destruct (HS Hok) as (sid & st1 & rows & _ & (_ & src & Hcreate & _) & Hsrc & _).
      exists src. rewrite Hsrc. unfold Kb.createSource in Hcreate.
      injection Hcreate as <- <-. cbn. auto.
    - left.
      pose proof (IngestFacts.finishIngestion_failure (kbWorld (router w)) None
                    (title data) c Kb.text g (tags data) (kb (host s))) as HF.
      rewrite Hfin in HF. cbn [fst snd] in HF. rewrite (HF Hok). reflexivity. }
  cbn [fst snd].
  destruct (Kb.success r);
    match goal with |- context [reply w data ?txt ?st] =>
      pose proof (reply_frame w data txt st) as HR' end;
    cbn zeta in HR'; destruct HR' as (_ & _ & Hkb & _); rewrite Hkb; exact Hk.
Qed.

(** X23.  What [schedule_task] can do: nothing to the host, and to the
    task table nothing or one new task.  A new task is for the group the
    payload names, which is the requesting group unless the request
    comes from [main]; its chat is the JID under which that group is
    registered, not one taken from the payload; it is [active]; its
    context mode is [group] or [isolated]; and its next run is the one
    computed from its schedule. *)
Theorem scheduled_task (w : World) (data : Payload) (g : string) (isMain : bool)
        (s : State) :
  let s' := (schedule_task w data g isMain s).2 in
  host s' = host s
  /\ (tasks s' = tasks s
      \/ exists t grp,
          tasks s' = tasks s ++ [t]
          /\ tv (groupFolder data) = Some (task_group_folder t)
          /\ (isMain = true \/ task_group_folder t = g)
          /\ (task_chat_jid t, grp) ∈ registeredGroups (host s)
          /\ folder grp = task_group_folder t
          /\ task_status t = "active"
          /\ (task_context_mode t = "group" \/ task_context_mode t = "isolated")
          /\ nextRunOf w (task_schedule_type t) (task_schedule_value t)
             = Resolved (inr (next_run t))).
Proof.
  cbn zeta. unfold schedule_task.
  destruct (tv (p_prompt data)) as [pr|]; [|split; [reflexivity | left; reflexivity]].
  destruct (tv (schedule_type data)) as [sty|]; [|split; [reflexivity | left; reflexivity]].
  destruct (tv (schedule_value data)) as [sv|]; [|split; [reflexivity | left; reflexivity]].
  destruct (tv (groupFolder data)) as [tg|] eqn:Htg;
    [|split; [reflexivity | left; reflexivity]].
  destruct (negb isMain && negb (String.eqb tg g)) eqn:Hauth;
    [split; [reflexivity | left; reflexivity]|].
  unfold mbind, M_bind, bind, gets. cbn [fst snd].
  destruct (find (fun kv => String.eqb (folder (snd kv)) tg) (registeredGroups (host s)))
    as [[j grp]|] eqn:Hfind; [|split; [reflexivity | left; reflexivity]].
  cbn [fmap option_fmap option_map fst tv].
  destruct (Js.truthy j); [|split; [reflexivity | left; reflexivity]].
  destruct (nextRunOf w sty sv) as [[msg | nextRun] | e] eqn:Hnext;
    [split; [reflexivity | left; reflexivity]| |split; [reflexivity | left; reflexivity]].
  split; [reflexivity|]. right. eexists. exists grp. cbn.
  apply find_some in Hfind as [Hin Hfolder]. cbn in Hfolder.
  apply String.eqb_eq in Hfolder.
  split; [reflexivity|]. split; [reflexivity|]. split.
  { destruct isMain; [left; reflexivity|]. right. cbn in Hauth.
    apply negb_false_iff, String.eqb_eq in Hauth. exact Hauth. }
  split; [apply list_elem_of_In, Hin|]. split; [exact Hfolder|].
  split; [reflexivity|]. split; [|exact Hnext].
  destruct (context_mode data) as [m|]; [|right; reflexivity].
  destruct (String.eqb_spec m "group") as [-> | _]; [left; reflexivity|].
  destruct (String.eqb_spec m "isolated") as [-> | _]; right; reflexivity.
Qed.

(** X24.  A request that names another group is turned away whole.
    When a group other than [main] asks to schedule a task for, or to
    list, search, update or delete in the knowledge base of, a group
    that is not itself, the handler returns, and the state is what it
    was but for one line of the log: nothing is read, written or sent. *)
Theorem cross_group_refused (w : World) (data : Payload) (g t : string) (k : Kind)
        (s : State) :
  tv (groupFolder data) = Some t -> t <> g ->
  kindOf (type data) = Some k ->
  k ∈ [K_schedule_task; K_kb_list; K_kb_search; K_kb_update; K_kb_delete] ->
  (processTaskIpc w data g false s).1 = Resolved ()
  /\ ((processTaskIpc w data g false s).2 = s
      \/ exists msg, (processTaskIpc w data g false s).2 = (warn msg s).2).
Proof.
  intros Ht Hne Hk Hin. unfold processTaskIpc. rewrite Hk.
  assert (targetGroupOf data g = t) as Htarget.
  { unfold targetGroupOf, Js.or_else. unfold tv in Ht.
    destruct (groupFolder data) as [x|]; [|discriminate].
    destruct (Js.truthy x); [congruence | discriminate]. }
  assert (String.eqb t g = false) as Hneq by (apply String.eqb_neq, Hne).
  rewrite !elem_of_cons in Hin.
  destruct Hin as [-> | [-> | [-> | [-> | [-> | Hin]]]]]; [..|inversion Hin].
  - unfold schedule_task.
    destruct (tv (p_prompt data)); [|split; [reflexivity | left; reflexivity]].
    destruct (tv (schedule_type data)); [|split; [reflexivity | left; reflexivity]].
    destruct (tv (schedule_value data)); [|split; [reflexivity | left; reflexivity]].
    rewrite Ht, Hneq. cbn [negb andb]. split; [reflexivity | right; eexists; reflexivity].
  - unfold kb_list. rewrite Htarget, Hneq. cbn [negb andb].
    split; [reflexivity | right; eexists; reflexivity].
  - unfold kb_search.
    destruct (tv (query data)); [|split; [reflexivity | right; eexists; reflexivity]].
    rewrite Htarget, Hneq. cbn [negb andb].
    split; [reflexivity | right; eexists; reflexivity].
  - unfold kb_update. rewrite Htarget, Hneq. cbn [negb andb].
    split; [reflexivity | right; eexists; reflexivity].
  - unfold kb_delete. rewrite Htarget, Hneq. cbn [negb andb].
    split; [reflexivity | right; eexists; reflexivity].
Qed.

Lemma cross_group_refused_witness :
  (processTaskIpc Examples.ipcWorld Examples.deleteRequest "work" false
                  (Examples.ipcState [] [])).2
  = Examples.ipcState [] []
  \/ exists msg,
      (processTaskIpc Examples.ipcWorld Examples.deleteRequest "work" false
                      (Examples.ipcState [] [])).2
      = (warn msg (Examples.ipcState [] [])).2.
Proof.
  refine (proj2 (cross_group_refused Examples.ipcWorld Examples.deleteRequest "work"
                   "family" K_kb_delete (Examples.ipcState [] []) eq_refl _ eq_refl _)).
  - discriminate.
  - rewrite !elem_of_cons. tauto.
Defined.

(** *** Sugar projects *)

(** X25.  The first project becomes the default.  When [main] adds a
    project, with a name and a path, to an empty registry, the project
    is marked as the default, whether or not the request asked for it,
    and a Sugar request that names no project resolves to it. *)
Theorem first_project_is_default (w : World) (data request : Payload) (g : string)
        (s : State) (n p : string) :
  tv (p_name data) = Some n -> tv (projectPath data) = Some p ->
  sugarProjects s = [] ->
  tv (project request) = None -> tv (projectName request) = None ->
  let s' := (sugar_add_project w data g true s).2 in
  let added := {| project_name := n; project_path := p; project_repo := repo data;
                  project_default := true |} in
  getSugarProject n s' = Some (Project added)
  /\ getDefaultSugarProject s' = Some added
  /\ requestedProject request s' = Some (Project added).
Proof.
  intros Hn Hp Hempty Hr1 Hr2. cbn zeta. unfold sugar_add_project. cbn [negb].
  rewrite Hn, Hp. unfold mbind, M_bind, bind, gets, modify. cbn [fst snd].
  match goal with |- context [reply w data ?txt ?st] =>
    pose proof (reply_frame w data txt st) as HR;
    destruct (reply w data txt st) as [o s'] end.
  cbn zeta in HR. cbn [fst snd] in *. destruct HR as (_ & _ & _ & _ & Hprojects & _).
  unfold requestedProject, getSugarProject, getDefaultSugarProject.
  rewrite Hr1, Hr2, Hprojects. cbn [sugarProjects set_sugarProjects]. rewrite Hempty.
  cbn [assocSet]. rewrite orb_true_r. unfold assocGet. cbn.
  rewrite String.eqb_refl. repeat split.
Qed.

Lemma first_project_is_default_witness :
  getDefaultSugarProject
    (sugar_add_project Examples.ipcWorld Cases.addProjectRequest "main" true
                       Cases.freshBroker).2
  = Some {| project_name := "app"; project_path := "/srv/app"; project_repo := None;
            project_default := true |}.
Proof.
  exact (proj1 (proj2 (first_project_is_default Examples.ipcWorld
                         Cases.addProjectRequest Examples.sugarRunRequest "main"
                         Cases.freshBroker "app" "/srv/app" eq_refl eq_refl eq_refl
                         eq_refl eq_refl))).
Defined.





(** *** From the agent's tool to the chat *)

(** X27.  What an agent sends with [send_message] reaches its own chat.
    For the data the tool writes, found in the directory of the agent's
    group, with a non-empty text, and the agent's chat registered to
    that group: the watcher's handler returns, logs nothing, and hands
    exactly one text to the transport, for that chat, the text prefixed
    with the assistant's name. *)
Theorem send_message_delivered (w : World) (ctx : Mcp.IpcMcpContext) (txt : string)
        (grp : RegisteredGroup) (s : State) :
  txt <> "" -> Mcp.ctx_chatJid ctx <> "" ->
  lookupGroup (Mcp.ctx_chatJid ctx) (registeredGroups (host s)) = Some grp ->
  folder grp = Mcp.ctx_groupFolder ctx ->
  let r := handleMessage w (Mcp.ctx_groupFolder ctx) (Mcp.ctx_isMain ctx)
                         (Mcp.send_message ctx txt) s in
  r.1 = Resolved ()
  /\ trace r.2 = trace s
  /\ outbox (host r.2)
     = outbox (host s) ++
         (if sockSend (router w) (Mcp.ctx_chatJid ctx) (assistant w +:+ ": " +:+ txt)
          then [(Mcp.ctx_chatJid ctx, assistant w +:+ ": " +:+ txt)] else []).
Proof.
  intros Htxt Hjid Hgrp Hfolder. cbn zeta. unfold handleMessage, Mcp.send_message.
  cbn [type chatJid text tv].
  rewrite (JidFacts.truthy_ne _ Hjid), (JidFacts.truthy_ne _ Htxt).
  cbn [String.eqb Ascii.eqb Bool.eqb]. unfold mbind, M_bind, bind, gets. cbn [fst snd].
  rewrite Hgrp, Hfolder, String.eqb_refl, orb_true_r.
  unfold sendMessage, modify, set_host, Router.sendMessage. cbn.
  destruct (sockSend _ _ _); cbn; rewrite ?app_nil_r; repeat split.
Qed.

Lemma send_message_delivered_witness :
  outbox (host (handleMessage Examples.ipcWorld "family" false
                  (Mcp.send_message Cases.familyAgent "Dinner is ready")
                  (Examples.ipcState [] [])).2)
  = [("family@g.us", "Alfred: Dinner is ready")].
Proof.
  refine (proj2 (proj2 (send_message_delivered Examples.ipcWorld Cases.familyAgent
                          "Dinner is ready" Examples.family (Examples.ipcState [] [])
                          _ _ eq_refl eq_refl))); discriminate.
Defined.

End HandlerFacts.

(** ** One round of the watcher *)

Module WatcherFacts.

Import Router Ipc IpcSpec BrokerSpec StringFacts.

Lemma filter_twice {A} (p p' : A -> bool) (l : list A) :
  List.filter p (List.filter p' l) = List.filter (fun x => p x && p' x) l.
Proof.
  induction l as [|x l IH]; [reflexivity|]. cbn [List.filter].
  destruct (p' x); cbn [List.filter]; rewrite ?andb_true_r, ?andb_false_r;
    [destruct (p x)|]; rewrite IH; reflexivity.
Qed.

Lemma filter_all {A} (p : A -> bool) (l : list A) :
  (forall x, In x l -> p x = true) -> List.filter p l = l.
Proof.
  induction l as [|x l IH]; intros H; [reflexivity|]. cbn [List.filter].
  rewrite (H x (or_introl eq_refl)), IH; [reflexivity|].
  intros y Hy. apply H. right. exact Hy.
Qed.

Lemma handled_spec (L : list (string * Queue * string)) (g : string) (q : Queue)
      (n : string) :
  handled L g q n = true <-> (g, q, n) ∈ L.
Proof.
  unfold handled. rewrite existsb_exists. split.
  - intros ([[g' q'] n'] & Hin & H). cbn in H.
    apply andb_true_iff in H as [H Hn]. apply andb_true_iff in H as [Hg Hq].
    apply String.eqb_eq in Hg, Hn. subst.
    destruct q', q; try discriminate; apply list_elem_of_In, Hin.
  - intros Hin. exists (g, q, n). split; [apply list_elem_of_In, Hin|]. cbn.
    rewrite !String.eqb_refl. destruct q; reflexivity.
Qed.

Lemma without_nil (dirs : list (string * GroupDir)) : without [] dirs = dirs.
Proof.
  unfold without. rewrite <- (map_id dirs) at 2. apply map_ext. intros [k [ms ts]].
  cbn [fst snd messagesDir tasksDir handled existsb negb].
  rewrite !filter_all by reflexivity. reflexivity.
Qed.

Lemma handled_cons (g' : string) (q' : Queue) (n' : string)
      (L : list (string * Queue * string)) (g : string) (q : Queue) (n : string) :
  handled ((g', q', n') :: L) g q n
  = (String.eqb g' g && queue_eqb q' q && String.eqb n' n) || handled L g q n.
Proof. reflexivity. Qed.

(** Unlinking one more file. *)
Lemma removeFile_without (q : Queue) (g n : string) (s : State)
      (L : list (string * Queue * string)) (dirs : list (string * GroupDir)) :
  ipcDirs s = without L dirs ->
  ipcDirs (removeFile q g n s) = without ((g, q, n) :: L) dirs.
Proof.
  unfold removeFile. cbn [ipcDirs set_ipcDirs]. intros ->. unfold without.
  rewrite map_map. apply map_ext. intros [k d]. cbn [fst snd messagesDir tasksDir].
  assert (forall q' (l : list IpcFile),
             queue_eqb q q' = false \/ k <> g ->
             List.filter (fun f => negb (handled ((g, q, n) :: L) k q' (file_name f))) l
             = List.filter (fun f => negb (handled L k q' (file_name f))) l) as Hsame.
  { intros q' l Hno. apply filter_ext. intros f. rewrite handled_cons.
    destruct Hno as [-> | Hne].
    - rewrite andb_false_r. reflexivity.
    - rewrite (proj2 (String.eqb_neq g k)) by congruence. reflexivity. }
  assert (forall (l : list IpcFile),
             List.filter (fun f => negb (String.eqb (file_name f) n))
                         (List.filter (fun f => negb (handled L g q (file_name f))) l)
             = List.filter (fun f => negb (handled ((g, q, n) :: L) g q (file_name f))) l)
    as Hcut.
  { intros l. rewrite filter_twice. apply filter_ext. intros f.
    rewrite handled_cons, String.eqb_refl, negb_orb, (String.eqb_sym n).
    destruct q; reflexivity. }
  destruct (String.eqb_spec k g) as [-> | Hne].
  - destruct q; cbn [messagesDir tasksDir]; rewrite Hcut.
    + rewrite (Hsame Tasks) by (left; reflexivity). reflexivity.
    + rewrite (Hsame Messages) by (left; reflexivity). reflexivity.
  - rewrite (Hsame Messages), (Hsame Tasks) by (right; exact Hne).
    destruct d; reflexivity.
Qed.

(** Handling a file always returns, and does to the directories what
    unlinking the file does. *)
Lemma processFile_dirs (w : World) (q : Queue) (g : string) (isMain : bool)
      (f : IpcFile) (s : State) :
  (processFile w q g isMain f s).1 = Resolved ()
  /\ ipcDirs (processFile w q g isMain f s).2
     = ipcDirs (removeFile q g (file_name f) s).
Proof. apply IpcFacts.processFile_queues. Qed.

(** The files of one queue, one after the other. *)
Lemma forEach_files (w : World) (q : Queue) (g : string) (isMain : bool)
      (dirs : list (string * GroupDir)) (fs : list IpcFile) :
  forall (s : State) (L : list (string * Queue * string)),
    ipcDirs s = without L dirs ->
    (forEach fs (processFile w q g isMain) s).1 = Resolved ()
    /\ exists L',
        ipcDirs (forEach fs (processFile w q g isMain) s).2 = without L' dirs
        /\ forall x, x ∈ L' <-> x ∈ L \/ exists f, f ∈ fs /\ x = (g, q, file_name f).
Proof.
  induction fs as [|f fs IH]; intros s L Hs; cbn [forEach].
  - split; [reflexivity|]. exists L. split; [exact Hs|].
    intros x. split; [auto|]. intros [H | (f & Hf & _)]; [exact H | inversion Hf].
  - unfold mbind, M_bind, bind.
    destruct (processFile_dirs w q g isMain f s) as [Hr Hd].
    destruct (processFile w q g isMain f s) as [o s1]. cbn [fst snd] in *. subst o.
    rewrite (removeFile_without q g (file_name f) s L dirs Hs) in Hd.
    destruct (IH s1 _ Hd) as (Hres & L' & HL' & Hmem).
    split; [exact Hres|]. exists L'. split; [exact HL'|].
    intros x. rewrite Hmem, elem_of_cons. split.
    + intros [[-> | H] | (f' & Hf' & ->)]; [right; exists f; split; [left|reflexivity]
                                           | left; exact H
                                           | right; exists f'; split; [right; exact Hf'|reflexivity]].
    + intros [H | (f' & Hf' & ->)]; [left; right; exact H|].
      apply elem_of_cons in Hf' as [-> | Hf']; [left; left; reflexivity|].
      right. exists f'. auto.
Qed.

(** One group directory: its messages, then its tasks. *)
Lemma processGroupDir_dirs (w : World) (g : string) (d : GroupDir)
      (dirs : list (string * GroupDir)) (s : State)
      (L : list (string * Queue * string)) :
  ipcDirs s = without L dirs ->
  (processGroupDir w g d s).1 = Resolved ()
  /\ exists L',
      ipcDirs (processGroupDir w g d s).2 = without L' dirs
      /\ forall x,
          x ∈ L' <-> x ∈ L
                     \/ exists q f, f ∈ queueOf q d /\ isJson (file_name f) = true
                                    /\ x = (g, q, file_name f).
Proof.
  intros Hs. unfold processGroupDir. cbn zeta. unfold mbind, M_bind, bind.
  destruct (forEach_files w Messages g (String.eqb g MAIN_GROUP_FOLDER) dirs
              (List.filter (fun f => isJson (file_name f)) (messagesDir d)) s L Hs)
    as (Hr1 & L1 & HL1 & Hm1).
  destruct (forEach (List.filter (fun f => isJson (file_name f)) (messagesDir d))
                    (processFile w Messages g (String.eqb g MAIN_GROUP_FOLDER)) s)
    as [o s1]. cbn [fst snd] in *. subst o.
  destruct (forEach_files w Tasks g (String.eqb g MAIN_GROUP_FOLDER) dirs
              (List.filter (fun f => isJson (file_name f)) (tasksDir d)) s1 L1 HL1)
    as (Hr2 & L2 & HL2 & Hm2).
  split; [exact Hr2|]. exists L2. split; [exact HL2|].
  intros x. rewrite Hm2, Hm1. split.
  - intros [[H | (f & Hf & ->)] | (f & Hf & ->)]; [left; exact H | right | right].
    + apply list_elem_of_In, filter_In in Hf as [Hf Hj].
      exists Messages, f. split; [apply list_elem_of_In, Hf | auto].
    + apply list_elem_of_In, filter_In in Hf as [Hf Hj].
      exists Tasks, f. split; [apply list_elem_of_In, Hf | auto].
  - intros [H | ([] & f & Hf & Hj & ->)]; [left; left; exact H | left; right | right];
      exists f; (split; [|reflexivity]); apply list_elem_of_In, filter_In;
      (split; [apply list_elem_of_In, Hf | exact Hj]).
Qed.

(** The group directories, one after the other. *)
Lemma forEach_groups (w : World) (dirs : list (string * GroupDir))
      (gs : list (string * GroupDir)) :
  forall (s : State) (L : list (string * Queue * string)),
    ipcDirs s = without L dirs ->
    (forEach gs (fun kv => processGroupDir w (fst kv) (snd kv)) s).1 = Resolved ()
    /\ exists L',
        ipcDirs (forEach gs (fun kv => processGroupDir w (fst kv) (snd kv)) s).2
        = without L' dirs
        /\ forall x,
            x ∈ L' <-> x ∈ L
                       \/ exists g d q f,
                           (g, d) ∈ gs /\ f ∈ queueOf q d
                           /\ isJson (file_name f) = true /\ x = (g, q, file_name f).
Proof.
  induction gs as [|[g d] gs IH]; intros s L Hs; cbn [forEach].
  - split; [reflexivity|]. exists L. split; [exact Hs|].
    intros x. split; [auto|]. intros [H | (g & d & q & f & Hg & _)];
      [exact H | inversion Hg].
  - unfold mbind, M_bind, bind. cbn [fst snd].
    destruct (processGroupDir_dirs w g d dirs s L Hs) as (Hr & L1 & HL1 & Hm1).
    destruct (processGroupDir w g d s) as [o s1]. cbn [fst snd] in *. subst o.
    destruct (IH s1 L1 HL1) as (Hres & L' & HL' & Hmem).
    split; [exact Hres|]. exists L'. split; [exact HL'|].
    intros x. rewrite Hmem, Hm1. split.
    + intros [[H | (q & f & Hf & Hj & ->)] | (g' & d' & q & f & Hg & Hf & Hj & ->)].
      * left. exact H.
      * right. exists g, d, q, f. split; [left | auto].
      * right. exists g', d', q, f. split; [right; exact Hg | auto].
    + intros [H | (g' & d' & q & f & Hg & Hf & Hj & ->)]; [left; left; exact H|].
      apply elem_of_cons in Hg as [[= -> ->] | Hg].
      * left. right. exists q, f. auto.
      * right. exists g', d', q, f. auto.
Qed.

(** What a round leaves of the directories. *)
Lemma round_dirs (w : World) (s : State) :
  (processIpcFiles w s).1 = Resolved ()
  /\ ipcDirs (processIpcFiles w s).2
     = map (fun kv : string * GroupDir =>
              if String.eqb (fst kv) "errors" then kv else (fst kv, unread (snd kv)))
           (ipcDirs s).
Proof.
  unfold processIpcFiles, mbind, M_bind, bind, gets. cbn [fst snd].
  destruct (forEach_groups w (ipcDirs s)
              (List.filter (fun kv => negb (String.eqb (fst kv) "errors")) (ipcDirs s))
              s [] (eq_sym (without_nil (ipcDirs s)))) as (Hr & L & HL & Hmem).
  split; [exact Hr|]. rewrite HL. unfold without. apply map_ext_in.
  intros [k d] Hkd. cbn [fst snd].
  assert (forall q f, f ∈ queueOf q d ->
                      handled L k q (file_name f)
                      = negb (String.eqb k "errors") && isJson (file_name f)) as Hh.
  { intros q f Hf. apply eq_true_iff_eq. rewrite handled_spec, Hmem, andb_true_iff.
    split.
    - intros [H | (g & d' & q' & f' & Hg & Hf' & Hj & Heq)]; [inversion H|].
      injection Heq as -> -> Hn. apply list_elem_of_In, filter_In in Hg as [_ Hg].
      split; [exact Hg | rewrite Hn; exact Hj].
    - intros [Hk Hj]. right. exists k, d, q, f.
      split; [|auto]. apply list_elem_of_In, filter_In. split; [exact Hkd | exact Hk]. }
  assert (forall q, List.filter (fun f => negb (handled L k q (file_name f))) (queueOf q d)
                    = List.filter (fun f => negb (negb (String.eqb k "errors")
                                                  && isJson (file_name f)))
                                  (queueOf q d)) as Hf.
  { intros q. apply filter_ext_in. intros f Hin.
    rewrite (Hh q f) by (apply list_elem_of_In, Hin). reflexivity. }
  pose proof (Hf Messages) as HM. pose proof (Hf Tasks) as HT. cbn [queueOf] in HM, HT.
  rewrite HM, HT. destruct (String.eqb k "errors"); cbn [negb andb].
  - rewrite !filter_all by reflexivity. destruct d; reflexivity.
  - reflexivity.
Qed.

Lemma unread_queue (q : Queue) (d : GroupDir) (f : IpcFile) :
  f ∈ queueOf q (unread d) <-> f ∈ queueOf q d /\ isJson (file_name f) = false.
Proof.
  destruct q; cbn [queueOf unread messagesDir tasksDir];
    rewrite !list_elem_of_In, filter_In, negb_true_iff; reflexivity.
Qed.


Lemma fileName_isJson (now rand : string) : isJson (Mcp.fileName now rand) = true.
Proof.
  unfold isJson, Mcp.fileName.
  replace (now +:+ "-" +:+ rand +:+ ".json") with ((now +:+ "-" +:+ rand) +:+ ".json")
    by (rewrite <- !str_app_assoc; reflexivity).
  rewrite str_rev_app. apply IpcFacts.prefix_app.
Qed.

Lemma tempPath_not_json (path : string) : isJson (Mcp.tempPath path) = false.
Proof.
  unfold isJson, Mcp.tempPath. rewrite str_rev_app. reflexivity.
Qed.

(** X29.  The agent's way of writing a request fits the watcher's way
    of reading.  The name [writeIpcFile] gives a request ends in
    [.json], so the watcher takes it; the name under which the data is
    first written does not, so a round of the watcher that finds the
    file half written leaves it in its queue, unread. *)
Theorem atomic_write_protocol (w : World) (s : State) (g : string) (d : GroupDir)
        (q : Queue) (now rand : string) (p : Parsed) :
  (g, d) ∈ ipcDirs s ->
  {| file_name := Mcp.tempPath (Mcp.fileName now rand); parsed := p |} ∈ queueOf q d ->
  isJson (Mcp.fileName now rand) = true
  /\ exists d',
      (g, d') ∈ ipcDirs (processIpcFiles w s).2
      /\ {| file_name := Mcp.tempPath (Mcp.fileName now rand); parsed := p |}
           ∈ queueOf q d'.
Proof.
  intros Hg Hf. split; [apply fileName_isJson|].
  destruct (round_dirs w s) as [_ ->].
  exists (if String.eqb g "errors" then d else unread d). split.
  - apply list_elem_of_fmap. exists (g, d). split; [|exact Hg]. cbn [fst snd].
    destruct (String.eqb g "errors"); reflexivity.
  - destruct (String.eqb g "errors"); [exact Hf|]. apply unread_queue.
    split; [exact Hf | apply tempPath_not_json].
Qed.

Lemma atomic_write_protocol_witness :
  isJson (Mcp.fileName "1770000000001" "ef34gh") = true
  /\ exists d',
      ("family", d') ∈ ipcDirs (processIpcFiles Examples.ipcWorld Cases.busyBroker).2
      /\ {| file_name := Mcp.tempPath (Mcp.fileName "1770000000001" "ef34gh");
            parsed := ParseError |} ∈ queueOf Messages d'.
Proof.
  refine (atomic_write_protocol Examples.ipcWorld Cases.busyBroker "family" _ Messages
            "1770000000001" "ef34gh" ParseError _ _).
  - left.
  - right. left.
Defined.

End WatcherFacts.
